(** * shuttle: the service registry, the service runtime and the client
    configuration objects, embedded from the Go sources

    Conventions of the embedding.
    - A Go [int], [int64] or [time.Duration] is a [Z]; arithmetic that can
      leave the 64-bit range is wrapped with [wrap64].
    - A Go [string] is a [string] (a list of bytes); slicing and ordering are
      byte-wise, as in Go.
    - A slice or map that Go distinguishes from [nil] is an [option].
    - A [[]string] is a slice header ([StrSlice.t]) into a store of arrays
      ([arrays]); the in-place [sort.Strings] and [filterEmpty] act on the
      store, so two headers on one array see each other's writes.
    - A [*Service] held by a [VirtualHost] is represented by the service's
      name: [VirtualHost.Add] and [VirtualHost.Remove] identify services by
      [Name], and the registry holds one object per name.
    - A run-time panic is an explicit outcome. *)

From Stdlib Require Import ZArith Lia Ascii String.
From stdpp Require Import base decidable option list sorting strings gmap fin_maps.

Open Scope Z_scope.

(** ** Machine integers *)

Definition wrap64 (z : Z) : Z := (z + 2 ^ 63) mod 2 ^ 64 - 2 ^ 63.

Definition in_int64 (z : Z) : Prop := - 2 ^ 63 <= z < 2 ^ 63.

(** [time.Millisecond], in nanoseconds. *)
Definition Millisecond : Z := 1000000.

(** [time.Duration(ms) * time.Millisecond] *)
Definition ms_to_Duration (ms : Z) : Z := wrap64 (ms * Millisecond).

(** [int(d / time.Millisecond)]; Go's division truncates toward zero. *)
Definition Duration_to_ms (d : Z) : Z := Z.quot d Millisecond.

(** ** Strings *)

(** [s[:n]]: [None] stands for the panic "slice bounds out of range". *)
Definition str_prefix (n : nat) (s : string) : option string :=
  if decide (n ≤ String.length s)%nat then Some (String.substring 0 n s) else None.

(** [s[n:]] for [n <= len(s)]. *)
Definition str_from (n : nat) (s : string) : string :=
  String.substring n (String.length s - n) s.

(** [strings.HasSuffix(s, suffix)] *)
Definition HasSuffix (s suffix : string) : bool :=
  bool_decide (String.length suffix ≤ String.length s)%nat &&
  bool_decide (str_from (String.length s - String.length suffix) s = suffix).

(** [strings.Index(s, ":")]: the index of the first colon, or [-1]. *)
Fixpoint index_colon (s : string) : Z :=
  match s with
  | EmptyString => -1
  | String c r =>
      if decide (c = ":"%char) then 0
      else let k := index_colon r in if decide (k = -1) then -1 else k + 1
  end.

(** One leading white-space rune of [unicode.IsSpace], in UTF-8, is removed
    from a byte list; [None] when the list does not start with one. *)
Definition strip_space (bs : list N) : option (list N) :=
  match bs with
  | (9 | 10 | 11 | 12 | 13 | 32)%N :: r => Some r
  | 194%N :: (133 | 160)%N :: r => Some r
  | 225%N :: 154%N :: 128%N :: r => Some r
  | 226%N :: 128%N :: c :: r =>
      if decide ((128 ≤ c ≤ 138)%N ∨ c = 168%N ∨ c = 169%N ∨ c = 175%N)
      then Some r else None
  | 226%N :: 129%N :: 159%N :: r => Some r
  | 227%N :: 128%N :: 128%N :: r => Some r
  | _ => None
  end.

Fixpoint all_space (fuel : nat) (bs : list N) : bool :=
  match bs, fuel with
  | [], _ => true
  | _, O => false
  | _, S fuel =>
      match strip_space bs with
      | Some r => all_space fuel r
      | None => false
      end
  end.

Fixpoint bytes_of (s : string) : list N :=
  match s with
  | EmptyString => []
  | String c r => N_of_ascii c :: bytes_of r
  end.

(** [len(strings.TrimSpace(s)) == 0] *)
Definition blank (s : string) : bool :=
  all_space (String.length s) (bytes_of s).

(** [sort.Strings] on a value. *)
Definition sort_strings (l : list string) : list string :=
  merge_sort String.le l.

(** ** Arrays of strings and slice headers *)

Module StrSlice.
Record t := mk { arr : nat; len : nat }.
End StrSlice.

#[global] Instance StrSlice_eq_dec : EqDecision StrSlice.t.
Proof. solve_decision. Defined.

(** The arrays behind the [[]string] values of the process. *)
Abbreviation arrays := (list (list string)).

Definition array_of (m : arrays) (a : nat) : list string := default [] (m !! a).

(** The elements seen through a slice header; a [nil] slice has none. *)
Definition elems (m : arrays) (s : option StrSlice.t) : list string :=
  match s with
  | None => []
  | Some r => take (StrSlice.len r) (array_of m (StrSlice.arr r))
  end.

(** The first [len] cells of the array are replaced. *)
Definition store (m : arrays) (r : StrSlice.t) (l : list string) : arrays :=
  <[StrSlice.arr r := l ++ drop (StrSlice.len r) (array_of m (StrSlice.arr r))]> m.

(** A slice literal or a decoded JSON array: a fresh array. *)
Definition alloc (m : arrays) (l : option (list string)) : option StrSlice.t * arrays :=
  match l with
  | None => (None, m)
  | Some l => (Some (StrSlice.mk (length m) (length l)), m ++ [l])
  end.

(** [sort.Strings(s)]: in place. *)
Definition sort_Strings (m : arrays) (s : option StrSlice.t) : arrays :=
  match s with
  | None => m
  | Some r => store m r (sort_strings (elems m s))
  end.

(** One iteration of the loop of [filterEmpty], at index [i]. *)
Definition filterEmpty_step (st : list string * nat) (i : nat) : list string * nat :=
  let '(a, removed) := st in
  let a := if decide (0 < removed)%nat
           then <[(i - removed)%nat := default "" (a !! i)]> a else a in
  let removed := if blank (default "" (a !! i)) then S removed else removed in
  (a, removed).

Definition filterEmpty_loop (a : list string) : list string * nat :=
  foldl filterEmpty_step (a, O) (seq 0 (length a)).

(** [filterEmpty(a)]: compacts [a] in place and returns [a[:len(a)-removed]]. *)
Definition filterEmpty (m : arrays) (s : option StrSlice.t) : option StrSlice.t * arrays :=
  match s with
  | None => (None, m)
  | Some r =>
      let '(a, removed) := filterEmpty_loop (elems m s) in
      (Some (StrSlice.mk (StrSlice.arr r) (StrSlice.len r - removed)), store m r a)
  end.

(** ** Errors *)

Inductive error :=
| ErrNoService
| ErrNoBackend
| ErrDuplicateService
| ErrDuplicateBackend
| ErrInvalidServiceUpdate
| ErrPortConflict (name port : string)
| ErrUnknownNetwork (network : string)
| ErrNet (msg : string).

#[global] Instance error_eq_dec : EqDecision error.
Proof. solve_decision. Defined.

Definition Error (e : error) : string :=
  match e with
  | ErrNoService => "service does not exist"
  | ErrNoBackend => "backend does not exist"
  | ErrDuplicateService => "service already exists"
  | ErrDuplicateBackend => "backend already exists"
  | ErrInvalidServiceUpdate => "configuration requires a new service"
  | ErrPortConflict name port =>
      "Port conflict: " +:+ name +:+ " port " +:+ port +:+ " already bound by shuttle"
  | ErrUnknownNetwork nw => "Error: unknown network '" +:+ nw +:+ "'"
  | ErrNet msg => msg
  end.

(** ** Package client: the configuration objects *)

Definition RoundRobin : string := "RR".
Definition LeastConn : string := "LC".
Definition DefaultTimeout : Z := 2000.
Definition DefaultCheckInterval : Z := 5000.
Definition DefaultNet : string := "tcp".
Definition DefaultWeight : Z := 1.
Definition DefaultBalance : string := RoundRobin.
Definition DefaultFall : Z := 2.
Definition DefaultRise : Z := 2.

Module BackendConfig.
Record t := mk {
  Name : string;
  Addr : string;
  Network : string;
  CheckAddr : string;
  Weight : Z
}.

Definition SetDefaults (b : t) : t :=
  {| Name := Name b;
     Addr := Addr b;
     Network := if decide (Network b = "") then DefaultNet else Network b;
     CheckAddr := CheckAddr b;
     Weight := if decide (Weight b = 0) then DefaultWeight else Weight b |}.
End BackendConfig.

#[global] Instance BackendConfig_eq_dec : EqDecision BackendConfig.t.
Proof. solve_decision. Defined.

(** [BackendConfig.Equal]: struct equality after defaults. *)
Definition BackendConfig_Equal (b other : BackendConfig.t) : bool :=
  bool_decide (BackendConfig.SetDefaults b = BackendConfig.SetDefaults other).

(** [map[string][]int] *)
Abbreviation ErrorPagesMap := (option (gmap string (option (list Z)))).

Module ServiceConfig.
Record t := mk {
  Name : string;
  Addr : string;
  Network : string;
  Balance : string;
  CheckInterval : Z;
  Fall : Z;
  Rise : Z;
  ClientTimeout : Z;
  ServerTimeout : Z;
  DialTimeout : Z;
  HTTPSRedirect : bool;
  VirtualHosts : option StrSlice.t;
  ErrorPages : ErrorPagesMap;
  Backends : option (list BackendConfig.t);
  MaintenanceMode : bool
}.

Definition SetDefaults (s : t) : t :=
  {| Name := Name s;
     Addr := Addr s;
     Network := if decide (Network s = "") then DefaultNet else Network s;
     Balance := if decide (Balance s = "") then DefaultBalance else Balance s;
     CheckInterval :=
       if decide (CheckInterval s = 0) then DefaultCheckInterval else CheckInterval s;
     Fall := if decide (Fall s = 0) then DefaultFall else Fall s;
     Rise := if decide (Rise s = 0) then DefaultRise else Rise s;
     ClientTimeout :=
       if decide (ClientTimeout s = 0) then DefaultTimeout else ClientTimeout s;
     ServerTimeout :=
       if decide (ServerTimeout s = 0) then DefaultTimeout else ServerTimeout s;
     DialTimeout := DialTimeout s;
     HTTPSRedirect := HTTPSRedirect s;
     VirtualHosts := VirtualHosts s;
     ErrorPages := ErrorPages s;
     Backends := Backends s;
     MaintenanceMode := MaintenanceMode s |}.

(** [s.Backends = nil] on the callee's copy. *)
Definition without_Backends (s : t) : t :=
  {| Name := Name s; Addr := Addr s; Network := Network s; Balance := Balance s;
     CheckInterval := CheckInterval s; Fall := Fall s; Rise := Rise s;
     ClientTimeout := ClientTimeout s; ServerTimeout := ServerTimeout s;
     DialTimeout := DialTimeout s; HTTPSRedirect := HTTPSRedirect s;
     VirtualHosts := VirtualHosts s; ErrorPages := ErrorPages s;
     Backends := None; MaintenanceMode := MaintenanceMode s |}.

Definition with_VirtualHosts (s : t) (v : option StrSlice.t) : t :=
  {| Name := Name s; Addr := Addr s; Network := Network s; Balance := Balance s;
     CheckInterval := CheckInterval s; Fall := Fall s; Rise := Rise s;
     ClientTimeout := ClientTimeout s; ServerTimeout := ServerTimeout s;
     DialTimeout := DialTimeout s; HTTPSRedirect := HTTPSRedirect s;
     VirtualHosts := v; ErrorPages := ErrorPages s;
     Backends := Backends s; MaintenanceMode := MaintenanceMode s |}.


(** The settings of [s] on their own: no virtual hosts, error pages or
    backends. *)
Definition settings (s : t) : t :=
  {| Name := Name s; Addr := Addr s; Network := Network s; Balance := Balance s;
     CheckInterval := CheckInterval s; Fall := Fall s; Rise := Rise s;
     ClientTimeout := ClientTimeout s; ServerTimeout := ServerTimeout s;
     DialTimeout := DialTimeout s; HTTPSRedirect := HTTPSRedirect s;
     VirtualHosts := None; ErrorPages := None;
     Backends := None; MaintenanceMode := MaintenanceMode s |}.

(** [s.Merge(cfg)] *)
Definition Merge (s cfg : t) : t :=
  {| Name := Name cfg;
     Addr := if decide (Addr cfg ≠ "") then Addr cfg else Addr s;
     Network := if decide (Network cfg ≠ "") then Network cfg else Network s;
     Balance := if decide (Balance cfg ≠ "") then Balance cfg else Balance s;
     CheckInterval :=
       if decide (CheckInterval cfg ≠ 0) then CheckInterval cfg else CheckInterval s;
     Fall := if decide (Fall cfg ≠ 0) then Fall cfg else Fall s;
     Rise := if decide (Rise cfg ≠ 0) then Rise cfg else Rise s;
     ClientTimeout :=
       if decide (ClientTimeout cfg ≠ 0) then ClientTimeout cfg else ClientTimeout s;
     ServerTimeout :=
       if decide (ServerTimeout cfg ≠ 0) then ServerTimeout cfg else ServerTimeout s;
     DialTimeout :=
       if decide (DialTimeout cfg ≠ 0) then DialTimeout cfg else DialTimeout s;
     HTTPSRedirect := HTTPSRedirect cfg;
     VirtualHosts :=
       if decide (VirtualHosts cfg ≠ None) then VirtualHosts cfg else VirtualHosts s;
     ErrorPages :=
       if decide (ErrorPages cfg ≠ None) then ErrorPages cfg else ErrorPages s;
     Backends := if decide (Backends cfg ≠ None) then Backends cfg else Backends s;
     MaintenanceMode := MaintenanceMode cfg |}.

(** [reflect.DeepEqual] of two slice headers: both nil, or both non-nil with
    equal elements. *)
Definition DeepEqual_strings (m : arrays) (a b : option StrSlice.t) : bool :=
  match a, b with
  | None, None => true
  | Some _, Some _ => bool_decide (elems m a = elems m b)
  | _, _ => false
  end.

(** [reflect.DeepEqual(s, other)] *)
Definition DeepEqual (m : arrays) (s other : t) : bool :=
  bool_decide (Name s = Name other) && bool_decide (Addr s = Addr other) &&
  bool_decide (Network s = Network other) && bool_decide (Balance s = Balance other) &&
  bool_decide (CheckInterval s = CheckInterval other) &&
  bool_decide (Fall s = Fall other) && bool_decide (Rise s = Rise other) &&
  bool_decide (ClientTimeout s = ClientTimeout other) &&
  bool_decide (ServerTimeout s = ServerTimeout other) &&
  bool_decide (DialTimeout s = DialTimeout other) &&
  bool_decide (HTTPSRedirect s = HTTPSRedirect other) &&
  DeepEqual_strings m (VirtualHosts s) (VirtualHosts other) &&
  bool_decide (ErrorPages s = ErrorPages other) &&
  bool_decide (Backends s = Backends other) &&
  bool_decide (MaintenanceMode s = MaintenanceMode other).

(** [s.Equal(other)].  The receiver's [VirtualHosts] is sorted in place,
    twice; [other]'s is not sorted. *)
Definition Equal (m : arrays) (s other : t) : bool * arrays :=
  let s := without_Backends s in
  let other := without_Backends other in
  let s := SetDefaults s in
  let other := SetDefaults other in
  let m := sort_Strings m (VirtualHosts s) in
  let m := sort_Strings m (VirtualHosts s) in
  (DeepEqual m s other, m).
End ServiceConfig.

Module Config.
Record t := mk {
  Balance : string;
  CheckInterval : Z;
  Fall : Z;
  Rise : Z;
  ClientTimeout : Z;
  ServerTimeout : Z;
  DialTimeout : Z;
  HTTPSRedirect : bool;
  Services : list ServiceConfig.t
}.
End Config.

(** ** Backends *)

(** Modelled from the spec: the [Backend] struct, [NewBackend], [Backend.Up]
    and [Backend.Config] are declared in a file that is not among the
    sources.  The fields are those the sources read and write; a new backend
    takes its configuration with the defaults of [BackendConfig.SetDefaults]
    (weight 1, network tcp). *)
Module Backend.
Record t := mk {
  Name : string;
  Addr : string;
  Network : string;
  CheckAddr : string;
  Weight : Z;
  Active : Z;
  up : bool;
  rwTimeout : Z;
  dialTimeout : Z;
  checkInterval : Z
}.

(** Modelled from the spec: "[Up()] — current health state". *)
Definition Up (b : t) : bool := up b.

(** Modelled from the spec: "[Config()], [Stats()] — snapshot value
    objects". *)
Definition Config (b : t) : BackendConfig.t :=
  BackendConfig.mk (Name b) (Addr b) (Network b) (CheckAddr b) (Weight b).
End Backend.

(** Modelled from the spec: [NewBackend] is declared with [Backend].  The
    backend takes the fields of its configuration after
    [BackendConfig.SetDefaults]; its run-time fields are set by [add]. *)
Definition NewBackend (cfg : BackendConfig.t) : Backend.t :=
  let cfg := BackendConfig.SetDefaults cfg in
  {| Backend.Name := BackendConfig.Name cfg;
     Backend.Addr := BackendConfig.Addr cfg;
     Backend.Network := BackendConfig.Network cfg;
     Backend.CheckAddr := BackendConfig.CheckAddr cfg;
     Backend.Weight := BackendConfig.Weight cfg;
     Backend.Active := 0;
     Backend.up := false;
     Backend.rwTimeout := 0;
     Backend.dialTimeout := 0;
     Backend.checkInterval := 0 |}.

(** ** Services *)

(** The method stored in the field [next]. *)
Inductive Balancer := by_roundRobin | by_leastConn.

(** [switch cfg.Balance] of [NewService] and [UpdateConfig] *)
Definition balancer_of (balance : string) : Balancer :=
  if decide (balance = RoundRobin) then by_roundRobin
  else if decide (balance = LeastConn) then by_leastConn
  else by_roundRobin.

(** The fields of [Service] that the embedded functions read or write.  The
    mutex, the listeners themselves, the reverse proxy, the error-page cache
    and the dialer are left out; [listening] records that [start] opened the
    listener. *)
Module Service.
Record t := mk {
  Name : string;
  Addr : string;
  HTTPSRedirect : bool;
  VirtualHosts : option StrSlice.t;
  Backends : list Backend.t;
  Balance : string;
  CheckInterval : Z;
  Fall : Z;
  Rise : Z;
  ClientTimeout : Z;
  ServerTimeout : Z;
  DialTimeout : Z;
  Sent : Z;
  Rcvd : Z;
  Errors : Z;
  HTTPConns : Z;
  HTTPActive : Z;
  Network : string;
  MaintenanceMode : bool;
  next : Balancer;
  lastBackend : nat;
  lastCount : Z;
  listening : bool;
  errPagesCfg : ErrorPagesMap
}.

Definition set_Backends (s : t) (bs : list Backend.t) : t :=
  mk (Name s) (Addr s) (HTTPSRedirect s) (VirtualHosts s) bs (Balance s)
     (CheckInterval s) (Fall s) (Rise s) (ClientTimeout s) (ServerTimeout s)
     (DialTimeout s) (Sent s) (Rcvd s) (Errors s) (HTTPConns s) (HTTPActive s)
     (Network s) (MaintenanceMode s) (next s) (lastBackend s) (lastCount s)
     (listening s) (errPagesCfg s).

Definition set_VirtualHosts (s : t) (v : option StrSlice.t) : t :=
  mk (Name s) (Addr s) (HTTPSRedirect s) v (Backends s) (Balance s)
     (CheckInterval s) (Fall s) (Rise s) (ClientTimeout s) (ServerTimeout s)
     (DialTimeout s) (Sent s) (Rcvd s) (Errors s) (HTTPConns s) (HTTPActive s)
     (Network s) (MaintenanceMode s) (next s) (lastBackend s) (lastCount s)
     (listening s) (errPagesCfg s).

Definition set_errPagesCfg (s : t) (e : ErrorPagesMap) : t :=
  mk (Name s) (Addr s) (HTTPSRedirect s) (VirtualHosts s) (Backends s) (Balance s)
     (CheckInterval s) (Fall s) (Rise s) (ClientTimeout s) (ServerTimeout s)
     (DialTimeout s) (Sent s) (Rcvd s) (Errors s) (HTTPConns s) (HTTPActive s)
     (Network s) (MaintenanceMode s) (next s) (lastBackend s) (lastCount s)
     (listening s) e.

Definition set_listening (s : t) (l : bool) : t :=
  mk (Name s) (Addr s) (HTTPSRedirect s) (VirtualHosts s) (Backends s) (Balance s)
     (CheckInterval s) (Fall s) (Rise s) (ClientTimeout s) (ServerTimeout s)
     (DialTimeout s) (Sent s) (Rcvd s) (Errors s) (HTTPConns s) (HTTPActive s)
     (Network s) (MaintenanceMode s) (next s) (lastBackend s) (lastCount s)
     l (errPagesCfg s).

Definition set_last (s : t) (i : nat) (c : Z) : t :=
  mk (Name s) (Addr s) (HTTPSRedirect s) (VirtualHosts s) (Backends s) (Balance s)
     (CheckInterval s) (Fall s) (Rise s) (ClientTimeout s) (ServerTimeout s)
     (DialTimeout s) (Sent s) (Rcvd s) (Errors s) (HTTPConns s) (HTTPActive s)
     (Network s) (MaintenanceMode s) (next s) i c
     (listening s) (errPagesCfg s).

Definition set_HTTP (s : t) (conns active : Z) : t :=
  mk (Name s) (Addr s) (HTTPSRedirect s) (VirtualHosts s) (Backends s) (Balance s)
     (CheckInterval s) (Fall s) (Rise s) (ClientTimeout s) (ServerTimeout s)
     (DialTimeout s) (Sent s) (Rcvd s) (Errors s) conns active
     (Network s) (MaintenanceMode s) (next s) (lastBackend s) (lastCount s)
     (listening s) (errPagesCfg s).

Definition set_traffic (s : t) (sent rcvd errors : Z) : t :=
  mk (Name s) (Addr s) (HTTPSRedirect s) (VirtualHosts s) (Backends s) (Balance s)
     (CheckInterval s) (Fall s) (Rise s) (ClientTimeout s) (ServerTimeout s)
     (DialTimeout s) sent rcvd errors (HTTPConns s) (HTTPActive s)
     (Network s) (MaintenanceMode s) (next s) (lastBackend s) (lastCount s)
     (listening s) (errPagesCfg s).
End Service.

(** The position of the first backend called [name]. *)
Fixpoint backend_index (name : string) (bs : list Backend.t) : option nat :=
  match bs with
  | [] => None
  | b :: bs =>
      if decide (Backend.Name b = name) then Some O
      else S <$> backend_index name bs
  end.

(** [s.Network[:3] != backend.Network[:3]]; [None] is the panic of a slice
    expression on a string shorter than three bytes. *)
Definition network_mismatch (s : Service.t) (backend : Backend.t) : option bool :=
  match str_prefix 3 (Service.Network s), str_prefix 3 (Backend.Network backend) with
  | Some a, Some b => Some (bool_decide (a ≠ b))
  | _, _ => None
  end.

(** [s.add(backend)]: add or replace a backend.  A network mismatch is
    logged and the function goes on; [None] is a panic. *)
Definition Service_add (s : Service.t) (backend : Backend.t) : option Service.t :=
  let backend :=
    {| Backend.Name := Backend.Name backend;
       Backend.Addr := Backend.Addr backend;
       Backend.Network := Backend.Network backend;
       Backend.CheckAddr := Backend.CheckAddr backend;
       Backend.Weight := Backend.Weight backend;
       Backend.Active := Backend.Active backend;
       Backend.up := true;
       Backend.rwTimeout := Service.ServerTimeout s;
       Backend.dialTimeout := Service.DialTimeout s;
       Backend.checkInterval := ms_to_Duration (Service.CheckInterval s) |} in
  match network_mismatch s backend with
  | None => None
  | Some _logged =>
      match backend_index (Backend.Name backend) (Service.Backends s) with
      | Some i => Some (Service.set_Backends s (<[i := backend]> (Service.Backends s)))
      | None => Some (Service.set_Backends s (Service.Backends s ++ [backend]))
      end
  end.

(** [s.remove(name)]: the removed cell takes the last backend and the slice
    loses its last cell. *)
Definition Service_remove (s : Service.t) (name : string) : Service.t * bool :=
  match backend_index name (Service.Backends s) with
  | Some i =>
      let bs := Service.Backends s in
      let last := (length bs - 1)%nat in
      let bs := match bs !! last with Some b => <[i := b]> bs | None => bs end in
      (Service.set_Backends s (take last bs), true)
  | None => (s, false)
  end.

(** [NewService(cfg)]; [None] when one of the calls of [add] panics. *)
Definition NewService (cfg : ServiceConfig.t) : option Service.t :=
  let s :=
    {| Service.Name := ServiceConfig.Name cfg;
       Service.Addr := ServiceConfig.Addr cfg;
       Service.HTTPSRedirect := ServiceConfig.HTTPSRedirect cfg;
       Service.VirtualHosts := ServiceConfig.VirtualHosts cfg;
       Service.Backends := [];
       Service.Balance := ServiceConfig.Balance cfg;
       Service.CheckInterval :=
         if decide (ServiceConfig.CheckInterval cfg = 0) then DefaultCheckInterval
         else ServiceConfig.CheckInterval cfg;
       Service.Fall :=
         if decide (ServiceConfig.Fall cfg = 0) then DefaultFall
         else ServiceConfig.Fall cfg;
       Service.Rise :=
         if decide (ServiceConfig.Rise cfg = 0) then DefaultRise
         else ServiceConfig.Rise cfg;
       Service.ClientTimeout := ms_to_Duration (ServiceConfig.ClientTimeout cfg);
       Service.ServerTimeout := ms_to_Duration (ServiceConfig.ServerTimeout cfg);
       Service.DialTimeout := ms_to_Duration (ServiceConfig.DialTimeout cfg);
       Service.Sent := 0;
       Service.Rcvd := 0;
       Service.Errors := 0;
       Service.HTTPConns := 0;
       Service.HTTPActive := 0;
       Service.Network :=
         if decide (ServiceConfig.Network cfg = "") then DefaultNet
         else ServiceConfig.Network cfg;
       Service.MaintenanceMode := ServiceConfig.MaintenanceMode cfg;
       Service.next := balancer_of (ServiceConfig.Balance cfg);
       Service.lastBackend := O;
       Service.lastCount := 0;
       Service.listening := false;
       Service.errPagesCfg := ServiceConfig.ErrorPages cfg |} in
  foldl (λ acc b, acc ≫= λ s, Service_add s (NewBackend b))
        (Some s) (default [] (ServiceConfig.Backends cfg)).

(** [s.UpdateConfig(cfg)] *)
Definition Service_UpdateConfig (s : Service.t) (cfg : ServiceConfig.t)
  : Service.t * option error :=
  if decide (Service.ClientTimeout s ≠ ms_to_Duration (ServiceConfig.ClientTimeout cfg))
  then (s, Some ErrInvalidServiceUpdate)
  else if decide (Service.Addr s ≠ "" ∧ Service.Addr s ≠ ServiceConfig.Addr cfg)
  then (s, Some ErrInvalidServiceUpdate)
  else
    let changed := bool_decide (Service.Balance s ≠ ServiceConfig.Balance cfg) in
    ({| Service.Name := Service.Name s;
        Service.Addr := Service.Addr s;
        Service.HTTPSRedirect := ServiceConfig.HTTPSRedirect cfg;
        Service.VirtualHosts := Service.VirtualHosts s;
        Service.Backends := Service.Backends s;
        Service.Balance :=
          if changed then ServiceConfig.Balance cfg else Service.Balance s;
        Service.CheckInterval := ServiceConfig.CheckInterval cfg;
        Service.Fall := ServiceConfig.Fall cfg;
        Service.Rise := ServiceConfig.Rise cfg;
        Service.ClientTimeout := Service.ClientTimeout s;
        Service.ServerTimeout := ms_to_Duration (ServiceConfig.ServerTimeout cfg);
        Service.DialTimeout := ms_to_Duration (ServiceConfig.DialTimeout cfg);
        Service.Sent := Service.Sent s;
        Service.Rcvd := Service.Rcvd s;
        Service.Errors := Service.Errors s;
        Service.HTTPConns := Service.HTTPConns s;
        Service.HTTPActive := Service.HTTPActive s;
        Service.Network := Service.Network s;
        Service.MaintenanceMode := ServiceConfig.MaintenanceMode cfg;
        Service.next :=
          if changed then balancer_of (ServiceConfig.Balance cfg) else Service.next s;
        Service.lastBackend := Service.lastBackend s;
        Service.lastCount := Service.lastCount s;
        Service.listening := Service.listening s;
        Service.errPagesCfg := Service.errPagesCfg s |}, None).

(** [s.config()] and [s.Config()].  [config.Backends] grows by [append]
    from [nil], so it stays [nil] for a service without backends. *)
Definition Service_config (s : Service.t) : ServiceConfig.t :=
  {| ServiceConfig.Name := Service.Name s;
     ServiceConfig.Addr := Service.Addr s;
     ServiceConfig.Network := Service.Network s;
     ServiceConfig.Balance := Service.Balance s;
     ServiceConfig.CheckInterval := Service.CheckInterval s;
     ServiceConfig.Fall := Service.Fall s;
     ServiceConfig.Rise := Service.Rise s;
     ServiceConfig.ClientTimeout := Duration_to_ms (Service.ClientTimeout s);
     ServiceConfig.ServerTimeout := Duration_to_ms (Service.ServerTimeout s);
     ServiceConfig.DialTimeout := Duration_to_ms (Service.DialTimeout s);
     ServiceConfig.HTTPSRedirect := Service.HTTPSRedirect s;
     ServiceConfig.VirtualHosts := Service.VirtualHosts s;
     ServiceConfig.ErrorPages := Service.errPagesCfg s;
     ServiceConfig.Backends :=
       match Service.Backends s with
       | [] => None
       | bs => Some (Backend.Config <$> bs)
       end;
     ServiceConfig.MaintenanceMode := Service.MaintenanceMode s |}.

(** [s.Available()] *)
Definition Service_Available (s : Service.t) : Z :=
  if Service.MaintenanceMode s then 0
  else Z.of_nat (length (filter (λ b, Backend.Up b = true) (Service.Backends s))).

(** ** Balancers *)

(** The backends a balancer selects from: those that are Up. *)
Definition live (s : Service.t) : list Backend.t :=
  filter (λ b, Backend.Up b = true) (Service.Backends s).

(** Modelled from the spec: [Service.roundRobin] is declared in a file that
    is not among the sources.  The spec: "returns the full live backend list
    rotated so that the first element is the next backend to try ... if
    lastCount < weight(lastBackend) increment lastCount and keep the same
    head; otherwise advance lastBackend := (lastBackend+1) mod N, reset
    lastCount := 1"; no backend Up gives the empty list.  An index that no
    longer names a live backend takes the second branch. *)
Definition roundRobin (s : Service.t) : Service.t * list Backend.t :=
  let bs := live s in
  match bs with
  | [] => (s, [])
  | _ =>
      let repeat :=
        match bs !! Service.lastBackend s with
        | Some b => bool_decide (Service.lastCount s < Backend.Weight b)
        | None => false
        end in
      let s :=
        if repeat
        then Service.set_last s (Service.lastBackend s) (Service.lastCount s + 1)
        else Service.set_last s ((Service.lastBackend s + 1) mod length bs)%nat 1 in
      (s, rotate (Service.lastBackend s) bs)
  end.

Fixpoint insert_by_Active (b : Backend.t) (l : list Backend.t) : list Backend.t :=
  match l with
  | [] => [b]
  | c :: l' =>
      if decide (Backend.Active b ≤ Backend.Active c) then b :: l
      else c :: insert_by_Active b l'
  end.

(** Modelled from the spec: [Service.leastConn] is declared in a file that is
    not among the sources.  The spec: "returns the backend list sorted
    ascending by Active (ties broken by current order) ... LC filters Down
    backends out". *)
Definition leastConn (s : Service.t) : Service.t * list Backend.t :=
  (s, foldr insert_by_Active [] (live s)).

(** [s.next()] *)
Definition Service_next (s : Service.t) : Service.t * list Backend.t :=
  match Service.next s with
  | by_roundRobin => roundRobin s
  | by_leastConn => leastConn s
  end.

(** [s.NextAddrs()] *)
Definition Service_NextAddrs (s : Service.t) : Service.t * list string :=
  let '(s, backends) := Service_next s in
  (s, Backend.Addr <$> backends).

(** ** The HTTP path *)

Inductive ConnectionState := tls_connection.

Module Request.
Record t := mk {
  TLS : option ConnectionState;
  Header : gmap string (list string);
  Host : string;
  RequestURI : string
}.
End Request.

(** [h.Get(key)] for a key in canonical form: the first value, or [""]. *)
Definition Header_Get (h : gmap string (list string)) (key : string) : string :=
  match h !! key with
  | Some (v :: _) => v
  | _ => ""
  end.

Record ErrorPage := { page_Header : gmap string (list string); page_Body : string }.

Definition StatusMovedPermanently : Z := 301.
Definition StatusServiceUnavailable : Z := 503.

(** What [ServeHTTP] does with the response writer: the call of
    [http.Redirect] with its location and code, the 503 with the error page
    when there is one, or the hand-over to the reverse proxy with the
    addresses of [NextAddrs]. *)
Inductive Response :=
| Redirect (location : string) (code : Z)
| Unavailable (code : Z) (page : option ErrorPage)
| Proxied (addrs : list string).

(** [s.ServeHTTP(w, r)].  [errPage] is the answer of
    [s.errorPages.Get(http.StatusServiceUnavailable)]: the error-page cache is
    declared in a file that is not among the sources.  [HTTPActive] is
    incremented on entry and decremented by the deferred call. *)
Definition Service_ServeHTTP (errPage : option ErrorPage) (s : Service.t) (r : Request.t)
  : Service.t * Response :=
  let s := Service.set_HTTP s (wrap64 (Service.HTTPConns s + 1))
                              (wrap64 (Service.HTTPActive s + 1)) in
  let leave (s : Service.t) :=
    Service.set_HTTP s (Service.HTTPConns s) (wrap64 (Service.HTTPActive s - 1)) in
  if Service.HTTPSRedirect s &&
     (bool_decide (Request.TLS r ≠ None) ||
      bool_decide (Header_Get (Request.Header r) "X-Forwarded-Proto" ≠ "https"))
  then
    let redirLoc := "https://" +:+ Request.Host r +:+ Request.RequestURI r in
    (leave s, Redirect redirLoc StatusMovedPermanently)
  else if Service.MaintenanceMode s
  then (leave s, Unavailable StatusServiceUnavailable errPage)
  else
    let '(s, addrs) := Service_NextAddrs s in
    (leave s, Proxied addrs).

(** ** Virtual hosts *)

Module VirtualHost.
Record t := mk {
  Name : string;
  services : list string;
  last : nat
}.
End VirtualHost.

(** [v.Len()] *)
Definition VirtualHost_Len (v : VirtualHost.t) : nat :=
  length (VirtualHost.services v).

(** [v.Add(svc)]: nothing is done for a name already registered. *)
Definition VirtualHost_Add (v : VirtualHost.t) (svc : string) : VirtualHost.t :=
  if bool_decide (svc ∈ VirtualHost.services v) then v
  else VirtualHost.mk (VirtualHost.Name v) (VirtualHost.services v ++ [svc])
                      (VirtualHost.last v).

(** The first occurrence of [svc] is cut out of the list. *)
Fixpoint remove_first (svc : string) (l : list string) : list string :=
  match l with
  | [] => []
  | s :: l' => if decide (s = svc) then l' else s :: remove_first svc l'
  end.

(** [v.Remove(svc)] *)
Definition VirtualHost_Remove (v : VirtualHost.t) (svc : string) : VirtualHost.t :=
  VirtualHost.mk (VirtualHost.Name v) (remove_first svc (VirtualHost.services v))
                 (VirtualHost.last v).

(** How a call that returns a [*Service] ends. *)
Inductive Selected :=
| Returned (svc : option string)
| IndexOutOfRange
| NilDereference.

(** The loop of [v.Service()], for [i] from [i] to [len(v.services)]. *)
Fixpoint Service_scan (deref : string → option Service.t) (v : VirtualHost.t)
    (fuel : nat) (i : nat) : option (VirtualHost.t * Selected) :=
  match fuel with
  | O => None
  | S fuel =>
      let n := length (VirtualHost.services v) in
      let idx := ((VirtualHost.last v + i) mod n)%nat in
      match VirtualHost.services v !! idx with
      | None => Some (v, IndexOutOfRange)
      | Some name =>
          match deref name with
          | None => Some (v, NilDereference)
          | Some svc =>
              if decide (0 < Service_Available svc)
              then Some (VirtualHost.mk (VirtualHost.Name v) (VirtualHost.services v) idx,
                         Returned (Some name))
              else Service_scan deref v fuel (S i)
          end
      end
  end.

(** [v.Service()].  [deref] reads the service behind a pointer. *)
Definition VirtualHost_Service (deref : string → option Service.t) (v : VirtualHost.t)
  : VirtualHost.t * Selected :=
  let n := length (VirtualHost.services v) in
  if decide (n = O) then (v, Returned None)
  else
    match Service_scan deref v n 1 with
    | Some r => r
    | None =>
        match VirtualHost.services v !! VirtualHost.last v with
        | Some name => (v, Returned (Some name))
        | None => (v, IndexOutOfRange)
        end
    end.

(** ** The service registry *)

(** What the registry takes from outside the sources read here: the two
    command-line settings [httpsRedirect] and [adminListenAddr], the answer of
    the operating system when [start] opens a listener
    ([None]: the listener is open), and the order in which [range] walks the
    keys of a Go map. *)
Record Env := {
  httpsRedirect : bool;
  adminListenAddr : string;
  listen : string → string → option error;
  range_order : list string → list string
}.

(** The global [Registry] ([svcs], [vhosts], [cfg]) and the arrays that the
    [VirtualHosts] slices of its services point into. *)
Record World := mkWorld {
  svcs : gmap string Service.t;
  vhosts : gmap string VirtualHost.t;
  cfg : Config.t;
  heap : arrays
}.

Inductive result := Done | Failed (err : error) | Panicked.

(** [s.start()], without the accept loop it launches. *)
Definition Service_start (env : Env) (s : Service.t) : Service.t + error :=
  if bool_decide (Service.Network s ∈ ["tcp"; "tcp4"; "tcp6"; "udp"; "udp4"; "udp6"])
  then
    match listen env (Service.Network s) (Service.Addr s) with
    | Some err => inr err
    | None => inl (Service.set_listening s true)
    end
  else inr (ErrUnknownNetwork (Service.Network s)).

(** [s.setServiceDefaults(&svc)] *)
Definition setServiceDefaults (c : Config.t) (svc : ServiceConfig.t) : ServiceConfig.t :=
  {| ServiceConfig.Name := ServiceConfig.Name svc;
     ServiceConfig.Addr := ServiceConfig.Addr svc;
     ServiceConfig.Network := ServiceConfig.Network svc;
     ServiceConfig.Balance :=
       if decide (ServiceConfig.Balance svc = "" ∧ Config.Balance c ≠ "")
       then Config.Balance c else ServiceConfig.Balance svc;
     ServiceConfig.CheckInterval :=
       if decide (ServiceConfig.CheckInterval svc = 0 ∧ Config.CheckInterval c ≠ 0)
       then Config.CheckInterval c else ServiceConfig.CheckInterval svc;
     ServiceConfig.Fall :=
       if decide (ServiceConfig.Fall svc = 0 ∧ Config.Fall c ≠ 0)
       then Config.Fall c else ServiceConfig.Fall svc;
     ServiceConfig.Rise :=
       if decide (ServiceConfig.Rise svc = 0 ∧ Config.Rise c ≠ 0)
       then Config.Rise c else ServiceConfig.Rise svc;
     ServiceConfig.ClientTimeout :=
       if decide (ServiceConfig.ClientTimeout svc = 0 ∧ Config.ClientTimeout c ≠ 0)
       then Config.ClientTimeout c else ServiceConfig.ClientTimeout svc;
     ServiceConfig.ServerTimeout :=
       if decide (ServiceConfig.ServerTimeout svc = 0 ∧ Config.ServerTimeout c ≠ 0)
       then Config.ServerTimeout c else ServiceConfig.ServerTimeout svc;
     ServiceConfig.DialTimeout :=
       if decide (ServiceConfig.DialTimeout svc = 0 ∧ Config.DialTimeout c ≠ 0)
       then Config.DialTimeout c else ServiceConfig.DialTimeout svc;
     ServiceConfig.HTTPSRedirect :=
       if Config.HTTPSRedirect c then true else ServiceConfig.HTTPSRedirect svc;
     ServiceConfig.VirtualHosts := ServiceConfig.VirtualHosts svc;
     ServiceConfig.ErrorPages := ServiceConfig.ErrorPages svc;
     ServiceConfig.Backends := ServiceConfig.Backends svc;
     ServiceConfig.MaintenanceMode := ServiceConfig.MaintenanceMode svc |}.

(** The body of the two loops that register a service under a host name:
    the virtual host is created when the table has none. *)
Definition vhost_attach (service : string) (vh : gmap string VirtualHost.t) (name : string)
  : gmap string VirtualHost.t :=
  let vhost := default (VirtualHost.mk name [] O) (vh !! name) in
  <[name := VirtualHost_Add vhost service]> vh.

(** [s.GetService(name)] *)
Definition GetService (w : World) (name : string) : option Service.t :=
  svcs w !! name.

(** [s.AddService(svcCfg)] *)
Definition AddService (env : Env) (w : World) (svcCfg : ServiceConfig.t) : World * result :=
  match svcs w !! ServiceConfig.Name svcCfg with
  | Some _ => (w, Failed ErrDuplicateService)
  | None =>
      let svcCfg := setServiceDefaults (cfg w) svcCfg in
      let svcCfg := ServiceConfig.SetDefaults svcCfg in
      match NewService svcCfg with
      | None => (w, Panicked)
      | Some service =>
          match Service_start env service with
          | inr err => (w, Failed err)
          | inl service =>
              let svcs' := <[Service.Name service := service]> (svcs w) in
              let '(hosts, heap') := filterEmpty (heap w) (ServiceConfig.VirtualHosts svcCfg) in
              let vhosts' :=
                foldl (vhost_attach (Service.Name service)) (vhosts w) (elems heap' hosts) in
              (mkWorld svcs' vhosts' (cfg w) heap', Done)
          end
      end
  end.

(** The linear merge of [updateVHosts] over the two sorted lists: the names
    only in [oldHosts] and the names only in [newHosts], each in order. *)
Fixpoint diff_hosts (oldHosts newHosts : list string) : list string * list string :=
  let fix go (newHosts : list string) : list string * list string :=
    match oldHosts, newHosts with
    | o :: oldHosts', n :: newHosts' =>
        if decide (o ≠ n) then
          if String.ltb o n
          then let '(remove, add) := diff_hosts oldHosts' newHosts in (o :: remove, add)
          else let '(remove, add) := go newHosts' in (remove, n :: add)
        else diff_hosts oldHosts' newHosts'
    | _, _ => (oldHosts, newHosts)
    end in
  go newHosts.

(** The first loop of [updateVHosts].  [vhost.Len()] on a name that the
    table does not have is a call on a nil pointer: the flag records the
    panic, and the table is as the panic leaves it. *)
Definition vhost_detach (service : string) (st : gmap string VirtualHost.t * bool)
    (name : string) : gmap string VirtualHost.t * bool :=
  let '(vh, panicked) := st in
  if panicked then st
  else
    match vh !! name with
    | None => (vh, true)
    | Some vhost =>
        let vhost := VirtualHost_Remove vhost service in
        if decide (VirtualHost_Len vhost = O) then (delete name vh, false)
        else (<[name := vhost]> vh, false)
    end.

(** [s.updateVHosts(service, newHosts)] *)
Definition updateVHosts (w : World) (service : Service.t) (newHosts : option StrSlice.t)
  : World * result :=
  let oldHosts := Service.VirtualHosts service in
  let m := sort_Strings (heap w) oldHosts in
  let m := sort_Strings m newHosts in
  let '(remove, add) := diff_hosts (elems m oldHosts) (elems m newHosts) in
  let '(vh, panicked) := foldl (vhost_detach (Service.Name service)) (vhosts w, false) remove in
  if panicked then (mkWorld (svcs w) vh (cfg w) m, Panicked)
  else
    let vh := foldl (vhost_attach (Service.Name service)) vh add in
    let service := Service.set_VirtualHosts service newHosts in
    (mkWorld (<[Service.Name service := service]> (svcs w)) vh (cfg w) m, Done).

(** The second loop of [UpdateService], over [newCfg.Backends], with the map
    [currentBackends] as the list of its entries.  The flag records a panic
    of [add]; the service is then as the panic leaves it. *)
Definition update_backend (st : Service.t * list BackendConfig.t * bool)
    (newBackend : BackendConfig.t) : Service.t * list BackendConfig.t * bool :=
  let '(service, currentBackends, panicked) := st in
  if panicked then st
  else
    let name := BackendConfig.Name newBackend in
    let rest := filter (λ c, BackendConfig.Name c ≠ name) currentBackends in
    let replace (_ : unit) :=
      let '(service, _) := Service_remove service name in
      match Service_add service (NewBackend newBackend) with
      | Some service => (service, rest, false)
      | None => (service, currentBackends, true)
      end in
    match list_find (λ c, BackendConfig.Name c = name) currentBackends with
    | Some (_, current) =>
        if BackendConfig_Equal current newBackend then (service, rest, false)
        else replace ()
    | None => replace ()
    end.

(** The entries of [currentBackends] as built by the first loop: a later
    backend of the same name overwrites an earlier one. *)
Fixpoint backend_map (l : list BackendConfig.t) : list BackendConfig.t :=
  match l with
  | [] => []
  | c :: l' =>
      if bool_decide (BackendConfig.Name c ∈ (BackendConfig.Name <$> l'))
      then backend_map l' else c :: backend_map l'
  end.

(** [s.UpdateService(newCfg)] *)
Definition UpdateService (env : Env) (w : World) (newCfg : ServiceConfig.t) : World * result :=
  match svcs w !! ServiceConfig.Name newCfg with
  | None => (w, Failed ErrNoService)
  | Some service =>
      let currentCfg := Service_config service in
      let newCfg := ServiceConfig.Merge currentCfg newCfg in
      match Service_UpdateConfig service newCfg with
      | (_, Some err) => (w, Failed err)
      | (service, None) =>
          let put (service : Service.t) (m : arrays) :=
            mkWorld (<[ServiceConfig.Name newCfg := service]> (svcs w)) (vhosts w) (cfg w) m in
          let currentBackends := backend_map (default [] (ServiceConfig.Backends currentCfg)) in
          let '(service, currentBackends, panicked) :=
            foldl update_backend (service, currentBackends, false)
                  (default [] (ServiceConfig.Backends newCfg)) in
          if panicked then (put service (heap w), Panicked)
          else
            let service :=
              foldl (λ s name, fst (Service_remove s name)) service
                    (range_order env (BackendConfig.Name <$> currentBackends)) in
            let '(same, m) := ServiceConfig.Equal (heap w) currentCfg newCfg in
            if same then (put service m, Done)
            else
              let service :=
                if decide (Service.errPagesCfg service ≠ ServiceConfig.ErrorPages newCfg)
                then Service.set_errPagesCfg service (ServiceConfig.ErrorPages newCfg)
                else service in
              let '(newHosts, m) := filterEmpty m (ServiceConfig.VirtualHosts newCfg) in
              updateVHosts (put service m) service newHosts
      end
  end.

(** Whether one of the services lists [host] in its [VirtualHosts]. *)
Definition listed (m : arrays) (ss : gmap string Service.t) (host : string) : bool :=
  bool_decide (map_Exists (λ _ service, host ∈ elems m (Service.VirtualHosts service)) ss).

(** [s.RemoveService(name)].  Each turn of the loop over [s.vhosts] reads
    and writes its own entry only, so the order of the walk does not show. *)
Definition RemoveService (w : World) (name : string) : World * result :=
  match svcs w !! name with
  | Some svc =>
      let svcs' := delete name (svcs w) in
      let vhosts' :=
        map_imap (λ host vhost,
                    if listed (heap w) svcs' host
                    then Some (VirtualHost_Remove vhost (Service.Name svc))
                    else None) (vhosts w) in
      (mkWorld svcs' vhosts' (cfg w) (heap w), Done)
  | None => (w, Failed ErrNoService)
  end.

(** [s.AddBackend(svcName, backendCfg)] *)
Definition AddBackend (w : World) (svcName : string) (backendCfg : BackendConfig.t)
  : World * result :=
  match svcs w !! svcName with
  | None => (w, Failed ErrNoService)
  | Some service =>
      match Service_add service (NewBackend backendCfg) with
      | None => (w, Panicked)
      | Some service =>
          (mkWorld (<[svcName := service]> (svcs w)) (vhosts w) (cfg w) (heap w), Done)
      end
  end.

(** [s.RemoveBackend(svcName, backendName)] *)
Definition RemoveBackend (w : World) (svcName backendName : string) : World * result :=
  match svcs w !! svcName with
  | None => (w, Failed ErrNoService)
  | Some service =>
      let '(service, ok) := Service_remove service backendName in
      (mkWorld (<[svcName := service]> (svcs w)) (vhosts w) (cfg w) (heap w),
       if ok then Done else Failed ErrNoBackend)
  end.

(** The globals of [UpdateConfig]: a field of [cfg] is taken when it is set,
    and the command-line flag turns the redirect on. *)
Definition update_globals (env : Env) (c new : Config.t) : Config.t :=
  {| Config.Balance :=
       if decide (Config.Balance new ≠ "") then Config.Balance new else Config.Balance c;
     Config.CheckInterval :=
       if decide (Config.CheckInterval new ≠ 0) then Config.CheckInterval new
       else Config.CheckInterval c;
     Config.Fall := if decide (Config.Fall new ≠ 0) then Config.Fall new else Config.Fall c;
     Config.Rise := if decide (Config.Rise new ≠ 0) then Config.Rise new else Config.Rise c;
     Config.ClientTimeout :=
       if decide (Config.ClientTimeout new ≠ 0) then Config.ClientTimeout new
       else Config.ClientTimeout c;
     Config.ServerTimeout :=
       if decide (Config.ServerTimeout new ≠ 0) then Config.ServerTimeout new
       else Config.ServerTimeout c;
     Config.DialTimeout :=
       if decide (Config.DialTimeout new ≠ 0) then Config.DialTimeout new
       else Config.DialTimeout c;
     Config.HTTPSRedirect := if httpsRedirect env then true else Config.HTTPSRedirect c;
     Config.Services := Config.Services c |}.

(** [adminListenAddr[strings.Index(adminListenAddr, ":")+1:]] *)
Definition invalidPorts (env : Env) : list string :=
  [str_from (Z.to_nat (index_colon (adminListenAddr env) + 1)) (adminListenAddr env)].

(** The loop over [invalidPorts] for one service: its [continue] ends a turn
    of this loop, not of the loop over the services. *)
Definition port_conflicts (env : Env) (svc : ServiceConfig.t) (errors : list error)
  : list error :=
  foldl (λ errors port,
           if HasSuffix (ServiceConfig.Addr svc) port
           then errors ++ [ErrPortConflict (ServiceConfig.Name svc) port]
           else errors)
        errors (invalidPorts env).

(** One turn of the loop of [UpdateConfig] over [cfg.Services]. *)
Definition update_service (env : Env) (st : World * list error * bool)
    (svc : ServiceConfig.t) : World * list error * bool :=
  let '(w, errors, panicked) := st in
  if panicked then st
  else
    let errors := port_conflicts env svc errors in
    let '(w, r) :=
      match GetService w (ServiceConfig.Name svc) with
      | None => AddService env w svc
      | Some _ => UpdateService env w svc
      end in
    match r with
    | Done => (w, errors, false)
    | Failed err => (w, errors ++ [err], false)
    | Panicked => (w, errors, true)
    end.

Inductive config_result :=
| Returned_nil
| Returned_errors (errors : list error)
| Config_panicked.

(** [s.UpdateConfig(cfg)], without the write of the state file. *)
Definition UpdateConfig (env : Env) (w : World) (c : Config.t) : World * config_result :=
  let w := mkWorld (svcs w) (vhosts w) (update_globals env (cfg w) c) (heap w) in
  let '(w, errors, panicked) :=
    foldl (update_service env) (w, [], false) (Config.Services c) in
  if panicked then (w, Config_panicked)
  else if decide (length errors = O) then (w, Returned_nil)
  else (w, Returned_errors errors).

(** ** The UDP forwarding plane *)

Module UDPAddr.
Record t := mk { IP : list Z; Port : Z }.
End UDPAddr.

Record connTrackKey := mkKey { IPHigh : Z; IPLow : Z; Port : Z }.

#[global] Instance connTrackKey_eq_dec : EqDecision connTrackKey.
Proof. solve_decision. Defined.

#[global] Instance connTrackKey_countable : Countable connTrackKey.
Proof.
  refine (inj_countable' (λ k, (IPHigh k, IPLow k, Port k))
                         (λ t, mkKey t.1.1 t.1.2 t.2) _).
  by intros [].
Defined.

(** [binary.BigEndian.Uint32] and [Uint64] on the bytes they read. *)
Definition BigEndian (bs : list Z) : Z := foldl (λ acc b, acc * 256 + b) 0 bs.

(** [newConnTrackKey(addr)]; [None] is the panic on an address that is
    neither 4 nor at least 16 bytes long. *)
Definition newConnTrackKey (addr : UDPAddr.t) : option connTrackKey :=
  let ip := UDPAddr.IP addr in
  if decide (length ip = 4%nat)
  then Some (mkKey 0 (BigEndian ip) (UDPAddr.Port addr))
  else if decide (16 ≤ length ip)%nat
  then Some (mkKey (BigEndian (take 8 ip)) (BigEndian (take 8 (drop 8 ip)))
                   (UDPAddr.Port addr))
  else None.

(** A [*net.UDPConn]: the number of the socket. *)
Definition UDPConn := nat.

Record UDPProxy := {
  backendAddr : UDPAddr.t;
  connTrackTable : gmap connTrackKey UDPConn
}.

(** What the network answers during one turn of the loop of [runUDP]:
    [ReadFromUDP] ([read_err] tells whether the error is the one of a closed
    connection), [udpRoundRobin] (the address of the chosen backend, or nil),
    [DialUDP] (the new socket, or an error) and [Write] (the bytes written,
    or an error).  [udpRoundRobin] is declared in a file that is not among
    the sources. *)
Record Datagram := {
  read : Z;
  from : UDPAddr.t;
  read_err : option bool;
  backend : option UDPAddr.t;
  dial : option UDPConn;
  write : option Z
}.

Inductive UDPAction :=
| Dialed (to : UDPAddr.t) (conn : UDPConn)
| DialFailed (to : UDPAddr.t)
| Reused (conn : UDPConn)
| ReplyLoop (table : gmap connTrackKey UDPConn) (key : connTrackKey) (conn : UDPConn)
| Written (conn : UDPConn) (n : Z)
| WriteFailed (conn : UDPConn).

Inductive Flow := Continue | Break | Panic.

(** One turn of the loop of [runUDP]. *)
Definition runUDP_turn (s : Service.t) (d : Datagram) : Service.t * list UDPAction * Flow :=
  if bool_decide (read_err d = Some false) then (s, [], Break)
  else if decide (read d = 0) then (s, [], Continue)
  else
    let s := Service.set_traffic s (Service.Sent s) (wrap64 (Service.Rcvd s + read d))
                                 (Service.Errors s) in
    match backend d with
    | None => (s, [], Continue)
    | Some addr =>
        let proxy := {| backendAddr := addr; connTrackTable := ∅ |} in
        match newConnTrackKey (from d) with
        | None => (s, [], Panic)
        | Some fromKey =>
            let send (acts : list UDPAction) (proxyConn : UDPConn) :=
              match write d with
              | None =>
                  (Service.set_traffic s (Service.Sent s) (Service.Rcvd s)
                                       (wrap64 (Service.Errors s + 1)),
                   acts ++ [WriteFailed proxyConn], Break)
              | Some n =>
                  (Service.set_traffic s (wrap64 (Service.Sent s + n)) (Service.Rcvd s)
                                       (Service.Errors s),
                   acts ++ [Written proxyConn n], Continue)
              end in
            match connTrackTable proxy !! fromKey with
            | Some proxyConn => send [Reused proxyConn] proxyConn
            | None =>
                match dial d with
                | None => (s, [DialFailed (backendAddr proxy)], Continue)
                | Some proxyConn =>
                    let table := <[fromKey := proxyConn]> (connTrackTable proxy) in
                    send [Dialed (backendAddr proxy) proxyConn;
                          ReplyLoop table fromKey proxyConn] proxyConn
                end
            end
        end
    end.

(** [s.runUDP()] over the answers of the network, one per turn. *)
Fixpoint runUDP (s : Service.t) (ds : list Datagram) : Service.t * list UDPAction * Flow :=
  match ds with
  | [] => (s, [], Continue)
  | d :: ds =>
      match runUDP_turn s d with
      | (s, acts, Continue) =>
          let '(s, acts', flow) := runUDP s ds in (s, acts ++ acts', flow)
      | r => r
      end
  end.

(** [s.GetVHostService(name)] *)
Definition GetVHostService (w : World) (name : string) : World * Selected :=
  match vhosts w !! name with
  | Some vhost =>
      let '(vhost, r) := VirtualHost_Service (λ n, svcs w !! n) vhost in
      (mkWorld (svcs w) (<[name := vhost]> (vhosts w)) (cfg w) (heap w), r)
  | None => (w, Returned None)
  end.

(** ** The calls of the control surface *)

(** A configuration as it arrives: the [VirtualHosts] of a service is a list
    of names that decoding the request puts in an array of its own. *)
Definition decode (m : arrays) (c : ServiceConfig.t * option (list string))
  : ServiceConfig.t * arrays :=
  let '(hosts, m) := alloc m c.2 in
  (ServiceConfig.with_VirtualHosts c.1 hosts, m).

Fixpoint decode_all (m : arrays) (cs : list (ServiceConfig.t * option (list string)))
  : list ServiceConfig.t * arrays :=
  match cs with
  | [] => ([], m)
  | c :: cs =>
      let '(c, m) := decode m c in
      let '(l, m) := decode_all m cs in
      (c :: l, m)
  end.

Inductive Call :=
| Call_AddService (c : ServiceConfig.t * option (list string))
| Call_UpdateService (c : ServiceConfig.t * option (list string))
| Call_RemoveService (name : string)
| Call_AddBackend (svcName : string) (b : BackendConfig.t)
| Call_RemoveBackend (svcName backendName : string)
| Call_UpdateConfig (c : Config.t) (services : list (ServiceConfig.t * option (list string))).

Definition with_heap (w : World) (m : arrays) : World :=
  mkWorld (svcs w) (vhosts w) (cfg w) m.

Definition with_Services (c : Config.t) (l : list ServiceConfig.t) : Config.t :=
  Config.mk (Config.Balance c) (Config.CheckInterval c) (Config.Fall c) (Config.Rise c)
            (Config.ClientTimeout c) (Config.ServerTimeout c) (Config.DialTimeout c)
            (Config.HTTPSRedirect c) l.

Definition panicked (r : result) : bool :=
  match r with Panicked => true | _ => false end.

Definition config_panicked (r : config_result) : bool :=
  match r with Config_panicked => true | _ => false end.

(** The world after a call, and whether the call panicked. *)
Definition run (env : Env) (w : World) (call : Call) : World * bool :=
  match call with
  | Call_AddService c =>
      let '(c, m) := decode (heap w) c in
      let '(w, r) := AddService env (with_heap w m) c in (w, panicked r)
  | Call_UpdateService c =>
      let '(c, m) := decode (heap w) c in
      let '(w, r) := UpdateService env (with_heap w m) c in (w, panicked r)
  | Call_RemoveService name =>
      let '(w, r) := RemoveService w name in (w, panicked r)
  | Call_AddBackend svcName b =>
      let '(w, r) := AddBackend w svcName b in (w, panicked r)
  | Call_RemoveBackend svcName backendName =>
      let '(w, r) := RemoveBackend w svcName backendName in (w, panicked r)
  | Call_UpdateConfig c services =>
      let '(l, m) := decode_all (heap w) services in
      let '(w, r) := UpdateConfig env (with_heap w m) (with_Services c l) in
      (w, config_panicked r)
  end.

(** The registry at program start. *)
Definition initial : World :=
  mkWorld ∅ ∅ (Config.mk "" 0 0 0 0 0 0 false []) [].

(** A list of host names without a blank name and without a repeated name. *)
Definition clean (hosts : option (list string)) : Prop :=
  NoDup (default [] hosts) ∧ ∀ h, h ∈ default [] hosts → blank h = false.

Definition clean_call (call : Call) : Prop :=
  match call with
  | Call_AddService c | Call_UpdateService c => clean c.2
  | Call_UpdateConfig _ services => Forall (λ c, clean c.2) services
  | _ => True
  end.

(** The worlds that calls with clean host lists lead to. *)
Inductive reachable : World → Prop :=
| reachable_initial : reachable initial
| reachable_run env w call :
    reachable w → clean_call call → reachable (run env w call).1.

(** The worlds that any calls lead to. *)
Inductive reachable_any : World → Prop :=
| reachable_any_initial : reachable_any initial
| reachable_any_run env w call :
    reachable_any w → reachable_any (run env w call).1.


(** An environment in which every listener opens. *)
Definition quiet (admin : string) : Env :=
  {| httpsRedirect := false;
     adminListenAddr := admin;
     listen := λ _ _, None;
     range_order := λ l, l |}.

(** A service configuration with a name, an address and nothing else set. *)
Definition plain (name addr : string) : ServiceConfig.t :=
  ServiceConfig.mk name addr "" "" 0 0 0 0 0 0 false None None None false.

(** ** Sample values *)

(** A service as [NewService] builds it from a name and an address, with the
    redirect to https turned on. *)
Definition redirecting : Service.t :=
  Service.mk "web" ":80" true None [] "RR" 5000 2 2 2000000000 2000000000 0
             0 0 0 0 0 "tcp" false by_roundRobin O 0 true None.

(** A service on udp as [NewService] and [start] leave it. *)
Definition forwarding : Service.t :=
  Service.mk "dns" ":53" false None [] "RR" 5000 2 2 2000000000 2000000000 0
             0 0 0 0 0 "udp" false by_roundRobin O 0 true None.

(** The configuration of a backend with the given name, address, network
    and weight. *)
Definition backend_cfg (name addr network : string) (weight : Z) : BackendConfig.t :=
  BackendConfig.mk name addr network "" weight.

(** A service configuration with virtual hosts, backends and the
    maintenance flag. *)
Definition hosted (name addr : string) (hosts : option StrSlice.t)
    (backends : option (list BackendConfig.t)) (maintenance : bool) : ServiceConfig.t :=
  ServiceConfig.mk name addr "" "" 0 0 0 0 0 0 false hosts None backends maintenance.

Definition is_Reused (a : UDPAction) : bool :=
  match a with Reused _ => true | _ => false end.

Definition is_Dialed (a : UDPAction) : bool :=
  match a with Dialed _ _ => true | _ => false end.

(** The names at the head of [n] successive results of [s.next()]. *)
Fixpoint heads (n : nat) (s : Service.t) : list (option string) :=
  match n with
  | O => []
  | S n =>
      let '(s, backends) := Service_next s in
      (Backend.Name <$> head backends) :: heads n s
  end.

(** Three backends with the weights 1, 2 and 3. *)
Definition weighted : ServiceConfig.t :=
  hosted "web" ":80" None
         (Some [backend_cfg "b0" "10.0.0.1:80" "" 1;
                backend_cfg "b1" "10.0.0.2:80" "" 2;
                backend_cfg "b2" "10.0.0.3:80" "" 3]) false.

(** The service that [NewService] builds from [weighted]. *)
Definition weighted_service : Service.t := Eval vm_compute in
  default redirecting (NewService weighted).

(** A duration that is a whole number of milliseconds: it survives the way
    through [Config()] and back. *)
Definition whole_ms (d : Z) : Prop := ms_to_Duration (Duration_to_ms d) = d.

(** Two states of a service with the same listening address and the same
    client timeout. *)
Definition same_listener (s s' : Service.t) : Prop :=
  Service.Addr s' = Service.Addr s ∧ Service.ClientTimeout s' = Service.ClientTimeout s.

(** The test of [Service.UpdateConfig] on the merged configuration. *)
Definition needs_new_service (s : Service.t) (merged : ServiceConfig.t) : Prop :=
  Service.ClientTimeout s ≠ ms_to_Duration (ServiceConfig.ClientTimeout merged) ∨
  (Service.Addr s ≠ "" ∧ ServiceConfig.Addr merged ≠ Service.Addr s).

(** ** The invariant of the registry *)

(** The host names a service lists. *)
Definition hosts_of (m : arrays) (s : Service.t) : list string :=
  elems m (Service.VirtualHosts s).

Definition unblank (l : list string) : Prop := ∀ h, h ∈ l → blank h = false.

(** A slice that no service of the registry points into, with clean
    elements: the [VirtualHosts] of a configuration that has just been
    decoded. *)
Definition fresh (w : World) (sl : option StrSlice.t) : Prop :=
  match sl with
  | None => True
  | Some r =>
      (StrSlice.arr r < length (heap w))%nat ∧
      (∀ k s r', svcs w !! k = Some s → Service.VirtualHosts s = Some r' →
                 StrSlice.arr r' ≠ StrSlice.arr r) ∧
      NoDup (elems (heap w) sl) ∧ unblank (elems (heap w) sl)
  end.

(** Two slices on different arrays. *)
Definition apart (a b : option StrSlice.t) : Prop :=
  ∀ r r', a = Some r → b = Some r' → StrSlice.arr r ≠ StrSlice.arr r'.

(** What holds of the registry as long as the host lists it is given are
    clean: services are registered under their names, each owns the array of
    its [VirtualHosts], whose elements are clean, and the table of virtual
    hosts mirrors the host lists of the services. *)
Record Inv (w : World) : Prop := {
  inv_name : ∀ k s, svcs w !! k = Some s → Service.Name s = k;
  inv_bound : ∀ k s r,
    svcs w !! k = Some s → Service.VirtualHosts s = Some r →
    (StrSlice.arr r < length (heap w))%nat;
  inv_own : ∀ k k' s s' r r',
    svcs w !! k = Some s → svcs w !! k' = Some s' →
    Service.VirtualHosts s = Some r → Service.VirtualHosts s' = Some r' →
    StrSlice.arr r = StrSlice.arr r' → k = k';
  inv_clean : ∀ k s,
    svcs w !! k = Some s → NoDup (hosts_of (heap w) s) ∧ unblank (hosts_of (heap w) s);
  inv_members : ∀ h v n,
    vhosts w !! h = Some v →
    (n ∈ VirtualHost.services v ↔
     ∃ s, svcs w !! n = Some s ∧ h ∈ hosts_of (heap w) s);
  inv_nodup : ∀ h v, vhosts w !! h = Some v → NoDup (VirtualHost.services v);
  inv_nonempty : ∀ h v, vhosts w !! h = Some v → VirtualHost.services v ≠ [];
  inv_listed : ∀ k s h,
    svcs w !! k = Some s → h ∈ hosts_of (heap w) s → is_Some (vhosts w !! h)
}.

(** Two states of a service with the same name and the same slice of
    virtual hosts. *)
Definition same_hosts (s s' : Service.t) : Prop :=
  Service.Name s' = Service.Name s ∧
  Service.VirtualHosts s' = Service.VirtualHosts s.

(** ** Notions used in the proof of the invariant *)

(** What the first loop of [updateVHosts] leaves of an entry. *)
Definition detached (svc : string) (v : VirtualHost.t) : option VirtualHost.t :=
  let v := VirtualHost_Remove v svc in
  if decide (VirtualHost_Len v = O) then None else Some v.

(** [s'] in the arrays [m'] lists what [s] lists in [m]. *)
Definition keeps (m m' : arrays) (s s' : Service.t) : Prop :=
  same_hosts s s' ∧ hosts_of m' s' ≡ₚ hosts_of m s.

(** No service points into the array of [sl] through another header. *)
Definition exclusive (w : World) (sl : option StrSlice.t) : Prop :=
  ∀ k s r r', svcs w !! k = Some s → Service.VirtualHosts s = Some r' → sl = Some r →
              StrSlice.arr r' = StrSlice.arr r → r' = r.

(** The table [vh'] is the table of [w] in which the service [k] answers for
    the names of [new] and for no other. *)
Record rehosted (w : World) (k : string) (new : list string)
    (vh' : gmap string VirtualHost.t) : Prop := {
  rehosted_nodup : ∀ h v', vh' !! h = Some v' → NoDup (VirtualHost.services v');
  rehosted_nonempty : ∀ h v', vh' !! h = Some v' → VirtualHost.services v' ≠ [];
  rehosted_members : ∀ h v' n,
    vh' !! h = Some v' →
    (n ∈ VirtualHost.services v' ↔
     (n = k ∧ h ∈ new) ∨
     (n ≠ k ∧ ∃ v, vhosts w !! h = Some v ∧ n ∈ VirtualHost.services v));
  rehosted_new : ∀ h, h ∈ new → is_Some (vh' !! h);
  rehosted_old : ∀ h v n,
    vhosts w !! h = Some v → n ∈ VirtualHost.services v → n ≠ k → is_Some (vh' !! h)
}.

(** The service [k], registered or not, answers for the names of [old] in
    the table of [w]. *)
Definition answers (w : World) (k : string) (old : list string) : Prop :=
  ∀ h, h ∈ old ↔ ∃ v, vhosts w !! h = Some v ∧ k ∈ VirtualHost.services v.

(** The table after the two loops of [updateVHosts], entry by entry. *)
Definition moved (k : string) (old new : list string) (vh : gmap string VirtualHost.t)
    (h : string) : option VirtualHost.t :=
  if decide (h ∈ new ∧ h ∉ old)
  then Some (VirtualHost_Add (default (VirtualHost.mk h [] O) (vh !! h)) k)
  else if decide (h ∈ old ∧ h ∉ new) then vh !! h ≫= detached k
  else vh !! h.

(** The array [a] is the one of the slice [sl]. *)
Definition array_in (sl : option StrSlice.t) (a : nat) : Prop :=
  ∃ r, sl = Some r ∧ StrSlice.arr r = a.

(** The array [a] is the one of the [VirtualHosts] of a service of [w]. *)
Definition owned (w : World) (a : nat) : Prop :=
  ∃ k s r, svcs w !! k = Some s ∧ Service.VirtualHosts s = Some r ∧ StrSlice.arr r = a.

(** From [w] to [w'] the arrays keep their number, only the arrays owned in
    [w] and the array of [sl] are written, and the services own no other
    array than these. *)
Definition frame (w w' : World) (sl : option StrSlice.t) : Prop :=
  length (heap w') = length (heap w) ∧
  (∀ a, ¬ array_in sl a → ¬ owned w a → heap w' !! a = heap w !! a) ∧
  (∀ a, owned w' a → array_in sl a ∨ owned w a).

(** Slices on pairwise different arrays. *)
Fixpoint all_apart (l : list ServiceConfig.t) : Prop :=
  match l with
  | [] => True
  | c :: l =>
      Forall (λ c', apart (ServiceConfig.VirtualHosts c) (ServiceConfig.VirtualHosts c')) l ∧
      all_apart l
  end.

(** ** Notions used in the further properties *)

(** The names that [filterEmpty] keeps. *)
Definition named (l : list string) : list string := filter (λ h, blank h = false) l.

(** A slice header within its array. *)
Definition in_array (m : arrays) (sl : option StrSlice.t) : Prop :=
  ∀ r, sl = Some r → (StrSlice.len r ≤ length (array_of m (StrSlice.arr r)))%nat.

(** [s.get(name)]: the first backend called [name], or nil. *)
Definition Service_get (s : Service.t) (name : string) : option Backend.t :=
  backend_index name (Service.Backends s) ≫= λ i, Service.Backends s !! i.

(** The names of the backends of a service, in order. *)
Definition backend_names (s : Service.t) : list string :=
  Backend.Name <$> Service.Backends s.

(** The backend as [add] installs it: Up, with the timeouts and the check
    interval of the service. *)
Definition adopted (s : Service.t) (b : Backend.t) : Backend.t :=
  Backend.mk (Backend.Name b) (Backend.Addr b) (Backend.Network b) (Backend.CheckAddr b)
             (Backend.Weight b) (Backend.Active b) true (Service.ServerTimeout s)
             (Service.DialTimeout s) (ms_to_Duration (Service.CheckInterval s)).

(** The service at position [(last + j) mod len] of [v] has no backend up. *)
Definition down_at (deref : string → option Service.t) (v : VirtualHost.t) (j : nat) : Prop :=
  ∀ name s,
    VirtualHost.services v
      !! ((VirtualHost.last v + j) mod length (VirtualHost.services v))%nat = Some name →
    deref name = Some s → Service_Available s ≤ 0.

(** An address as the [net] package holds it: four or sixteen bytes. *)
Definition octets (ip : list Z) : Prop := Forall (λ b, 0 ≤ b < 256) ip.

(** The fields of a service that no update writes: the name, the network,
    the state of the listener, the traffic counters and the position of the
    round robin. *)
Definition kept (s s' : Service.t) : Prop :=
  Service.Name s' = Service.Name s ∧
  Service.Network s' = Service.Network s ∧
  Service.listening s' = Service.listening s ∧
  Service.Sent s' = Service.Sent s ∧
  Service.Rcvd s' = Service.Rcvd s ∧
  Service.Errors s' = Service.Errors s ∧
  Service.HTTPConns s' = Service.HTTPConns s ∧
  Service.HTTPActive s' = Service.HTTPActive s ∧
  Service.lastBackend s' = Service.lastBackend s ∧
  Service.lastCount s' = Service.lastCount s.

(** The name stays, the names of the backends stay distinct, and the method
    in [next] stays the one that [Balance] names. *)
Definition steady (s s' : Service.t) : Prop :=
  Service.Name s' = Service.Name s ∧
  (NoDup (backend_names s) → NoDup (backend_names s')) ∧
  (Service.next s = balancer_of (Service.Balance s) →
   Service.next s' = balancer_of (Service.Balance s')).

(** The entries of a table of virtual hosts are under their names, list no
    service twice, and list services that [ok] holds of. *)
Definition vhosts_ok (ok : string → Prop) (vh : gmap string VirtualHost.t) : Prop :=
  ∀ h v, vh !! h = Some v →
    VirtualHost.Name v = h ∧ NoDup (VirtualHost.services v) ∧
    ∀ n, n ∈ VirtualHost.services v → ok n.

(** What holds of the registry after any calls. *)
Record well_formed (w : World) : Prop := {
  wf_name : ∀ k s, svcs w !! k = Some s → Service.Name s = k;
  wf_backends : ∀ k s, svcs w !! k = Some s → NoDup (backend_names s);
  wf_balance : ∀ k s,
    svcs w !! k = Some s → Service.next s = balancer_of (Service.Balance s);
  wf_vhosts : vhosts_ok (λ n, is_Some (svcs w !! n)) (vhosts w)
}.

(** Every service registered in [w] is registered in [w']. *)
Definition grows (w w' : World) : Prop :=
  ∀ k, is_Some (svcs w !! k) → is_Some (svcs w' !! k).


(** What holds in the second loop of [UpdateService] once the backends
    [seen] of the new configuration are done: [B0] are the backends of the
    service before the call. *)
Record updating (B0 : list Backend.t) (seen : list BackendConfig.t)
    (s : Service.t) (cur : list BackendConfig.t) : Prop := {
  updating_nodup : NoDup (backend_names s);
  updating_cur : ∀ c, c ∈ cur ↔
    c ∈ Backend.Config <$> B0 ∧ BackendConfig.Name c ∉ BackendConfig.Name <$> seen;
  updating_names : ∀ n, n ∈ backend_names s ↔
    n ∈ Backend.Name <$> B0 ∨ n ∈ BackendConfig.Name <$> seen;
  updating_rest : ∀ b', b' ∈ B0 → Backend.Name b' ∉ BackendConfig.Name <$> seen →
    b' ∈ Service.Backends s;
  updating_kept : ∀ b' b, b' ∈ B0 → b ∈ seen →
    BackendConfig.Name b = Backend.Name b' →
    BackendConfig_Equal (Backend.Config b') b = true → b' ∈ Service.Backends s
}.

(** A network name too short for the slice expression [[:3]]. *)
Definition short (network : string) : Prop := (String.length network < 3)%nat.



(** ** Proof tools *)

Ltac merge_field :=
  unfold ServiceConfig.Merge; simpl; intros; case_decide; congruence.

Arguments ServiceConfig.Equal : simpl never.
Arguments filterEmpty : simpl never.
Arguments updateVHosts : simpl never.
Arguments sort_Strings : simpl never.
Arguments Service_remove : simpl never.
Arguments Service_add : simpl never.
Arguments Service_config : simpl never.
Arguments ServiceConfig.Merge : simpl never.

(** * Properties *)

(** ** ServiceConfig.Merge *)

(** C3, as stated, fails: a configuration whose [HTTPSRedirect] and
    [MaintenanceMode] are false, merged onto one where both are true, turns
    both flags off. *)
Lemma Merge_clears_flags :
  let s := ServiceConfig.mk "web" ":80" "" "" 0 0 0 0 0 0 true None None None true in
  let c := plain "web" "" in
  ServiceConfig.HTTPSRedirect c = false ∧
  ServiceConfig.MaintenanceMode c = false ∧
  ServiceConfig.HTTPSRedirect s = true ∧
  ServiceConfig.MaintenanceMode s = true ∧
  ServiceConfig.HTTPSRedirect (ServiceConfig.Merge s c) = false ∧
  ServiceConfig.MaintenanceMode (ServiceConfig.Merge s c) = false.
Proof. by repeat split. Qed.

(** C3, amended: in [s.Merge(cfg)] each of [Addr], [Network], [Balance],
    [CheckInterval], [Fall], [Rise], [ClientTimeout], [ServerTimeout],
    [DialTimeout], [VirtualHosts], [ErrorPages] and [Backends] keeps the value
    of [s] when [cfg] leaves it unset and takes the value of [cfg] when [cfg]
    sets it; [HTTPSRedirect] and [MaintenanceMode] are always those of
    [cfg]. *)
Theorem Merge_fields (s c : ServiceConfig.t) :
  let n := ServiceConfig.Merge s c in
  (ServiceConfig.Addr c = "" → ServiceConfig.Addr n = ServiceConfig.Addr s) ∧
  (ServiceConfig.Addr c ≠ "" → ServiceConfig.Addr n = ServiceConfig.Addr c) ∧
  (ServiceConfig.Network c = "" → ServiceConfig.Network n = ServiceConfig.Network s) ∧
  (ServiceConfig.Network c ≠ "" → ServiceConfig.Network n = ServiceConfig.Network c) ∧
  (ServiceConfig.Balance c = "" → ServiceConfig.Balance n = ServiceConfig.Balance s) ∧
  (ServiceConfig.Balance c ≠ "" → ServiceConfig.Balance n = ServiceConfig.Balance c) ∧
  (ServiceConfig.CheckInterval c = 0 →
   ServiceConfig.CheckInterval n = ServiceConfig.CheckInterval s) ∧
  (ServiceConfig.CheckInterval c ≠ 0 →
   ServiceConfig.CheckInterval n = ServiceConfig.CheckInterval c) ∧
  (ServiceConfig.Fall c = 0 → ServiceConfig.Fall n = ServiceConfig.Fall s) ∧
  (ServiceConfig.Fall c ≠ 0 → ServiceConfig.Fall n = ServiceConfig.Fall c) ∧
  (ServiceConfig.Rise c = 0 → ServiceConfig.Rise n = ServiceConfig.Rise s) ∧
  (ServiceConfig.Rise c ≠ 0 → ServiceConfig.Rise n = ServiceConfig.Rise c) ∧
  (ServiceConfig.ClientTimeout c = 0 →
   ServiceConfig.ClientTimeout n = ServiceConfig.ClientTimeout s) ∧
  (ServiceConfig.ClientTimeout c ≠ 0 →
   ServiceConfig.ClientTimeout n = ServiceConfig.ClientTimeout c) ∧
  (ServiceConfig.ServerTimeout c = 0 →
   ServiceConfig.ServerTimeout n = ServiceConfig.ServerTimeout s) ∧
  (ServiceConfig.ServerTimeout c ≠ 0 →
   ServiceConfig.ServerTimeout n = ServiceConfig.ServerTimeout c) ∧
  (ServiceConfig.DialTimeout c = 0 →
   ServiceConfig.DialTimeout n = ServiceConfig.DialTimeout s) ∧
  (ServiceConfig.DialTimeout c ≠ 0 →
   ServiceConfig.DialTimeout n = ServiceConfig.DialTimeout c) ∧
  (ServiceConfig.VirtualHosts c = None →
   ServiceConfig.VirtualHosts n = ServiceConfig.VirtualHosts s) ∧
  (ServiceConfig.VirtualHosts c ≠ None →
   ServiceConfig.VirtualHosts n = ServiceConfig.VirtualHosts c) ∧
  (ServiceConfig.ErrorPages c = None →
   ServiceConfig.ErrorPages n = ServiceConfig.ErrorPages s) ∧
  (ServiceConfig.ErrorPages c ≠ None →
   ServiceConfig.ErrorPages n = ServiceConfig.ErrorPages c) ∧
  (ServiceConfig.Backends c = None →
   ServiceConfig.Backends n = ServiceConfig.Backends s) ∧
  (ServiceConfig.Backends c ≠ None →
   ServiceConfig.Backends n = ServiceConfig.Backends c) ∧
  ServiceConfig.HTTPSRedirect n = ServiceConfig.HTTPSRedirect c ∧
  ServiceConfig.MaintenanceMode n = ServiceConfig.MaintenanceMode c.
Proof.
  intros n; subst n.
  repeat lazymatch goal with |- _ ∧ _ => split end;
    first [ reflexivity | merge_field ].
Qed.

(** An update that sets the server timeout only: the address of the live
    configuration stays and the new timeout is taken. *)
Lemma Merge_fields_witness :
  let s := ServiceConfig.mk "web" ":80" "tcp" "RR" 5000 2 2 2000 2000 0 true None None None true in
  let c := ServiceConfig.mk "web" "" "" "" 0 0 0 0 1234 0 false None None None false in
  ServiceConfig.Addr (ServiceConfig.Merge s c) = ":80" ∧
  ServiceConfig.ServerTimeout (ServiceConfig.Merge s c) = 1234.
Proof.
  intros s c.
  pose proof (Merge_fields s c) as H; cbv zeta in H.
  destruct H as (Ha & _ & _ & _ & _ & _ & _ & _ & _ & _ & _ & _ & _ & _ & _ & Hs & _).
  split; [apply Ha; reflexivity | apply Hs; discriminate].
Defined.

(** ** ServiceConfig.Equal *)


Lemma settings_eq (s other : ServiceConfig.t) :
  ServiceConfig.SetDefaults (ServiceConfig.settings s)
  = ServiceConfig.SetDefaults (ServiceConfig.settings other) ↔
  ServiceConfig.Name s = ServiceConfig.Name other ∧
  ServiceConfig.Addr s = ServiceConfig.Addr other ∧
  ServiceConfig.Network (ServiceConfig.SetDefaults s)
  = ServiceConfig.Network (ServiceConfig.SetDefaults other) ∧
  ServiceConfig.Balance (ServiceConfig.SetDefaults s)
  = ServiceConfig.Balance (ServiceConfig.SetDefaults other) ∧
  ServiceConfig.CheckInterval (ServiceConfig.SetDefaults s)
  = ServiceConfig.CheckInterval (ServiceConfig.SetDefaults other) ∧
  ServiceConfig.Fall (ServiceConfig.SetDefaults s)
  = ServiceConfig.Fall (ServiceConfig.SetDefaults other) ∧
  ServiceConfig.Rise (ServiceConfig.SetDefaults s)
  = ServiceConfig.Rise (ServiceConfig.SetDefaults other) ∧
  ServiceConfig.ClientTimeout (ServiceConfig.SetDefaults s)
  = ServiceConfig.ClientTimeout (ServiceConfig.SetDefaults other) ∧
  ServiceConfig.ServerTimeout (ServiceConfig.SetDefaults s)
  = ServiceConfig.ServerTimeout (ServiceConfig.SetDefaults other) ∧
  ServiceConfig.DialTimeout s = ServiceConfig.DialTimeout other ∧
  ServiceConfig.HTTPSRedirect s = ServiceConfig.HTTPSRedirect other ∧
  ServiceConfig.MaintenanceMode s = ServiceConfig.MaintenanceMode other.
Proof.
  unfold ServiceConfig.SetDefaults, ServiceConfig.settings; simpl. split.
  - intros H; injection H; intros; repeat split; assumption.
  - intros (? & ? & ? & ? & ? & ? & ? & ? & ? & ? & ? & ?). congruence.
Qed.



(** ** Service.ServeHTTP *)

(** C1, at the requests where the code departs from it: on a service with
    [HTTPSRedirect], every request that arrived over TLS is answered with the
    301 redirect to [https://<host><request-uri>], whatever its headers. *)
Theorem ServeHTTP_redirects_TLS (errPage : option ErrorPage) (s : Service.t) (r : Request.t) :
  Service.HTTPSRedirect s = true →
  Request.TLS r ≠ None →
  (Service_ServeHTTP errPage s r).2
  = Redirect ("https://" +:+ Request.Host r +:+ Request.RequestURI r) 301.
Proof.
  intros Hs Htls. unfold Service_ServeHTTP. simpl. rewrite Hs.
  by rewrite (bool_decide_eq_true_2 _ Htls).
Qed.

(** A TLS request that also carries [X-Forwarded-Proto: https]. *)
Lemma ServeHTTP_redirects_TLS_witness :
  let r := Request.mk (Some tls_connection) {[ "X-Forwarded-Proto" := ["https"] ]}
                      "example.com" "/login" in
  (Service_ServeHTTP None redirecting r).2 = Redirect "https://example.com/login" 301.
Proof.
  intros r. apply (ServeHTTP_redirects_TLS None redirecting r); [reflexivity | discriminate].
Defined.

(** The requests without TLS are treated as C1 says: redirected exactly
    when they do not carry [X-Forwarded-Proto: https]. *)
Lemma ServeHTTP_plain_request (errPage : option ErrorPage) (s : Service.t) (r : Request.t) :
  Service.HTTPSRedirect s = true →
  Request.TLS r = None →
  (∃ loc, (Service_ServeHTTP errPage s r).2 = Redirect loc 301) ↔
  Header_Get (Request.Header r) "X-Forwarded-Proto" ≠ "https".
Proof.
  intros Hs Htls. unfold Service_ServeHTTP. simpl. rewrite Hs, Htls. simpl.
  destruct (decide (Header_Get (Request.Header r) "X-Forwarded-Proto" = "https")) as [E|E].
  - rewrite E. simpl. split; [|done]. intros [loc H].
    destruct (Service.MaintenanceMode s); [done|].
    by destruct (Service_NextAddrs _).
  - rewrite (bool_decide_eq_true_2 _ E). simpl. split; [done|]. eauto.
Qed.

(** ** Service.runUDP *)

Lemma runUDP_turn_never_reuses (s : Service.t) (d : Datagram) :
  Forall (λ a, is_Reused a = false) (runUDP_turn s d).1.2.
Proof.
  unfold runUDP_turn.
  repeat (case_bool_decide || case_decide || case_match); simpl;
    repeat constructor; simplify_map_eq.
Qed.

Lemma runUDP_never_reuses (s : Service.t) (ds : list Datagram) :
  Forall (λ a, is_Reused a = false) (runUDP s ds).1.2.
Proof.
  revert s. induction ds as [|d ds IH]; intros s; simpl; [constructor|].
  pose proof (runUDP_turn_never_reuses s d) as Hd.
  destruct (runUDP_turn s d) as [[s1 acts] []]; simpl in *; try done.
  specialize (IH s1). destruct (runUDP s1 ds) as [[s2 acts'] flow]; simpl in *.
  by apply Forall_app.
Qed.

(** C2, where the code departs from it: the table is made anew for every
    datagram, so no turn of the loop ever finds the key and reuses a socket;
    two datagrams from the client 10.0.0.7:4000 dial two upstream sockets. *)
Theorem runUDP_dials_for_every_datagram :
  (∀ s ds, Forall (λ a, is_Reused a = false) (runUDP s ds).1.2) ∧
  let client := UDPAddr.mk [10; 0; 0; 7] 4000 in
  let upstream := UDPAddr.mk [10; 0; 0; 1] 53 in
  let first := Build_Datagram 4 client None (Some upstream) (Some 1%nat) (Some 4) in
  let second := Build_Datagram 4 client None (Some upstream) (Some 2%nat) (Some 4) in
  newConnTrackKey (from first) = newConnTrackKey (from second) ∧
  filter (λ a, is_Dialed a = true) (runUDP forwarding [first; second]).1.2
  = [Dialed upstream 1%nat; Dialed upstream 2%nat].
Proof. split; [apply runUDP_never_reuses | by vm_compute]. Qed.

(** ** Service.add *)

(** C6, where the code departs from it: [add] logs the mismatch and goes
    on.  A backend on udp, added through the registry to a service on tcp,
    is installed. *)
Theorem add_installs_mismatched_backend :
  let w := (AddService (quiet ":9000") initial (plain "web" ":80")).1 in
  let r := AddBackend w "web" (backend_cfg "dns" "10.0.0.2:53" "udp" 0) in
  r.2 = Done ∧
  Service.Network <$> svcs r.1 !! "web" = Some "tcp" ∧
  (λ s, Backend.Network <$> Service.Backends s) <$> svcs r.1 !! "web" = Some ["udp"].
Proof. by vm_compute. Qed.

(** ** ServiceRegistry.UpdateConfig *)

(** C7, where the code departs from it: the [continue] after the port
    conflict ends a turn of the loop over the ports, so the service goes on
    to [AddService].  With the admin listener on port 9000, a service on
    0.0.0.0:9000 is reported and added all the same. *)
Theorem UpdateConfig_adds_conflicting_service :
  let env := quiet "127.0.0.1:9000" in
  let c := Config.mk "" 0 0 0 0 0 0 false [plain "web" "0.0.0.0:9000"] in
  let r := UpdateConfig env initial c in
  r.2 = Returned_errors [ErrPortConflict "web" "9000"] ∧
  Service.Addr <$> svcs r.1 !! "web" = Some "0.0.0.0:9000".
Proof. by vm_compute. Qed.

(** The rest of C7 holds: the conflict is reported whatever else happens to
    the service. *)
Lemma port_conflicts_reported (env : Env) (svc : ServiceConfig.t) (errors : list error) :
  Exists (λ port, HasSuffix (ServiceConfig.Addr svc) port = true) (invalidPorts env) →
  ∃ port, ErrPortConflict (ServiceConfig.Name svc) port ∈ port_conflicts env svc errors.
Proof.
  unfold port_conflicts, invalidPorts. intros [H|H]%Exists_cons; [|by inversion H].
  simpl. rewrite H. eexists. apply elem_of_app. right. by left.
Qed.

(** ** VirtualHost.Service *)

(** C10, where the code departs from it.  Three services answer for one
    host; the third has served last when it is removed, which leaves [last]
    beyond the end of the list; the two that remain go into maintenance, and
    the next request for the host ends in an index out of range. *)
Theorem Service_index_out_of_range :
  let env := quiet ":9000" in
  let add (w : World) (name addr : string) :=
    (run env w (Call_AddService
       (hosted name addr None (Some [backend_cfg "b" "10.0.0.1:80" "" 0]) false,
        Some ["www.example.com"]))).1 in
  let w := add (add (add initial "s1" ":81") "s2" ":82") "s3" ":83" in
  let r1 := GetVHostService w "www.example.com" in
  let r2 := GetVHostService r1.1 "www.example.com" in
  let w := (run env r2.1 (Call_RemoveService "s3")).1 in
  let off (w : World) (name : string) :=
    (run env w (Call_UpdateService (hosted name "" None None true, None))).1 in
  let w := off (off w "s1") "s2" in
  r1.2 = Returned (Some "s2") ∧
  r2.2 = Returned (Some "s3") ∧
  (VirtualHost.services <$> vhosts w !! "www.example.com" = Some ["s1"; "s2"]) ∧
  (GetVHostService w "www.example.com").2 = IndexOutOfRange.
Proof. by vm_compute. Qed.

(** ** Service.next under round-robin *)

Lemma head_rotate {A} (l : list A) (i : nat) :
  (i < length l)%nat → head (rotate i l) = l !! i.
Proof.
  intros Hi. unfold rotate. rewrite Nat.mod_small by done.
  rewrite head_lookup, lookup_app_l by (rewrite length_drop; lia).
  rewrite lookup_drop. f_equal. lia.
Qed.

(** C5: round-robin over the Up backends [b0] (weight 1), [b1] (weight 2)
    and [b2] (weight 3) of a new service serves b0, b1, b1, b2, b2, b2 and
    then b0 again.  In general, with [b] the live backend at [lastBackend]:
    while [lastCount] is below the weight of [b] the head stays [b] and
    [lastCount] grows by one; otherwise [lastBackend] moves to the next index
    modulo the number of live backends, [lastCount] becomes 1 and the head is
    the backend at the new index. *)
Theorem roundRobin_weighted :
  heads 7 <$> NewService weighted
  = Some [Some "b0"; Some "b1"; Some "b1"; Some "b2"; Some "b2"; Some "b2"; Some "b0"] ∧
  ∀ s b,
    Service.next s = by_roundRobin →
    live s !! Service.lastBackend s = Some b →
    let r := Service_next s in
    (Service.lastCount s < Backend.Weight b →
     Service.lastBackend r.1 = Service.lastBackend s ∧
     Service.lastCount r.1 = Service.lastCount s + 1 ∧
     head r.2 = Some b) ∧
    (¬ Service.lastCount s < Backend.Weight b →
     Service.lastBackend r.1 = ((Service.lastBackend s + 1) mod length (live s))%nat ∧
     Service.lastCount r.1 = 1 ∧
     head r.2 = live s !! Service.lastBackend r.1).
Proof.
  split; [by vm_compute|].
  intros s b Hrr Hb r; subst r. unfold Service_next. rewrite Hrr.
  unfold roundRobin. rewrite Hb.
  pose proof (lookup_lt_Some _ _ _ Hb) as Hlt.
  destruct (live s) as [|b0 bs] eqn:Hlive; [done|]. rewrite <- Hlive in *.
  split; intros Hw.
  - rewrite (bool_decide_eq_true_2 _ Hw). simpl. repeat split.
    by rewrite head_rotate.
  - rewrite (bool_decide_eq_false_2 _ Hw). simpl. repeat split.
    rewrite head_rotate; [done|]. apply Nat.mod_upper_bound. lia.
Qed.

(** The first call on the new service takes the repeat branch. *)
Lemma roundRobin_weighted_witness :
  NewService weighted = Some weighted_service ∧
  Service.lastCount (Service_next weighted_service).1 = 1 ∧
  Backend.Name <$> head (Service_next weighted_service).2 = Some "b0".
Proof.
  split; [by vm_compute|].
  destruct (live weighted_service) as [|b bs] eqn:Hlive; [by vm_compute in Hlive|].
  destruct (proj2 roundRobin_weighted weighted_service b eq_refl) as [Hrep _].
  { by rewrite Hlive. }
  vm_compute in Hlive. injection Hlive as <- <-.
  destruct Hrep as (_ & Hcount & Hhead); [by vm_compute|].
  split; [exact Hcount | by rewrite Hhead].
Defined.

(** ** ServiceRegistry.UpdateService and the immutable fields *)

(** C4, as stated, fails: a service whose [Addr] is empty accepts an update
    that names an address.  The merged configuration has another [Addr] than
    the service, the call returns no error, and the service keeps its empty
    [Addr]. *)
Lemma UpdateService_accepts_Addr_on_empty :
  let env := quiet ":9000" in
  let w := (AddService env initial (plain "web" "")).1 in
  let c := plain "web" "127.0.0.1:8000" in
  let r := UpdateService env w c in
  (λ s, ServiceConfig.Addr (ServiceConfig.Merge (Service_config s) c)) <$> svcs w !! "web"
  = Some "127.0.0.1:8000" ∧
  Service.Addr <$> svcs w !! "web" = Some "" ∧
  r.2 = Done ∧
  Service.Addr <$> svcs r.1 !! "web" = Some "".
Proof. by vm_compute. Qed.

#[local] Instance same_listener_refl : Reflexive same_listener.
Proof. by intros s. Qed.

#[local] Instance same_listener_trans : Transitive same_listener.
Proof. intros s1 s2 s3 [? ?] [? ?]. split; congruence. Qed.

Lemma Service_add_listener (s s' : Service.t) (b : Backend.t) :
  Service_add s b = Some s' → same_listener s s'.
Proof.
  unfold Service_add. destruct (network_mismatch s _); [|done].
  destruct (backend_index _ _); intros [= <-]; done.
Qed.

Lemma Service_remove_listener (s : Service.t) (name : string) :
  same_listener s (Service_remove s name).1.
Proof. unfold Service_remove. by destruct (backend_index _ _). Qed.

Lemma update_backend_listener (st : Service.t * list BackendConfig.t * bool)
    (b : BackendConfig.t) :
  same_listener st.1.1 (update_backend st b).1.1.
Proof.
  destruct st as [[s cur] p]. unfold update_backend. simpl.
  destruct p; [done|].
  assert (Hrep : ∀ rest,
    same_listener s
      (let '(service, _) := Service_remove s (BackendConfig.Name b) in
       match Service_add service (NewBackend b) with
       | Some service => (service, rest, false)
       | None => (service, cur, true)
       end).1.1).
  { intros rest. pose proof (Service_remove_listener s (BackendConfig.Name b)) as Hr.
    destruct (Service_remove s _) as [s1 ok]. simpl in Hr.
    destruct (Service_add s1 _) as [s2|] eqn:Ha; simpl; [|done].
    etrans; [done|]. by eapply Service_add_listener. }
  destruct (list_find _ cur) as [[i c]|]; [|apply Hrep].
  destruct (BackendConfig_Equal c b); [done|apply Hrep].
Qed.

Lemma foldl_update_backend_listener (l : list BackendConfig.t)
    (st : Service.t * list BackendConfig.t * bool) :
  same_listener st.1.1 (foldl update_backend st l).1.1.
Proof.
  revert st. induction l as [|b l IH]; intros st; simpl; [done|].
  etrans; [apply update_backend_listener | apply IH].
Qed.

Lemma foldl_remove_listener (names : list string) (s : Service.t) :
  same_listener s (foldl (λ s name, (Service_remove s name).1) s names).
Proof.
  revert s. induction names as [|n names IH]; intros s; simpl; [done|].
  etrans; [apply Service_remove_listener | apply IH].
Qed.

Lemma Service_UpdateConfig_spec (s : Service.t) (c : ServiceConfig.t) :
  let r := Service_UpdateConfig s c in
  (needs_new_service s c ∧ r = (s, Some ErrInvalidServiceUpdate)) ∨
  (¬ needs_new_service s c ∧ r.2 = None ∧ same_listener s r.1 ∧
   Service.Name r.1 = Service.Name s ∧
   Service.VirtualHosts r.1 = Service.VirtualHosts s).
Proof.
  unfold Service_UpdateConfig, needs_new_service, same_listener.
  destruct (decide (Service.ClientTimeout s
                    ≠ ms_to_Duration (ServiceConfig.ClientTimeout c))) as [Ht|Ht].
  { left. by split; [left|]. }
  destruct (decide (Service.Addr s ≠ "" ∧ Service.Addr s ≠ ServiceConfig.Addr c))
    as [[Ha Hb]|Ha].
  { left. split; [|done]. right. split; [done|congruence]. }
  right. simpl. repeat split.
  intros [?|[? ?]]; [done|]. apply Ha. split; congruence.
Qed.

(** Whatever [updateVHosts] does, the entry of [key] keeps its listener. *)
Lemma updateVHosts_listener (w : World) (s0 service : Service.t)
    (hosts : option StrSlice.t) (key : string) :
  same_listener s0 service →
  (∃ s1, svcs w !! key = Some s1 ∧ same_listener s0 s1) →
  ∃ s2, svcs (updateVHosts w service hosts).1 !! key = Some s2 ∧ same_listener s0 s2.
Proof.
  intros Hs [s1 [Hk H1]]. unfold updateVHosts.
  destruct (diff_hosts _ _) as [remove add].
  destruct (foldl _ _ remove) as [vh []]; simpl; [eauto|].
  destruct (decide (Service.Name service = key)) as [<-|Hne].
  - rewrite lookup_insert_eq. eauto.
  - rewrite lookup_insert_ne by done. eauto.
Qed.

Lemma ms_round_trip (d m : Z) :
  whole_ms d → in_int64 (m * Millisecond) →
  (d ≠ ms_to_Duration m ↔ m ≠ Duration_to_ms d).
Proof.
  unfold whole_ms, in_int64, ms_to_Duration, Duration_to_ms, wrap64, Millisecond.
  intros Hd Hm.
  assert (Hw : (m * 1000000 + 2 ^ 63) mod 2 ^ 64 - 2 ^ 63 = m * 1000000).
  { rewrite Z.mod_small; lia. }
  rewrite Hw. split; intros H E; apply H.
  - rewrite <- E in Hd. rewrite Hw in Hd. done.
  - rewrite E. rewrite Z.quot_mul; lia.
Qed.

Lemma updateVHosts_no_error (w : World) (service : Service.t) (hosts : option StrSlice.t)
    (e : error) :
  (updateVHosts w service hosts).2 ≠ Failed e.
Proof.
  unfold updateVHosts. destruct (diff_hosts _ _) as [remove add].
  by destruct (foldl _ _ remove) as [vh []].
Qed.

Lemma UpdateService_cases (env : Env) (w : World) (c : ServiceConfig.t) (service : Service.t) :
  svcs w !! ServiceConfig.Name c = Some service →
  let merged := ServiceConfig.Merge (Service_config service) c in
  let r := UpdateService env w c in
  (needs_new_service service merged ∧ r = (w, Failed ErrInvalidServiceUpdate)) ∨
  (¬ needs_new_service service merged ∧ (∀ e, r.2 ≠ Failed e) ∧
   ∃ service', svcs r.1 !! ServiceConfig.Name c = Some service' ∧
               same_listener service service').
Proof.
  intros Hk merged r. subst r. unfold UpdateService. rewrite Hk.
  change (ServiceConfig.Name (ServiceConfig.Merge (Service_config service) c))
    with (ServiceConfig.Name c).
  fold merged. clearbody merged.
  destruct (Service_UpdateConfig_spec service merged)
    as [[Hn Hr]|(Hn & Hnone & Hsl & _)].
  { left. by rewrite Hr. }
  right. split; [done|].
  destruct (Service_UpdateConfig service merged) as [s1 [e|]]; [done|].
  cbn [fst snd] in Hsl |- *.
  pose proof (foldl_update_backend_listener
                (default [] (ServiceConfig.Backends merged))
                (s1, backend_map (default [] (ServiceConfig.Backends (Service_config service))),
                 false)) as Hb.
  destruct (foldl update_backend _ _) as [[s2 cur] p]. cbn [fst snd] in Hb |- *.
  assert (H2 : same_listener service s2) by (by etrans).
  destruct p; cbn [fst snd svcs].
  { split; [by intros e|]. rewrite lookup_insert_eq. eauto. }
  pose proof (foldl_remove_listener
                (range_order env (BackendConfig.Name <$> cur)) s2) as Hr.
  set (s3 := foldl _ s2 _) in *.
  assert (H3 : same_listener service s3) by (by etrans).
  destruct (ServiceConfig.Equal (heap w) (Service_config service) merged) as [same m].
  destruct same; cbn [fst snd svcs].
  { split; [by intros e|]. rewrite lookup_insert_eq. eauto. }
  destruct (filterEmpty m (ServiceConfig.VirtualHosts merged)) as [hosts m'].
  split; [intros e; apply updateVHosts_no_error|].
  apply updateVHosts_listener.
  - by destruct (decide (Service.errPagesCfg s3 ≠ ServiceConfig.ErrorPages merged)).
  - cbn [svcs]. rewrite lookup_insert_eq. eexists; split; [done|].
    by destruct (decide (Service.errPagesCfg s3 ≠ ServiceConfig.ErrorPages merged)).
Qed.

(** C4, amended: for a service registered under the name of the update,
    [UpdateService] returns [ErrInvalidServiceUpdate] exactly when the merged
    configuration has another [ClientTimeout], as a duration, than the
    service, or the [Addr] of the service is not empty and the merged [Addr]
    differs from it; the registry is then unchanged.  In every outcome the
    service keeps its [Addr] and its [ClientTimeout].  For a service whose
    [ClientTimeout] is a whole number of milliseconds and a merged
    [ClientTimeout] that fits a duration, the first condition says that the
    merged configuration changes [ClientTimeout]. *)
Theorem UpdateService_immutable_fields (env : Env) (w : World) (c : ServiceConfig.t)
    (service : Service.t) :
  svcs w !! ServiceConfig.Name c = Some service →
  let merged := ServiceConfig.Merge (Service_config service) c in
  let r := UpdateService env w c in
  (needs_new_service service merged ↔ r.2 = Failed ErrInvalidServiceUpdate) ∧
  (r.2 = Failed ErrInvalidServiceUpdate → r.1 = w) ∧
  (∃ service', svcs r.1 !! ServiceConfig.Name c = Some service' ∧
               Service.Addr service' = Service.Addr service ∧
               Service.ClientTimeout service' = Service.ClientTimeout service) ∧
  (whole_ms (Service.ClientTimeout service) →
   in_int64 (ServiceConfig.ClientTimeout merged * Millisecond) →
   (Service.ClientTimeout service ≠ ms_to_Duration (ServiceConfig.ClientTimeout merged) ↔
    ServiceConfig.ClientTimeout merged
    ≠ ServiceConfig.ClientTimeout (Service_config service))).
Proof.
  intros Hk merged r.
  destruct (UpdateService_cases env w c service Hk)
    as [[Hn Hr]|(Hn & Hr & s' & Hs' & Hl)]; fold merged r in Hn, Hr |- *.
  - rewrite Hr. simpl. repeat split; try done.
    + eauto.
    + by apply ms_round_trip.
    + by apply ms_round_trip.
  - fold r in Hs'. repeat split; try done.
    + intros E. by apply Hr in E.
    + intros E. by apply Hr in E.
    + exists s'. by destruct Hl.
    + by apply ms_round_trip.
    + by apply ms_round_trip.
Qed.

(** An update of the address of a service on :80 is rejected and the
    registry keeps the service as it was. *)
Lemma UpdateService_immutable_fields_witness :
  let env := quiet ":9000" in
  let w := (AddService env initial (plain "web" ":80")).1 in
  let r := UpdateService env w (plain "web" ":81") in
  r.2 = Failed ErrInvalidServiceUpdate ∧ r.1 = w.
Proof.
  intros env w r.
  destruct (svcs w !! "web") as [service|] eqn:Hk; [|by vm_compute in Hk].
  destruct (UpdateService_immutable_fields env w (plain "web" ":81") service Hk)
    as (Hrej & Hsame & _).
  assert (Hr : r.2 = Failed ErrInvalidServiceUpdate).
  { apply Hrej. right. vm_compute in Hk. injection Hk as <-. by vm_compute. }
  split; [exact Hr | exact (Hsame Hr)].
Defined.

(** * The table of virtual hosts *)

(** ** The arrays of strings *)

Lemma sort_strings_perm (l : list string) : sort_strings l ≡ₚ l.
Proof. apply merge_sort_Permutation. Qed.

Lemma sort_strings_sorted (l : list string) : StronglySorted String.le (sort_strings l).
Proof. apply (StronglySorted_merge_sort String.le). Qed.

Lemma sort_strings_length (l : list string) : length (sort_strings l) = length l.
Proof. by rewrite sort_strings_perm. Qed.

Lemma elems_app (m : arrays) (l : list string) (r : StrSlice.t) :
  (StrSlice.arr r < length m)%nat → elems (m ++ [l]) (Some r) = elems m (Some r).
Proof. intros H. unfold elems, array_of. by rewrite lookup_app_l. Qed.

Lemma elems_alloc (m : arrays) (l : list string) :
  elems (m ++ [l]) (Some (StrSlice.mk (length m) (length l))) = l.
Proof.
  unfold elems, array_of. simpl.
  rewrite lookup_app_r, Nat.sub_diag by done. simpl. by rewrite take_ge.
Qed.

Lemma elems_store_ne (m : arrays) (r r' : StrSlice.t) (l : list string) :
  StrSlice.arr r' ≠ StrSlice.arr r → elems (store m r l) (Some r') = elems m (Some r').
Proof.
  intros H. unfold elems, store, array_of. by rewrite list_lookup_insert_ne.
Qed.

Lemma length_store (m : arrays) (r : StrSlice.t) (l : list string) :
  length (store m r l) = length m.
Proof. unfold store. by rewrite length_insert. Qed.

Lemma elems_sort_eq (m : arrays) (r : StrSlice.t) :
  elems (sort_Strings m (Some r)) (Some r) = sort_strings (elems m (Some r)).
Proof.
  unfold sort_Strings, store, elems, array_of.
  destruct (m !! StrSlice.arr r) as [a|] eqn:Ha; simpl.
  - rewrite list_lookup_insert_eq by (by eapply lookup_lt_Some). simpl.
    destruct (decide (StrSlice.len r ≤ length a)%nat).
    + rewrite take_app_length'; [done|].
      rewrite sort_strings_length, length_take. lia.
    + rewrite drop_ge by lia. rewrite app_nil_r.
      rewrite take_ge; [done|]. rewrite sort_strings_length, length_take. lia.
  - rewrite list_insert_ge by (by apply lookup_ge_None).
    rewrite Ha. simpl. by rewrite take_nil.
Qed.

Lemma elems_sort_ne (m : arrays) (sl : option StrSlice.t) (r' : StrSlice.t) :
  (∀ r, sl = Some r → StrSlice.arr r' ≠ StrSlice.arr r) →
  elems (sort_Strings m sl) (Some r') = elems m (Some r').
Proof.
  intros H. destruct sl as [r|]; [|done]. apply elems_store_ne. by apply H.
Qed.

Lemma length_sort_Strings (m : arrays) (sl : option StrSlice.t) :
  length (sort_Strings m sl) = length m.
Proof. destruct sl; [apply length_store|done]. Qed.

(** On a list without a blank name the loop of [filterEmpty] changes
    nothing. *)
Lemma filterEmpty_loop_unblank (a : list string) :
  unblank a → filterEmpty_loop a = (a, O).
Proof.
  intros Hb. unfold filterEmpty_loop.
  assert (H : ∀ idx, (∀ i, i ∈ idx → (i < length a)%nat) →
                    foldl filterEmpty_step (a, O) idx = (a, O)).
  { induction idx as [|i idx IH]; intros His; [done|]. simpl.
    destruct (lookup_lt_is_Some_2 a i) as [x Hx]; [apply His; by left|].
    rewrite Hx. simpl. rewrite (Hb x) by (by eapply list_elem_of_lookup_2).
    apply IH. intros j Hj. apply His. by right. }
  apply H. intros i Hi%elem_of_seq. lia.
Qed.

Lemma filterEmpty_unblank (m : arrays) (sl : option StrSlice.t) :
  unblank (elems m sl) → filterEmpty m sl = (sl, m).
Proof.
  intros Hb. destruct sl as [r|]; [|done]. unfold filterEmpty.
  rewrite filterEmpty_loop_unblank by done. f_equal.
  - destruct r as [a n]. simpl. by rewrite Nat.sub_0_r.
  - unfold store, elems, array_of.
    destruct (m !! StrSlice.arr r) as [a|] eqn:Ha; simpl.
    + rewrite take_drop. by apply list_insert_id.
    + apply list_insert_ge. by apply lookup_ge_None.
Qed.

(** ** The order of strings *)

Lemma ltb_le (a b : string) : String.ltb a b = true → String.le a b.
Proof. unfold String.ltb, String.le, String.leb. by destruct (String.compare a b). Qed.

Lemma ltb_ne (a b : string) : String.ltb a b = true → a ≠ b.
Proof.
  unfold String.ltb. intros H ->. pose proof (String.compare_antisym b b) as Ha.
  destruct (String.compare b b); done.
Qed.

Lemma nltb_le (a b : string) : String.ltb a b = false → a ≠ b → String.le b a.
Proof.
  unfold String.ltb, String.le, String.leb. intros H Hne.
  rewrite String.compare_antisym.
  destruct (String.compare a b) eqn:E; try done.
Qed.

Lemma sorted_head_le (a : string) (l : list string) (x : string) :
  StronglySorted String.le (a :: l) → x ∈ l → String.le a x.
Proof.
  intros Hs Hx. apply StronglySorted_inv in Hs as [_ Hall].
  by eapply Forall_forall in Hall.
Qed.

Lemma below_head_not_in (a b : string) (l : list string) :
  StronglySorted String.le (b :: l) → String.le a b → a ≠ b → a ∉ b :: l.
Proof.
  intros Hs Hab Hne [->|Hin]%elem_of_cons; [done|].
  apply Hne. apply (anti_symm String.le); [done|]. by eapply sorted_head_le.
Qed.

(** ** The merge of [updateVHosts] *)

Lemma diff_hosts_nil_l (new : list string) : diff_hosts [] new = ([], new).
Proof. by destruct new. Qed.

Lemma diff_hosts_nil_r (old : list string) : diff_hosts old [] = (old, []).
Proof. by destruct old. Qed.

Lemma diff_hosts_cons (o : string) (old : list string) (n : string) (new : list string) :
  diff_hosts (o :: old) (n :: new)
  = if decide (o ≠ n) then
      if String.ltb o n
      then let '(remove, add) := diff_hosts old (n :: new) in (o :: remove, add)
      else let '(remove, add) := diff_hosts (o :: old) new in (remove, n :: add)
    else diff_hosts old new.
Proof. done. Qed.

Lemma filter_all {A} (P : A → Prop) `{!∀ x, Decision (P x)} (l : list A) :
  (∀ x, x ∈ l → P x) → filter P l = l.
Proof.
  induction l as [|x l IH]; intros Hall; [done|].
  rewrite filter_cons_True by (apply Hall; by left). f_equal. apply IH.
  intros y Hy. apply Hall. by right.
Qed.

Lemma filter_agree {A} (P Q : A → Prop) `{!∀ x, Decision (P x)} `{!∀ x, Decision (Q x)}
    (l : list A) :
  (∀ x, x ∈ l → (P x ↔ Q x)) → filter P l = filter Q l.
Proof.
  induction l as [|x l IH]; intros Hall; [done|].
  assert (Hx : P x ↔ Q x) by (apply Hall; by left).
  assert (Hl : filter P l = filter Q l) by (apply IH; intros y Hy; apply Hall; by right).
  destruct (decide (P x)).
  - rewrite !filter_cons_True by tauto. by f_equal.
  - rewrite !filter_cons_False by tauto. done.
Qed.

(** On two sorted lists without repetition the merge computes the two
    differences. *)
Lemma diff_hosts_spec (old new : list string) :
  StronglySorted String.le old → NoDup old →
  StronglySorted String.le new → NoDup new →
  diff_hosts old new = (filter (λ h, h ∉ new) old, filter (λ h, h ∉ old) new).
Proof.
  revert new. induction old as [|o old IHo]; intros new Hso Hdo Hsn Hdn.
  { rewrite diff_hosts_nil_l. f_equal. symmetry. apply filter_all.
    intros x _. apply not_elem_of_nil. }
  induction new as [|n new IHn].
  { rewrite diff_hosts_nil_r. f_equal. symmetry. apply filter_all.
    intros x _. apply not_elem_of_nil. }
  rewrite diff_hosts_cons.
  pose proof (StronglySorted_inv Hso) as [Hso' _].
  pose proof (StronglySorted_inv Hsn) as [Hsn' _].
  pose proof (NoDup_cons_1_1 _ _ Hdo) as Ho. pose proof (NoDup_cons_1_2 _ _ Hdo) as Hdo'.
  pose proof (NoDup_cons_1_1 _ _ Hdn) as Hn. pose proof (NoDup_cons_1_2 _ _ Hdn) as Hdn'.
  destruct (decide (o ≠ n)) as [Hne|Heq].
  - destruct (String.ltb o n) eqn:Hlt.
    + rewrite (IHo (n :: new)) by done.
      assert (Hout : o ∉ n :: new).
      { apply below_head_not_in; [done| by apply ltb_le | done]. }
      rewrite (filter_cons_True _ o) by done. f_equal.
      apply filter_agree. intros x Hx. rewrite elem_of_cons.
      split; [intros H [->|?]; [done|tauto] | tauto].
    + rewrite IHn by done.
      assert (Hout : n ∉ o :: old).
      { apply below_head_not_in; [done| by apply nltb_le | done]. }
      rewrite (filter_cons_True _ n) by done. f_equal.
      apply filter_agree. intros x Hx. rewrite elem_of_cons.
      split; [intros H [->|?]; [done|tauto] | tauto].
  - apply dec_stable in Heq. subst n. rewrite IHo by done.
    rewrite (filter_cons_False _ o) by (intros H; apply H; by left).
    rewrite (filter_cons_False _ o) by (intros H; apply H; by left).
    f_equal; apply filter_agree; intros x Hx; rewrite elem_of_cons;
      (split; [intros H [->|?]; [done|tauto] | tauto]).
Qed.

(** ** Virtual hosts *)

Lemma elem_of_Add (v : VirtualHost.t) (svc n : string) :
  n ∈ VirtualHost.services (VirtualHost_Add v svc) ↔ n ∈ VirtualHost.services v ∨ n = svc.
Proof.
  unfold VirtualHost_Add. case_bool_decide; simpl.
  - split; [tauto|]. intros [?| ->]; done.
  - rewrite elem_of_app, list_elem_of_singleton. tauto.
Qed.

Lemma NoDup_Add (v : VirtualHost.t) (svc : string) :
  NoDup (VirtualHost.services v) → NoDup (VirtualHost.services (VirtualHost_Add v svc)).
Proof.
  intros H. unfold VirtualHost_Add. case_bool_decide; simpl; [done|].
  apply NoDup_app. split; [done|]. split; [|apply NoDup_singleton].
  intros x Hx ->%list_elem_of_singleton. done.
Qed.

Lemma Add_nonempty (v : VirtualHost.t) (svc : string) :
  VirtualHost.services (VirtualHost_Add v svc) ≠ [].
Proof.
  intros E. assert (H : svc ∈ VirtualHost.services (VirtualHost_Add v svc)).
  { apply elem_of_Add. by right. }
  rewrite E in H. by apply not_elem_of_nil in H.
Qed.

Lemma Add_Add (v : VirtualHost.t) (svc : string) :
  VirtualHost_Add (VirtualHost_Add v svc) svc = VirtualHost_Add v svc.
Proof.
  unfold VirtualHost_Add at 1. rewrite bool_decide_eq_true_2; [done|].
  apply elem_of_Add. by right.
Qed.

Lemma elem_of_remove_first (svc n : string) (l : list string) :
  NoDup l → n ∈ remove_first svc l ↔ n ∈ l ∧ n ≠ svc.
Proof.
  induction l as [|x l IH]; intros Hd; simpl.
  { split; [by intros ?%not_elem_of_nil | by intros [?%not_elem_of_nil _]]. }
  pose proof (NoDup_cons_1_1 _ _ Hd) as Hx. pose proof (NoDup_cons_1_2 _ _ Hd) as Hl.
  case_decide as E.
  - subst x. rewrite elem_of_cons. split.
    + intros Hn. split; [by right|]. by intros ->.
    + intros [[->|?] ?]; done.
  - rewrite !elem_of_cons, IH by done. split.
    + intros [->|[? ?]]; split; auto.
    + intros [[->|?] ?]; auto.
Qed.

Lemma NoDup_remove_first (svc : string) (l : list string) :
  NoDup l → NoDup (remove_first svc l).
Proof.
  induction l as [|x l IH]; intros Hd; simpl; [done|].
  pose proof (NoDup_cons_1_1 _ _ Hd) as Hx. pose proof (NoDup_cons_1_2 _ _ Hd) as Hl.
  case_decide; [done|]. apply NoDup_cons. split; [|by apply IH].
  rewrite elem_of_remove_first by done. tauto.
Qed.

(** ** The two loops over host names *)

Lemma foldl_attach_lookup (svc : string) (l : list string) (vh : gmap string VirtualHost.t)
    (h : string) :
  foldl (vhost_attach svc) vh l !! h
  = if decide (h ∈ l)
    then Some (VirtualHost_Add (default (VirtualHost.mk h [] O) (vh !! h)) svc)
    else vh !! h.
Proof.
  revert vh. induction l as [|a l IH]; intros vh; simpl.
  { first [done | case_decide as E; [by apply not_elem_of_nil in E|done]]. }
  rewrite IH. unfold vhost_attach.
  destruct (decide (h = a)) as [->|Hne].
  - rewrite lookup_insert_eq. simpl. rewrite Add_Add.
    rewrite (decide_True (P := a ∈ a :: l)) by (by left).
    by destruct (decide (a ∈ l)).
  - rewrite lookup_insert_ne by done.
    destruct (decide (h ∈ l)) as [Hl|Hl].
    + rewrite decide_True; [done|by right].
    + rewrite decide_False; [done|]. by intros [?|?]%elem_of_cons.
Qed.

Lemma foldl_detach_panicked (svc : string) (l : list string)
    (vh : gmap string VirtualHost.t) :
  foldl (vhost_detach svc) (vh, true) l = (vh, true).
Proof. induction l; simpl; done. Qed.

Lemma foldl_detach_lookup (svc : string) (l : list string) (vh : gmap string VirtualHost.t) :
  NoDup l → (∀ h, h ∈ l → is_Some (vh !! h)) →
  ∃ vh', foldl (vhost_detach svc) (vh, false) l = (vh', false) ∧
         ∀ h, vh' !! h = if decide (h ∈ l) then vh !! h ≫= detached svc else vh !! h.
Proof.
  revert vh. induction l as [|a l IH]; intros vh Hd Hin; simpl.
  { exists vh. split; [done|]. intros h.
    first [done | case_decide as E; [by apply not_elem_of_nil in E|done]]. }
  pose proof (NoDup_cons_1_1 _ _ Hd) as Ha. pose proof (NoDup_cons_1_2 _ _ Hd) as Hl.
  destruct (Hin a) as [v Hv]; [by left|]. rewrite Hv.
  set (vh1 := match detached svc v with Some v' => <[a := v']> vh | None => delete a vh end).
  assert (Hstep : (if decide (VirtualHost_Len (VirtualHost_Remove v svc) = O)
                   then (delete a vh, false)
                   else (<[a := VirtualHost_Remove v svc]> vh, false)) = (vh1, false)).
  { unfold vh1, detached. simpl. by case_decide. }
  rewrite Hstep.
  assert (Hother : ∀ h, h ≠ a → vh1 !! h = vh !! h).
  { intros h Hne. unfold vh1. destruct (detached svc v).
    - by rewrite lookup_insert_ne.
    - by rewrite lookup_delete_ne. }
  assert (Hsame : vh1 !! a = detached svc v).
  { unfold vh1. destruct (detached svc v).
    - by rewrite lookup_insert_eq.
    - by rewrite lookup_delete_eq. }
  destruct (IH vh1 Hl) as (vh' & Hf & Hlook).
  { intros h Hh. rewrite Hother; [apply Hin; by right|]. by intros ->. }
  exists vh'. split; [done|]. intros h. rewrite Hlook.
  destruct (decide (h = a)) as [->|Hne].
  - rewrite decide_False by done. rewrite (decide_True (P := a ∈ a :: l)) by (by left).
    by rewrite Hsame, Hv.
  - rewrite Hother by done.
    destruct (decide (h ∈ l)) as [Hh|Hh].
    + rewrite decide_True; [done|by right].
    + rewrite decide_False; [done|]. by intros [?|?]%elem_of_cons.
Qed.

(** ** The invariant under changes that keep the host lists *)

Lemma unblank_perm (l l' : list string) : l ≡ₚ l' → unblank l → unblank l'.
Proof. intros Hp Hb h Hh. apply Hb. by rewrite Hp. Qed.

Lemma Inv_transfer (w w' : World) :
  Inv w →
  vhosts w' = vhosts w →
  (length (heap w) ≤ length (heap w'))%nat →
  (∀ k s, svcs w !! k = Some s → ∃ s', svcs w' !! k = Some s' ∧ keeps (heap w) (heap w') s s') →
  (∀ k s', svcs w' !! k = Some s' → ∃ s, svcs w !! k = Some s ∧ keeps (heap w) (heap w') s s') →
  Inv w'.
Proof.
  intros HI Hv Hlen Hfw Hbw. split.
  - intros k s' Hk. destruct (Hbw k s' Hk) as (s & Hs & [[Hn _] _]).
    rewrite Hn. by eapply inv_name.
  - intros k s' r Hk Hr. destruct (Hbw k s' Hk) as (s & Hs & [[_ Hvh] _]).
    rewrite Hvh in Hr. pose proof (inv_bound w HI k s r Hs Hr). lia.
  - intros k k' s1 s2 r r' Hk Hk' Hr Hr' Harr.
    destruct (Hbw k s1 Hk) as (t1 & Ht1 & [[_ Hv1] _]).
    destruct (Hbw k' s2 Hk') as (t2 & Ht2 & [[_ Hv2] _]).
    rewrite Hv1 in Hr. rewrite Hv2 in Hr'. by eapply (inv_own w HI k k' t1 t2).
  - intros k s' Hk. destruct (Hbw k s' Hk) as (s & Hs & [_ Hp]).
    destruct (inv_clean w HI k s Hs) as [Hd Hb]. split.
    + by rewrite Hp.
    + eapply unblank_perm; [symmetry; exact Hp|done].
  - intros h v n Hh. rewrite Hv in Hh. rewrite (inv_members w HI h v n Hh). split.
    + intros (s & Hs & Hin). destruct (Hfw n s Hs) as (s' & Hs' & [_ Hp]).
      exists s'. split; [done|]. by rewrite Hp.
    + intros (s' & Hs' & Hin). destruct (Hbw n s' Hs') as (s & Hs & [_ Hp]).
      exists s. split; [done|]. by rewrite <- Hp.
  - intros h v Hh. rewrite Hv in Hh. by eapply inv_nodup.
  - intros h v Hh. rewrite Hv in Hh. by eapply inv_nonempty.
  - intros k s' h Hk Hin. destruct (Hbw k s' Hk) as (s & Hs & [_ Hp]).
    rewrite Hv. eapply (inv_listed w HI k s); [done|]. by rewrite <- Hp.
Qed.

Lemma Inv_initial : Inv initial.
Proof.
  split; simpl; try (intros; simplify_map_eq; done).
Qed.

Lemma hosts_of_app (w : World) (k : string) (s : Service.t) (l : list string) :
  Inv w → svcs w !! k = Some s → hosts_of (heap w ++ [l]) s = hosts_of (heap w) s.
Proof.
  intros HI Hk. unfold hosts_of. destruct (Service.VirtualHosts s) as [r|] eqn:Hr; [|done].
  apply elems_app. by eapply inv_bound.
Qed.

Lemma Inv_alloc (w : World) (l : list string) :
  Inv w → Inv (with_heap w (heap w ++ [l])).
Proof.
  intros HI. apply (Inv_transfer w); simpl; [done|done|rewrite length_app; lia|..].
  - intros k s Hk. exists s. split; [done|]. split; [done|].
    by rewrite (hosts_of_app w k).
  - intros k s Hk. exists s. split; [done|]. split; [done|].
    by rewrite (hosts_of_app w k).
Qed.

Lemma Inv_put (w : World) (k : string) (s s' : Service.t) :
  Inv w → svcs w !! k = Some s → same_hosts s s' →
  Inv (mkWorld (<[k := s']> (svcs w)) (vhosts w) (cfg w) (heap w)).
Proof.
  intros HI Hk Hs. assert (Hkeep : keeps (heap w) (heap w) s s').
  { split; [done|]. unfold hosts_of. by rewrite (proj2 Hs). }
  apply (Inv_transfer w); simpl; [done|done|lia|..].
  - intros j t Hj. destruct (decide (k = j)) as [<-|Hne].
    + rewrite lookup_insert_eq. simplify_eq. eauto.
    + rewrite lookup_insert_ne by done. exists t. by split.
  - intros j t Hj. destruct (decide (k = j)) as [<-|Hne].
    + rewrite lookup_insert_eq in Hj. simplify_eq. eauto.
    + rewrite lookup_insert_ne in Hj by done. exists t. by split.
Qed.

Lemma hosts_of_sort (w : World) (sl : option StrSlice.t) (k : string) (s : Service.t) :
  exclusive w sl → svcs w !! k = Some s →
  hosts_of (sort_Strings (heap w) sl) s ≡ₚ hosts_of (heap w) s.
Proof.
  intros Hex Hk. unfold hosts_of.
  destruct (Service.VirtualHosts s) as [r'|] eqn:Hr'; [|done].
  destruct sl as [r|]; [|done].
  destruct (decide (StrSlice.arr r' = StrSlice.arr r)) as [E|E].
  - rewrite (Hex k s r r' Hk Hr' eq_refl E). rewrite elems_sort_eq.
    apply sort_strings_perm.
  - rewrite elems_sort_ne; [done|]. by intros ? [= <-].
Qed.

Lemma Inv_sort (w : World) (sl : option StrSlice.t) :
  Inv w → exclusive w sl → Inv (with_heap w (sort_Strings (heap w) sl)).
Proof.
  intros HI Hex.
  apply (Inv_transfer w); simpl; [done|done|by rewrite length_sort_Strings|..].
  - intros k s Hk. exists s. split; [done|]. split; [done|]. by eapply hosts_of_sort.
  - intros k s Hk. exists s. split; [done|]. split; [done|]. by eapply hosts_of_sort.
Qed.

(** ** What the methods of a service leave alone *)

#[local] Instance same_hosts_refl : Reflexive same_hosts.
Proof. by intros s. Qed.

#[local] Instance same_hosts_trans : Transitive same_hosts.
Proof. intros s1 s2 s3 [? ?] [? ?]. split; congruence. Qed.

Lemma Service_add_hosts (s s' : Service.t) (b : Backend.t) :
  Service_add s b = Some s' → same_hosts s s'.
Proof.
  unfold Service_add. destruct (network_mismatch s _); [|done].
  destruct (backend_index _ _); intros [= <-]; done.
Qed.

Lemma Service_remove_hosts (s : Service.t) (name : string) :
  same_hosts s (Service_remove s name).1.
Proof. unfold Service_remove. by destruct (backend_index _ _). Qed.

Lemma update_backend_hosts (st : Service.t * list BackendConfig.t * bool)
    (b : BackendConfig.t) :
  same_hosts st.1.1 (update_backend st b).1.1.
Proof.
  destruct st as [[s cur] p]. unfold update_backend. simpl.
  destruct p; [done|].
  assert (Hrep : ∀ rest,
    same_hosts s
      (let '(service, _) := Service_remove s (BackendConfig.Name b) in
       match Service_add service (NewBackend b) with
       | Some service => (service, rest, false)
       | None => (service, cur, true)
       end).1.1).
  { intros rest. pose proof (Service_remove_hosts s (BackendConfig.Name b)) as Hr.
    destruct (Service_remove s _) as [s1 ok]. simpl in Hr.
    destruct (Service_add s1 _) as [s2|] eqn:Ha; simpl; [|done].
    etrans; [done|]. by eapply Service_add_hosts. }
  destruct (list_find _ cur) as [[i c]|]; [|apply Hrep].
  destruct (BackendConfig_Equal c b); [done|apply Hrep].
Qed.

Lemma foldl_update_backend_hosts (l : list BackendConfig.t)
    (st : Service.t * list BackendConfig.t * bool) :
  same_hosts st.1.1 (foldl update_backend st l).1.1.
Proof.
  revert st. induction l as [|b l IH]; intros st; simpl; [done|].
  etrans; [apply update_backend_hosts | apply IH].
Qed.

Lemma foldl_remove_hosts (names : list string) (s : Service.t) :
  same_hosts s (foldl (λ s name, (Service_remove s name).1) s names).
Proof.
  revert s. induction names as [|n names IH]; intros s; simpl; [done|].
  etrans; [apply Service_remove_hosts | apply IH].
Qed.

Lemma foldl_add_hosts (bs : list BackendConfig.t) (s s' : Service.t) :
  foldl (λ acc b, acc ≫= λ s, Service_add s (NewBackend b)) (Some s) bs = Some s' →
  same_hosts s s'.
Proof.
  revert s. induction bs as [|b bs IH]; intros s; simpl; [by intros [= <-]|].
  destruct (Service_add s (NewBackend b)) as [s1|] eqn:Ha; simpl.
  - intros H. etrans; [by eapply Service_add_hosts | by apply IH].
  - intros H. exfalso. clear -H. induction bs as [|b' bs IHb]; simpl in H; [done|auto].
Qed.

Lemma NewService_hosts (c : ServiceConfig.t) (s : Service.t) :
  NewService c = Some s →
  Service.Name s = ServiceConfig.Name c ∧
  Service.VirtualHosts s = ServiceConfig.VirtualHosts c.
Proof.
  unfold NewService. intros H. apply foldl_add_hosts in H as [Hn Hv]. by split.
Qed.

Lemma Service_start_hosts (env : Env) (s s' : Service.t) :
  Service_start env s = inl s' → same_hosts s s'.
Proof.
  unfold Service_start. case_bool_decide; [|done].
  destruct (listen env _ _); [done|]. by intros [= <-].
Qed.

(** ** The invariant when one service takes a new list of hosts *)

Lemma Inv_rehost (w : World) (k : string) (s' : Service.t)
    (vh' : gmap string VirtualHost.t) (m' : arrays) :
  Inv w →
  Service.Name s' = k →
  NoDup (hosts_of m' s') → unblank (hosts_of m' s') →
  (length (heap w) ≤ length m')%nat →
  (∀ r, Service.VirtualHosts s' = Some r →
        (StrSlice.arr r < length m')%nat ∧
        ∀ j s r', j ≠ k → svcs w !! j = Some s → Service.VirtualHosts s = Some r' →
                  StrSlice.arr r' ≠ StrSlice.arr r) →
  (∀ j s, j ≠ k → svcs w !! j = Some s → hosts_of m' s ≡ₚ hosts_of (heap w) s) →
  rehosted w k (hosts_of m' s') vh' →
  Inv (mkWorld (<[k := s']> (svcs w)) vh' (cfg w) m').
Proof.
  intros HI Hname Hnd Hub Hlen Hown Hothers Hre.
  assert (Hlook : ∀ j s, <[k := s']> (svcs w) !! j = Some s →
                         (j = k ∧ s = s') ∨ (j ≠ k ∧ svcs w !! j = Some s)).
  { intros j s. destruct (decide (k = j)) as [<-|Hne].
    - rewrite lookup_insert_eq. intros [= <-]. by left.
    - rewrite lookup_insert_ne by done. intros ?. by right. }
  split; simpl.
  - intros j s [[-> ->]|[Hne Hj]]%Hlook; [done|]. by eapply inv_name.
  - intros j s r [[-> ->]|[Hne Hj]]%Hlook Hr.
    + by apply Hown.
    + pose proof (inv_bound w HI j s r Hj Hr). lia.
  - intros j j' s1 s2 r r' [[-> ->]|[Hne Hj]]%Hlook [[-> ->]|[Hne' Hj']]%Hlook Hr Hr' E.
    + done.
    + destruct (Hown r Hr) as [_ Hfar]. by destruct (Hfar j' s2 r' Hne' Hj' Hr').
    + destruct (Hown r' Hr') as [_ Hfar]. by destruct (Hfar j s1 r Hne Hj Hr).
    + by eapply (inv_own w HI j j' s1 s2).
  - intros j s [[-> ->]|[Hne Hj]]%Hlook; [done|].
    destruct (inv_clean w HI j s Hj) as [Hd Hb]. pose proof (Hothers j s Hne Hj) as Hp.
    split; [by rewrite Hp|]. eapply unblank_perm; [symmetry; exact Hp|done].
  - intros h v' n Hh. rewrite (rehosted_members _ _ _ _ Hre h v' n Hh). split.
    + intros [[-> Hin]|[Hne (v & Hv & Hn)]].
      * exists s'. by rewrite lookup_insert_eq.
      * apply (inv_members w HI h v n Hv) in Hn as (s & Hs & Hin).
        exists s. rewrite lookup_insert_ne by done. split; [done|].
        by rewrite (Hothers n s Hne Hs).
    + intros (s & [[-> ->]|[Hne Hs]]%Hlook & Hin); [by left|]. right. split; [done|].
      rewrite (Hothers n s Hne Hs) in Hin.
      destruct (inv_listed w HI n s h Hs Hin) as [v Hv]. exists v. split; [done|].
      apply (inv_members w HI h v n Hv). eauto.
  - by apply Hre.
  - by apply Hre.
  - intros j s h [[-> ->]|[Hne Hj]]%Hlook Hin.
    + by apply (rehosted_new _ _ _ _ Hre).
    + rewrite (Hothers j s Hne Hj) in Hin.
      destruct (inv_listed w HI j s h Hj Hin) as [v Hv].
      apply (rehosted_old _ _ _ _ Hre h v j Hv); [|done].
      apply (inv_members w HI h v j Hv). eauto.
Qed.

Lemma rehosted_moved (w : World) (k : string) (old new : list string)
    (vh' : gmap string VirtualHost.t) :
  Inv w → answers w k old →
  (∀ h, vh' !! h = moved k old new (vhosts w) h) →
  rehosted w k new vh'.
Proof.
  intros HI Hans Hvh.
  assert (Hk : ∀ h v, vhosts w !! h = Some v → k ∈ VirtualHost.services v ↔ h ∈ old).
  { intros h v Hv. rewrite (Hans h). split; [eauto|]. intros (v0 & Hv0 & ?). congruence. }
  split.
  - intros h v'. rewrite Hvh. unfold moved. repeat case_decide.
    + intros [= <-]. apply NoDup_Add.
      destruct (vhosts w !! h) as [v|] eqn:Hv; simpl; [by eapply inv_nodup|constructor].
    + destruct (vhosts w !! h) as [v|] eqn:Hv; simpl; [|done].
      unfold detached. case_decide; [done|]. intros [= <-]. simpl.
      apply NoDup_remove_first. by eapply inv_nodup.
    + intros Hv. by eapply inv_nodup.
  - intros h v'. rewrite Hvh. unfold moved. repeat case_decide.
    + intros [= <-]. apply Add_nonempty.
    + destruct (vhosts w !! h) as [v|] eqn:Hv; simpl; [|done].
      unfold detached. case_decide as E; [done|]. intros [= <-].
      intros E'. apply E. unfold VirtualHost_Len. by rewrite E'.
    + intros Hv. by eapply inv_nonempty.
  - intros h v' n. rewrite Hvh. unfold moved. repeat case_decide.
    + intros [= <-]. rewrite elem_of_Add.
      destruct (vhosts w !! h) as [v|] eqn:Hv; simpl.
      * pose proof (Hk h v Hv). destruct (decide (n = k)) as [->|Hne].
        -- split; [intros _; left; tauto|auto].
        -- split; [intros [?|?]; [right; eauto|done]|].
           intros [[? _]|[_ (v0 & [= <-] & ?)]]; [done|auto].
      * split.
        -- intros [?%not_elem_of_nil| ->]; [done|]. left. tauto.
        -- intros [[-> _]|[_ (v0 & ? & _)]]; [auto|done].
    + destruct (vhosts w !! h) as [v|] eqn:Hv; simpl; [|done].
      unfold detached. case_decide; [done|]. intros [= <-]. simpl.
      rewrite elem_of_remove_first by (by eapply inv_nodup). split.
      * intros [? ?]. right. eauto.
      * intros [[-> ?]|[? (v0 & [= <-] & ?)]]; [tauto|done].
    + intros Hv. pose proof (Hk h v' Hv) as Hkv.
      destruct (decide (n = k)) as [->|Hne].
      * rewrite Hkv. split.
        -- intros Ho. left. split; [done|]. apply dec_stable. intros Hn. tauto.
        -- intros [[_ Hn]|[? _]]; [|done]. apply dec_stable. intros Ho. tauto.
      * split; [intros ?; right; eauto|].
        intros [[? _]|[_ (v0 & Hv0 & ?)]]; [done|by simplify_eq].
  - intros h Hn. rewrite Hvh. unfold moved. repeat case_decide; [done|tauto|].
    assert (Ho : h ∈ old) by (apply dec_stable; tauto).
    apply Hans in Ho as (v & Hv & _). by rewrite Hv.
  - intros h v n Hv Hn Hne. rewrite Hvh. unfold moved. repeat case_decide; [done| |by rewrite Hv].
    rewrite Hv. simpl. unfold detached. case_decide as E; [|done].
    exfalso. unfold VirtualHost_Len in E. apply length_zero_iff_nil in E.
    assert (Hin : n ∈ remove_first k (VirtualHost.services v)).
    { apply elem_of_remove_first; [by eapply inv_nodup|done]. }
    simpl in E. rewrite E in Hin. by apply not_elem_of_nil in Hin.
Qed.

(** ** AddService keeps the invariant *)

Lemma not_answering (w : World) (k : string) :
  Inv w → svcs w !! k = None → answers w k [].
Proof.
  intros HI Hk h. split; [by intros ?%not_elem_of_nil|].
  intros (v & Hv & Hin). apply (inv_members w HI h v k Hv) in Hin as (s & Hs & _).
  congruence.
Qed.

Lemma AddService_Inv (env : Env) (w : World) (c : ServiceConfig.t) :
  Inv w → fresh w (ServiceConfig.VirtualHosts c) → Inv (AddService env w c).1.
Proof.
  intros HI Hf. unfold AddService.
  destruct (svcs w !! ServiceConfig.Name c) eqn:Hk; [done|].
  set (c' := ServiceConfig.SetDefaults (setServiceDefaults (cfg w) c)).
  destruct (NewService c') as [s1|] eqn:Hnew; [|done].
  apply NewService_hosts in Hnew as [Hn1 Hv1].
  destruct (Service_start env s1) as [s2|err] eqn:Hstart; [|done].
  apply Service_start_hosts in Hstart as [Hn2 Hv2].
  assert (Hn : Service.Name s2 = ServiceConfig.Name c) by (by rewrite Hn2, Hn1).
  assert (Hv : Service.VirtualHosts s2 = ServiceConfig.VirtualHosts c) by (by rewrite Hv2, Hv1).
  change (ServiceConfig.VirtualHosts c') with (ServiceConfig.VirtualHosts c).
  assert (Hclean : NoDup (elems (heap w) (ServiceConfig.VirtualHosts c)) ∧
                   unblank (elems (heap w) (ServiceConfig.VirtualHosts c))).
  { destruct (ServiceConfig.VirtualHosts c); simpl in *; [tauto|].
    split; [constructor|]. by intros h ?%not_elem_of_nil. }
  destruct Hclean as [Hnd Hub].
  rewrite filterEmpty_unblank by done. cbn [fst].
  assert (Hhosts : hosts_of (heap w) s2 = elems (heap w) (ServiceConfig.VirtualHosts c)).
  { unfold hosts_of. by rewrite Hv. }
  apply Inv_rehost; try done.
  - by rewrite Hhosts.
  - by rewrite Hhosts.
  - intros r Hr. rewrite Hv in Hr. rewrite Hr in Hf. destruct Hf as (Hb & Hfar & _).
    split; [done|]. intros j s r' _ Hj Hr'. by eapply Hfar.
  - rewrite Hhosts, Hn.
    apply (rehosted_moved w _ []); [done|by apply not_answering|].
    intros h. rewrite foldl_attach_lookup. unfold moved.
    destruct (decide (h ∈ elems (heap w) (ServiceConfig.VirtualHosts c))) as [Hin|Hin].
    + rewrite decide_True; [done|]. split; [done|apply not_elem_of_nil].
    + rewrite decide_False by tauto. rewrite decide_False; [done|].
      by intros [?%not_elem_of_nil _].
Qed.

(** ** updateVHosts keeps the invariant *)

Lemma own_exclusive (w : World) (k : string) (s : Service.t) :
  Inv w → svcs w !! k = Some s → exclusive w (Service.VirtualHosts s).
Proof.
  intros HI Hk j t r r' Hj Hr' Hr E.
  assert (j = k) by (by eapply (inv_own w HI j k t s r' r)). subst j. congruence.
Qed.

Lemma fresh_exclusive (w : World) (sl : option StrSlice.t) :
  fresh w sl → exclusive w sl.
Proof.
  intros Hf j t r r' Hj Hr' -> E. destruct Hf as (_ & Hfar & _).
  by destruct (Hfar j t r' Hj Hr').
Qed.

Lemma answers_own (w : World) (k : string) (s : Service.t) :
  Inv w → svcs w !! k = Some s → answers w k (hosts_of (heap w) s).
Proof.
  intros HI Hk h. split.
  - intros Hin. destruct (inv_listed w HI k s h Hk Hin) as [v Hv].
    exists v. split; [done|]. apply (inv_members w HI h v k Hv). eauto.
  - intros (v & Hv & Hin). apply (inv_members w HI h v k Hv) in Hin as (s' & Hs' & ?).
    congruence.
Qed.

Lemma updateVHosts_Inv (w : World) (service : Service.t) (newHosts : option StrSlice.t) :
  Inv w →
  svcs w !! Service.Name service = Some service →
  newHosts = Service.VirtualHosts service ∨ fresh w newHosts →
  Inv (updateVHosts w service newHosts).1 ∧ (updateVHosts w service newHosts).2 = Done.
Proof.
  intros HI Hk Hnew. unfold updateVHosts.
  set (k := Service.Name service) in *.
  set (oldHosts := Service.VirtualHosts service) in *.
  set (m1 := sort_Strings (heap w) oldHosts).
  set (m2 := sort_Strings m1 newHosts).
  assert (HI1 : Inv (with_heap w m1)).
  { apply Inv_sort; [done|]. by eapply own_exclusive. }
  assert (Hex2 : exclusive (with_heap w m1) newHosts).
  { destruct Hnew as [->|Hf]; [by apply (own_exclusive (with_heap w m1) k)|].
    intros j t r r' Hj Hr' -> E. destruct Hf as (_ & Hfar & _).
    by destruct (Hfar j t r' Hj Hr'). }
  assert (HI2 : Inv (with_heap w m2)) by (by apply (Inv_sort (with_heap w m1))).
  (* the two lists that are merged *)
  assert (Hold_sorted : StronglySorted String.le (elems m2 oldHosts)).
  { destruct oldHosts as [r|] eqn:Ho; [|constructor].
    destruct Hnew as [->|Hf].
    - unfold m2. rewrite elems_sort_eq. apply sort_strings_sorted.
    - unfold m2. rewrite elems_sort_ne.
      + unfold m1. rewrite elems_sort_eq. apply sort_strings_sorted.
      + intros r' ->. destruct Hf as (_ & Hfar & _).
        apply (Hfar k service r Hk). by rewrite <- Ho. }
  assert (Hnew_sorted : StronglySorted String.le (elems m2 newHosts)).
  { destruct newHosts as [r|]; [|constructor].
    unfold m2. rewrite elems_sort_eq. apply sort_strings_sorted. }
  assert (Hnew_perm : elems m2 newHosts ≡ₚ elems (heap w) newHosts).
  { destruct newHosts as [r|] eqn:Hn; [|done].
    unfold m2. rewrite elems_sort_eq, sort_strings_perm.
    destruct Hnew as [E|Hf].
    - rewrite E. fold oldHosts. rewrite <- E. unfold m1. rewrite <- E.
      rewrite elems_sort_eq. apply sort_strings_perm.
    - unfold m1. rewrite elems_sort_ne; [done|].
      intros r' Hr' E. destruct Hf as (_ & Hfar & _).
      apply (Hfar k service r' Hk Hr'). done. }
  assert (Hnew_clean : NoDup (elems (heap w) newHosts) ∧ unblank (elems (heap w) newHosts)).
  { destruct Hnew as [->|Hf]; [by apply (inv_clean w HI k)|].
    destruct newHosts; simpl in *; [tauto|].
    split; [constructor|]. by intros h ?%not_elem_of_nil. }
  destruct Hnew_clean as [Hnew_nd Hnew_ub].
  destruct (inv_clean _ HI2 k service Hk) as [Hold_nd _].
  change (hosts_of (heap (with_heap w m2)) service) with (elems m2 oldHosts) in Hold_nd.
  rewrite diff_hosts_spec; [|done|done|done|by rewrite Hnew_perm].
  set (old := elems m2 oldHosts) in *. set (new := elems m2 newHosts) in *.
  destruct (foldl_detach_lookup k (filter (λ h, h ∉ new) old) (vhosts w))
    as (vh1 & Hdet & Hvh1).
  { by apply NoDup_filter. }
  { intros h [_ Hin]%list_elem_of_filter. by apply (inv_listed _ HI2 k service h Hk). }
  rewrite Hdet. cbn [fst snd]. split; [|done].
  apply (Inv_rehost (with_heap w m2) k); try done.
  - unfold hosts_of. simpl. fold new. by rewrite Hnew_perm.
  - unfold hosts_of. simpl. fold new. eapply unblank_perm; [symmetry; exact Hnew_perm|done].
  - simpl. intros r Hr. destruct Hnew as [E|Hf].
    + rewrite E in Hr. split; [by eapply (inv_bound _ HI2 k)|].
      intros j s r' Hne Hj Hr' Harr. apply Hne.
      by eapply (inv_own w HI j k s service r' r).
    + rewrite Hr in Hf. destruct Hf as (Hb & Hfar & _). split.
      * unfold m2, m1. by rewrite !length_sort_Strings.
      * intros j s r' _ Hj Hr'. by eapply Hfar.
  - unfold hosts_of. simpl. fold new.
    apply (rehosted_moved (with_heap w m2) k old new); [done|by apply answers_own|].
    intros h. rewrite foldl_attach_lookup. simpl. unfold moved.
    rewrite Hvh1.
    destruct (decide (h ∈ new)) as [Hn|Hn]; destruct (decide (h ∈ old)) as [Ho|Ho];
      repeat first
        [ rewrite decide_True by (first [tauto | apply list_elem_of_filter; tauto])
        | rewrite decide_False by (first [tauto | rewrite list_elem_of_filter; tauto]) ];
      done.
Qed.

(** ** UpdateService keeps the invariant *)

Lemma Equal_heap (m : arrays) (s other : ServiceConfig.t) :
  (ServiceConfig.Equal m s other).2
  = sort_Strings (sort_Strings m (ServiceConfig.VirtualHosts s)) (ServiceConfig.VirtualHosts s).
Proof. done. Qed.

Lemma Merge_hosts (s c : ServiceConfig.t) :
  ServiceConfig.VirtualHosts (ServiceConfig.Merge s c)
  = match ServiceConfig.VirtualHosts c with
    | Some r => Some r
    | None => ServiceConfig.VirtualHosts s
    end.
Proof.
  unfold ServiceConfig.Merge. simpl. case_decide as E.
  - by destruct (ServiceConfig.VirtualHosts c).
  - by rewrite E.
Qed.

Lemma UpdateService_Inv (env : Env) (w : World) (c : ServiceConfig.t) :
  Inv w → fresh w (ServiceConfig.VirtualHosts c) → Inv (UpdateService env w c).1.
Proof.
  intros HI Hf. unfold UpdateService.
  destruct (svcs w !! ServiceConfig.Name c) as [service|] eqn:Hk; [|done].
  change (ServiceConfig.Name (ServiceConfig.Merge (Service_config service) c))
    with (ServiceConfig.Name c).
  pose proof (Merge_hosts (Service_config service) c) as Hmv.
  change (ServiceConfig.VirtualHosts (Service_config service))
    with (Service.VirtualHosts service) in Hmv.
  set (merged := ServiceConfig.Merge (Service_config service) c) in *. clearbody merged.
  set (k := ServiceConfig.Name c) in *.
  pose proof (inv_name w HI k service Hk) as Hname.
  destruct (Service_UpdateConfig_spec service merged)
    as [[_ Hr]|(_ & Hnone & _ & Hn1 & Hv1)].
  { by rewrite Hr. }
  destruct (Service_UpdateConfig service merged) as [s1 [e|]]; [done|].
  cbn [fst snd] in Hn1, Hv1 |- *.
  assert (H1 : same_hosts service s1) by done.
  pose proof (foldl_update_backend_hosts
                (default [] (ServiceConfig.Backends merged))
                (s1, backend_map (default [] (ServiceConfig.Backends (Service_config service))),
                 false)) as Hb.
  destruct (foldl update_backend _ _) as [[s2 cur] p]. cbn [fst snd] in Hb |- *.
  assert (H2 : same_hosts service s2) by (by etrans).
  destruct p; cbn [fst snd].
  { by apply (Inv_put w k service). }
  pose proof (foldl_remove_hosts (range_order env (BackendConfig.Name <$> cur)) s2) as Hrm.
  set (s3 := foldl _ s2 _) in *.
  assert (H3 : same_hosts service s3) by (by etrans).
  pose proof (Equal_heap (heap w) (Service_config service) merged) as Hm.
  change (ServiceConfig.VirtualHosts (Service_config service))
    with (Service.VirtualHosts service) in Hm.
  destruct (ServiceConfig.Equal (heap w) (Service_config service) merged) as [same m].
  cbn [snd] in Hm.
  assert (Hex : exclusive w (Service.VirtualHosts service)) by (by eapply own_exclusive).
  assert (HIa : Inv (with_heap w (sort_Strings (heap w) (Service.VirtualHosts service)))).
  { by apply Inv_sort. }
  assert (HIm : Inv (with_heap w m)).
  { rewrite Hm. by apply (Inv_sort _ _ HIa). }
  destruct same; cbn [fst snd].
  { by apply (Inv_put (with_heap w m) k service). }
  set (s4 := if decide (Service.errPagesCfg s3 ≠ ServiceConfig.ErrorPages merged)
             then Service.set_errPagesCfg s3 (ServiceConfig.ErrorPages merged) else s3).
  assert (H4 : same_hosts service s4).
  { unfold s4. by destruct (decide _). }
  assert (HI4 : Inv (mkWorld (<[k := s4]> (svcs w)) (vhosts w) (cfg w) m)).
  { by apply (Inv_put (with_heap w m) k service). }
  assert (Hlen : length m = length (heap w)).
  { rewrite Hm. by rewrite !length_sort_Strings. }
  (* the slice that becomes the list of hosts *)
  assert (Hcase : (ServiceConfig.VirtualHosts merged = Service.VirtualHosts s4) ∨
                  fresh (mkWorld (<[k := s4]> (svcs w)) (vhosts w) (cfg w) m)
                        (ServiceConfig.VirtualHosts merged)).
  { rewrite Hmv. destruct (ServiceConfig.VirtualHosts c) as [r|] eqn:Hc.
    - right. destruct Hf as (Hbd & Hfar & Hnd & Hub). unfold fresh. cbn [heap svcs].
      assert (Hel : elems m (Some r) = elems (heap w) (Some r)).
      { rewrite Hm. rewrite !elems_sort_ne; [done|..];
          intros r' Hr'; symmetry; by eapply (Hfar k service). }
      split; [lia|]. split; [|by rewrite Hel].
      intros j t r' Hj Hr'. destruct (decide (k = j)) as [<-|Hne].
      + rewrite lookup_insert_eq in Hj. injection Hj as <-.
        rewrite (proj2 H4) in Hr'. by eapply (Hfar k service).
      + rewrite lookup_insert_ne in Hj by done. by eapply Hfar.
    - left. by rewrite (proj2 H4). }
  assert (Hub : unblank (elems m (ServiceConfig.VirtualHosts merged))).
  { destruct Hcase as [E|Hfr].
    - rewrite E. apply (inv_clean _ HI4 k s4). simpl. by rewrite lookup_insert_eq.
    - destruct (ServiceConfig.VirtualHosts merged); simpl in *; [tauto|].
      by intros h ?%not_elem_of_nil. }
  rewrite filterEmpty_unblank by done.
  apply updateVHosts_Inv; [done|..].
  - simpl. rewrite (proj1 H4), Hname. by rewrite lookup_insert_eq.
  - done.
Qed.

(** ** RemoveService keeps the invariant *)

Lemma listed_true (m : arrays) (ss : gmap string Service.t) (host : string) :
  listed m ss host = true ↔
  ∃ n s, ss !! n = Some s ∧ host ∈ hosts_of m s.
Proof. unfold listed. rewrite bool_decide_eq_true. apply map_Exists_lookup. Qed.

Lemma RemoveService_Inv (w : World) (name : string) :
  Inv w → Inv (RemoveService w name).1.
Proof.
  intros HI. unfold RemoveService.
  destruct (svcs w !! name) as [svc|] eqn:Hk; [|done]. cbn [fst].
  pose proof (inv_name w HI name svc Hk) as Hname. rewrite Hname.
  assert (Hv : ∀ h v', map_imap (λ host vhost,
                    if listed (heap w) (delete name (svcs w)) host
                    then Some (VirtualHost_Remove vhost name) else None) (vhosts w) !! h
                  = Some v' ↔
                  ∃ v, vhosts w !! h = Some v ∧ v' = VirtualHost_Remove v name ∧
                       listed (heap w) (delete name (svcs w)) h = true).
  { intros h v'. rewrite map_lookup_imap.
    destruct (vhosts w !! h) as [v|]; simpl.
    - destruct (listed _ _ h); split.
      + intros [= <-]. eauto.
      + intros (v0 & [= <-] & -> & _). done.
      + done.
      + intros (v0 & _ & _ & ?). done.
    - split; [done|]. intros (v0 & ? & _). done. }
  split; simpl.
  - intros k s [_ Hs]%lookup_delete_Some. by eapply inv_name.
  - intros k s r [_ Hs]%lookup_delete_Some. by eapply inv_bound.
  - intros k k' s s' r r' [_ Hs]%lookup_delete_Some [_ Hs']%lookup_delete_Some.
    by eapply inv_own.
  - intros k s [_ Hs]%lookup_delete_Some. by eapply inv_clean.
  - intros h v' n (v & Hvh & -> & Hl)%Hv. simpl.
    rewrite elem_of_remove_first by (by eapply inv_nodup).
    rewrite (inv_members w HI h v n Hvh). split.
    + intros [(s & Hs & Hin) Hne]. exists s. split; [|done].
      apply lookup_delete_Some. auto.
    + intros (s & [Hne Hs]%lookup_delete_Some & Hin). split; [eauto|done].
  - intros h v' (v & Hvh & -> & Hl)%Hv. simpl.
    apply NoDup_remove_first. by eapply inv_nodup.
  - intros h v' (v & Hvh & -> & Hl)%Hv. simpl.
    apply listed_true in Hl as (n & s & [Hne Hs]%lookup_delete_Some & Hin).
    intros E.
    assert (Hn : n ∈ remove_first name (VirtualHost.services v)).
    { apply elem_of_remove_first; [by eapply inv_nodup|]. split; [|done].
      apply (inv_members w HI h v n Hvh). eauto. }
    rewrite E in Hn. by apply not_elem_of_nil in Hn.
  - intros k s h Hks Hin.
    pose proof Hks as [Hne Hs]%lookup_delete_Some.
    destruct (inv_listed w HI k s h Hs Hin) as [v Hvh].
    exists (VirtualHost_Remove v name). apply Hv. exists v. split; [done|]. split; [done|].
    apply listed_true. eauto.
Qed.

(** ** The calls on backends keep the invariant *)

Lemma AddBackend_Inv (w : World) (svcName : string) (b : BackendConfig.t) :
  Inv w → Inv (AddBackend w svcName b).1.
Proof.
  intros HI. unfold AddBackend.
  destruct (svcs w !! svcName) as [service|] eqn:Hk; [|done].
  destruct (Service_add service (NewBackend b)) as [s'|] eqn:Ha; [|done].
  apply (Inv_put w svcName service); [done|done|]. by eapply Service_add_hosts.
Qed.

Lemma RemoveBackend_Inv (w : World) (svcName backendName : string) :
  Inv w → Inv (RemoveBackend w svcName backendName).1.
Proof.
  intros HI. unfold RemoveBackend.
  destruct (svcs w !! svcName) as [service|] eqn:Hk; [|done].
  pose proof (Service_remove_hosts service backendName) as Hr.
  destruct (Service_remove service backendName) as [s' ok]. cbn [fst] in *.
  by apply (Inv_put w svcName service).
Qed.

(** ** What a call leaves of the arrays it does not own *)

Lemma frame_refl (w : World) (sl : option StrSlice.t) : frame w w sl.
Proof. split; [done|]. split; [done|]. intros a ?. by right. Qed.

Lemma frame_trans (w w1 w2 : World) (sl : option StrSlice.t) :
  frame w w1 sl → frame w1 w2 sl → frame w w2 sl.
Proof.
  intros (L1 & H1 & O1) (L2 & H2 & O2). split; [congruence|]. split.
  - intros a Hsl Ho. rewrite H2; [by apply H1|done|].
    intros [?|?]%O1; done.
  - intros a [?|?]%O2; [by left|]. by apply O1.
Qed.

Lemma store_lookup_ne (m : arrays) (r : StrSlice.t) (l : list string) (a : nat) :
  StrSlice.arr r ≠ a → store m r l !! a = m !! a.
Proof. intros H. unfold store. by rewrite list_lookup_insert_ne. Qed.

Lemma sort_Strings_lookup_ne (m : arrays) (sl : option StrSlice.t) (a : nat) :
  ¬ array_in sl a → sort_Strings m sl !! a = m !! a.
Proof.
  intros H. destruct sl as [r|]; [|done]. apply store_lookup_ne.
  intros E. apply H. by exists r.
Qed.

Lemma filterEmpty_frame (m : arrays) (sl : option StrSlice.t) :
  length (filterEmpty m sl).2 = length m ∧
  (∀ a, ¬ array_in sl a → (filterEmpty m sl).2 !! a = m !! a) ∧
  (∀ a, array_in (filterEmpty m sl).1 a → array_in sl a).
Proof.
  destruct sl as [r|]; [|by repeat split]. unfold filterEmpty.
  destruct (filterEmpty_loop _) as [l removed]. cbn [fst snd]. split; [apply length_store|].
  split.
  - intros a H. apply store_lookup_ne. intros E. apply H. by exists r.
  - intros a (r' & [= <-] & E). by exists r.
Qed.

(** A change of the arrays alone. *)
Lemma frame_heap (w : World) (m' : arrays) (sl : option StrSlice.t) :
  length m' = length (heap w) →
  (∀ a, ¬ array_in sl a → ¬ owned w a → m' !! a = heap w !! a) →
  frame w (with_heap w m') sl.
Proof. intros Hl Hm. split; [done|]. split; [done|]. intros a ?. by right. Qed.

(** A change of one service. *)
Lemma frame_put (w : World) (k : string) (s' : Service.t) (sl : option StrSlice.t) :
  (∀ a, array_in (Service.VirtualHosts s') a → array_in sl a ∨ owned w a) →
  frame w (mkWorld (<[k := s']> (svcs w)) (vhosts w) (cfg w) (heap w)) sl.
Proof.
  intros H. split; [done|]. split; [done|].
  intros a (j & t & r & Hj & Hr & E). simpl in Hj.
  destruct (decide (k = j)) as [<-|Hne].
  - rewrite lookup_insert_eq in Hj. injection Hj as <-. apply H. by exists r.
  - rewrite lookup_insert_ne in Hj by done. right. by exists j, t, r.
Qed.

Lemma frame_vhosts (w : World) (vh : gmap string VirtualHost.t) (sl : option StrSlice.t) :
  frame w (mkWorld (svcs w) vh (cfg w) (heap w)) sl.
Proof. split; [done|]. split; [done|]. intros a ?. by right. Qed.

Lemma owned_same (w : World) (k : string) (s s' : Service.t) (a : nat) :
  svcs w !! k = Some s → same_hosts s s' →
  array_in (Service.VirtualHosts s') a → owned w a.
Proof. intros Hk [_ Hv] (r & Hr & E). rewrite Hv in Hr. by exists k, s, r. Qed.

Lemma AddService_frame (env : Env) (w : World) (c : ServiceConfig.t) :
  frame w (AddService env w c).1 (ServiceConfig.VirtualHosts c).
Proof.
  unfold AddService.
  destruct (svcs w !! ServiceConfig.Name c) eqn:Hk; [apply frame_refl|].
  set (c' := ServiceConfig.SetDefaults (setServiceDefaults (cfg w) c)).
  destruct (NewService c') as [s1|] eqn:Hnew; [|apply frame_refl].
  apply NewService_hosts in Hnew as [Hn1 Hv1].
  destruct (Service_start env s1) as [s2|err] eqn:Hstart; [|apply frame_refl].
  apply Service_start_hosts in Hstart as [Hn2 Hv2].
  change (ServiceConfig.VirtualHosts c') with (ServiceConfig.VirtualHosts c) in *.
  pose proof (filterEmpty_frame (heap w) (ServiceConfig.VirtualHosts c)) as (Hl & Hm & _).
  destruct (filterEmpty (heap w) (ServiceConfig.VirtualHosts c)) as [hosts m'].
  cbn [fst snd] in *. split; [done|]. split.
  - intros a Hsl _. by apply Hm.
  - intros a (j & t & r & Hj & Hr & E). simpl in Hj.
    destruct (decide (Service.Name s2 = j)) as [<-|Hne].
    + rewrite lookup_insert_eq in Hj. injection Hj as <-. left. exists r.
      split; [|done]. by rewrite <- Hv1, <- Hv2.
    + rewrite lookup_insert_ne in Hj by done. right. by exists j, t, r.
Qed.

Lemma updateVHosts_frame (w : World) (service : Service.t) (newHosts sl : option StrSlice.t) :
  (∀ a, array_in (Service.VirtualHosts service) a → owned w a) →
  (∀ a, array_in newHosts a → array_in sl a ∨ owned w a) →
  frame w (updateVHosts w service newHosts).1 sl.
Proof.
  intros Hold Hnew. unfold updateVHosts.
  destruct (diff_hosts _ _) as [remove add].
  set (m2 := sort_Strings (sort_Strings (heap w) (Service.VirtualHosts service)) newHosts).
  assert (Hl : length m2 = length (heap w)).
  { unfold m2. by rewrite !length_sort_Strings. }
  assert (Hm : ∀ a, ¬ array_in sl a → ¬ owned w a → m2 !! a = heap w !! a).
  { intros a Hsl Ho. unfold m2. rewrite !sort_Strings_lookup_ne; [done|..].
    - intros H. by apply Ho, Hold.
    - intros H. destruct (Hnew a H); done. }
  destruct (foldl _ _ remove) as [vh []]; cbn [fst].
  - split; [done|]. split; [done|]. intros a ?. by right.
  - split; [done|]. split; [done|].
    intros a (j & t & r & Hj & Hr & E). simpl in Hj.
    destruct (decide (Service.Name service = j)) as [<-|Hne].
    + rewrite lookup_insert_eq in Hj. injection Hj as <-. simpl in Hr.
      apply Hnew. by exists r.
    + rewrite lookup_insert_ne in Hj by done. right. by exists j, t, r.
Qed.

Lemma UpdateService_frame (env : Env) (w : World) (c : ServiceConfig.t) :
  frame w (UpdateService env w c).1 (ServiceConfig.VirtualHosts c).
Proof.
  unfold UpdateService.
  destruct (svcs w !! ServiceConfig.Name c) as [service|] eqn:Hk; [|apply frame_refl].
  change (ServiceConfig.Name (ServiceConfig.Merge (Service_config service) c))
    with (ServiceConfig.Name c).
  pose proof (Merge_hosts (Service_config service) c) as Hmv.
  change (ServiceConfig.VirtualHosts (Service_config service))
    with (Service.VirtualHosts service) in Hmv.
  set (merged := ServiceConfig.Merge (Service_config service) c) in *. clearbody merged.
  set (k := ServiceConfig.Name c) in *. set (sl := ServiceConfig.VirtualHosts c) in *.
  destruct (Service_UpdateConfig_spec service merged)
    as [[_ Hr]|(_ & Hnone & _ & Hn1 & Hv1)].
  { rewrite Hr. apply frame_refl. }
  destruct (Service_UpdateConfig service merged) as [s1 [e|]]; [done|].
  cbn [fst snd] in Hn1, Hv1 |- *.
  assert (H1 : same_hosts service s1) by done.
  pose proof (foldl_update_backend_hosts
                (default [] (ServiceConfig.Backends merged))
                (s1, backend_map (default [] (ServiceConfig.Backends (Service_config service))),
                 false)) as Hb.
  destruct (foldl update_backend _ _) as [[s2 cur] p]. cbn [fst snd] in Hb |- *.
  assert (H2 : same_hosts service s2) by (by etrans).
  destruct p; cbn [fst snd].
  { apply frame_put. intros a Ha. right. by eapply owned_same. }
  pose proof (foldl_remove_hosts (range_order env (BackendConfig.Name <$> cur)) s2) as Hrm.
  set (s3 := foldl _ s2 _) in *.
  assert (H3 : same_hosts service s3) by (by etrans).
  pose proof (Equal_heap (heap w) (Service_config service) merged) as Hm.
  change (ServiceConfig.VirtualHosts (Service_config service))
    with (Service.VirtualHosts service) in Hm.
  destruct (ServiceConfig.Equal (heap w) (Service_config service) merged) as [same m].
  cbn [snd] in Hm.
  assert (Hown : ∀ a, array_in (Service.VirtualHosts service) a → owned w a).
  { intros a (r & Hr & E). by exists k, service, r. }
  assert (Fm : frame w (with_heap w m) sl).
  { apply frame_heap.
    - rewrite Hm. by rewrite !length_sort_Strings.
    - intros a _ Ho. rewrite Hm. rewrite !sort_Strings_lookup_ne; [done|..];
        intros H; by apply Ho, Hown. }
  destruct same; cbn [fst snd].
  { eapply frame_trans; [exact Fm|].
    apply (frame_put (with_heap w m)). intros a Ha. right.
    by eapply (owned_same (with_heap w m)). }
  set (s4 := if decide (Service.errPagesCfg s3 ≠ ServiceConfig.ErrorPages merged)
             then Service.set_errPagesCfg s3 (ServiceConfig.ErrorPages merged) else s3).
  assert (H4 : same_hosts service s4).
  { unfold s4. by destruct (decide _). }
  assert (Hmerged : ∀ a, array_in (ServiceConfig.VirtualHosts merged) a →
                         array_in sl a ∨ owned w a).
  { intros a Ha. rewrite Hmv in Ha. fold sl in Ha. destruct sl as [r|]; [by left|].
    right. by apply Hown. }
  pose proof (filterEmpty_frame m (ServiceConfig.VirtualHosts merged)) as (Hl & Hfm & Hfh).
  destruct (filterEmpty m (ServiceConfig.VirtualHosts merged)) as [hosts m'].
  cbn [fst snd] in *.
  set (w4 := mkWorld (<[k := s4]> (svcs w)) (vhosts w) (cfg w) m').
  assert (F4 : frame w w4 sl).
  { eapply frame_trans; [exact Fm|]. eapply (frame_trans _ (with_heap w m')).
    - apply (frame_heap (with_heap w m)); [done|]. intros a Hsl Ho. apply Hfm.
      intros Ha. destruct (Hmerged a Ha) as [?|(j & t & r & ?)]; [done|].
      apply Ho. by exists j, t, r.
    - apply (frame_put (with_heap w m')). intros a Ha. right.
      by eapply (owned_same (with_heap w m')). }
  eapply frame_trans; [exact F4|].
  assert (Hown4 : ∀ a, owned w a → owned w4 a).
  { intros a (j & t & r & Hj & Hr & E). destruct (decide (k = j)) as [<-|Hne].
    - exists k, s4, r. simpl. rewrite lookup_insert_eq. split; [done|]. split; [|done].
      rewrite (proj2 H4). congruence.
    - exists j, t, r. simpl. by rewrite lookup_insert_ne. }
  apply updateVHosts_frame.
  - intros a Ha. apply Hown4. by eapply owned_same.
  - intros a Ha. destruct (Hmerged a (Hfh a Ha)); [by left|]. right. by apply Hown4.
Qed.

Lemma fresh_frame (w w' : World) (sl sl' : option StrSlice.t) :
  frame w w' sl → apart sl sl' → fresh w sl' → fresh w' sl'.
Proof.
  intros (Hl & Hm & Ho) Hap Hf. destruct sl' as [r'|]; [|done].
  destruct Hf as (Hb & Hfar & Hnd & Hub).
  assert (Hnsl : ¬ array_in sl (StrSlice.arr r')).
  { intros (r & Hr & E). by apply (Hap r r' Hr eq_refl). }
  assert (Hno : ¬ owned w (StrSlice.arr r')).
  { intros (k & s & r & Hk & Hr & E). by apply (Hfar k s r Hk Hr). }
  assert (Hel : elems (heap w') (Some r') = elems (heap w) (Some r')).
  { unfold elems, array_of. by rewrite Hm. }
  split; [lia|]. split; [|by rewrite Hel].
  intros k s r Hk Hr E.
  destruct (Ho (StrSlice.arr r')) as [?|?]; [by exists k, s, r|done|done].
Qed.

(** ** Decoding a request *)

Lemma Inv_cfg (w : World) (c : Config.t) :
  Inv w → Inv (mkWorld (svcs w) (vhosts w) c (heap w)).
Proof. intros []. by split. Qed.

Lemma decode_fresh (w : World) (c : ServiceConfig.t * option (list string)) :
  Inv w → clean c.2 →
  let r := decode (heap w) c in
  Inv (with_heap w r.2) ∧
  fresh (with_heap w r.2) (ServiceConfig.VirtualHosts r.1) ∧
  (length (heap w) ≤ length r.2)%nat ∧
  (∀ a, (a < length (heap w))%nat → r.2 !! a = heap w !! a) ∧
  (∀ rr, ServiceConfig.VirtualHosts r.1 = Some rr →
         StrSlice.arr rr = length (heap w) ∧ (length (heap w) < length r.2)%nat).
Proof.
  intros HI [Hnd Hub]. destruct c as [c [l|]]; unfold decode; simpl in *.
  - split; [by apply Inv_alloc|]. split; [|split; [|split]].
    + rewrite length_app. simpl. split; [lia|]. split.
      * intros k s r' Hk Hr'. pose proof (inv_bound w HI k s r' Hk Hr'). lia.
      * pose proof (elems_alloc (heap w) l) as E. unfold elems in E. simpl in E.
        rewrite E. by split.
    + rewrite length_app. lia.
    + intros a Ha. by rewrite lookup_app_l.
    + intros rr [= <-]. simpl. rewrite length_app. simpl. lia.
  - replace (with_heap w (heap w)) with w by (by destruct w).
    split; [done|]. split; [done|]. split; [done|]. split; done.
Qed.

Lemma fresh_extend (w : World) (m' : arrays) (sl : option StrSlice.t) :
  (length (heap w) ≤ length m')%nat →
  (∀ a, (a < length (heap w))%nat → m' !! a = heap w !! a) →
  fresh w sl → fresh (with_heap w m') sl.
Proof.
  intros Hl Hm Hf. destruct sl as [r|]; [|done]. destruct Hf as (Hb & Hfar & Hc).
  split; [simpl; lia|]. split; [done|].
  assert (E : elems m' (Some r) = elems (heap w) (Some r)).
  { unfold elems, array_of. by rewrite Hm. }
  simpl. unfold elems, array_of in *. simpl in *. by rewrite Hm.
Qed.

Lemma decode_all_fresh (cs : list (ServiceConfig.t * option (list string))) (w : World) :
  Inv w → Forall (λ c, clean c.2) cs →
  let r := decode_all (heap w) cs in
  Inv (with_heap w r.2) ∧
  Forall (λ c, fresh (with_heap w r.2) (ServiceConfig.VirtualHosts c)) r.1 ∧
  all_apart r.1 ∧
  (length (heap w) ≤ length r.2)%nat ∧
  (∀ a, (a < length (heap w))%nat → r.2 !! a = heap w !! a) ∧
  Forall (λ c, ∀ rr, ServiceConfig.VirtualHosts c = Some rr →
                     (length (heap w) ≤ StrSlice.arr rr)%nat) r.1.
Proof.
  revert w. induction cs as [|c cs IH]; intros w HI Hcl; simpl.
  { replace (with_heap w (heap w)) with w by (by destruct w).
    split; [done|]. split; [done|]. split; [done|]. split; [done|]. split; done. }
  apply Forall_cons in Hcl as [Hc Hcs].
  destruct (decode_fresh w c HI Hc) as (HI1 & Hf1 & Hl1 & Hm1 & Ha1).
  destruct (decode (heap w) c) as [c1 m1]. cbn [fst snd] in *.
  destruct (IH (with_heap w m1) HI1 Hcs) as (HI2 & Hf2 & Hap2 & Hl2 & Hm2 & Ha2).
  cbn [heap with_heap] in *.
  destruct (decode_all m1 cs) as [l m2]. cbn [fst snd] in *.
  split; [done|]. split; [|split; [|split; [|split]]].
  - apply Forall_cons. split; [|done].
    apply (fresh_extend (with_heap w m1) m2); done.
  - split; [|done]. eapply Forall_impl; [exact Ha2|]. simpl.
    intros c' Hc' r r' Hr Hr'. destruct (Ha1 r Hr) as [E Hlt].
    specialize (Hc' r' Hr'). lia.
  - lia.
  - intros a Ha. rewrite Hm2 by lia. by apply Hm1.
  - apply Forall_cons. split.
    + intros rr Hr. destruct (Ha1 rr Hr). lia.
    + eapply Forall_impl; [exact Ha2|]. simpl. intros c' Hc' rr Hr.
      specialize (Hc' rr Hr). lia.
Qed.

(** ** UpdateConfig keeps the invariant *)

Lemma update_service_step (env : Env) (st : World * list error * bool) (c : ServiceConfig.t) :
  Inv st.1.1 → fresh st.1.1 (ServiceConfig.VirtualHosts c) →
  Inv (update_service env st c).1.1 ∧
  frame st.1.1 (update_service env st c).1.1 (ServiceConfig.VirtualHosts c).
Proof.
  destruct st as [[w errs] p]. simpl. intros HI Hf. unfold update_service.
  destruct p; [split; [done|apply frame_refl]|].
  unfold GetService.
  destruct (svcs w !! ServiceConfig.Name c) eqn:Hk.
  - pose proof (UpdateService_Inv env w c HI Hf) as H1.
    pose proof (UpdateService_frame env w c) as H2.
    destruct (UpdateService env w c) as [w' []]; done.
  - pose proof (AddService_Inv env w c HI Hf) as H1.
    pose proof (AddService_frame env w c) as H2.
    destruct (AddService env w c) as [w' []]; done.
Qed.

Lemma foldl_update_service_Inv (env : Env) (l : list ServiceConfig.t)
    (st : World * list error * bool) :
  Inv st.1.1 →
  Forall (λ c, fresh st.1.1 (ServiceConfig.VirtualHosts c)) l →
  all_apart l →
  Inv (foldl (update_service env) st l).1.1.
Proof.
  revert st. induction l as [|c l IH]; intros st HI Hf Hap; simpl; [done|].
  apply Forall_cons in Hf as [Hc Hl]. destruct Hap as [Hcl Hap].
  destruct (update_service_step env st c HI Hc) as [HI' Hfr].
  apply IH; [done| |done].
  apply Forall_forall. intros c' Hin.
  eapply fresh_frame; [exact Hfr| |].
  - by eapply Forall_forall in Hcl.
  - by eapply Forall_forall in Hl.
Qed.

Lemma UpdateConfig_Inv (env : Env) (w : World) (c : Config.t) :
  Inv w →
  Forall (λ c, fresh w (ServiceConfig.VirtualHosts c)) (Config.Services c) →
  all_apart (Config.Services c) →
  Inv (UpdateConfig env w c).1.
Proof.
  intros HI Hf Hap. unfold UpdateConfig.
  pose proof (foldl_update_service_Inv env (Config.Services c)
                (mkWorld (svcs w) (vhosts w) (update_globals env (cfg w) c) (heap w), [], false)
                (Inv_cfg w _ HI) Hf Hap) as H.
  destruct (foldl _ _ _) as [[w' errs] p]. cbn [fst] in H.
  destruct p; [done|]. by case_decide.
Qed.

(** ** Every reachable registry satisfies the invariant *)

Lemma run_Inv (env : Env) (w : World) (call : Call) :
  Inv w → clean_call call → Inv (run env w call).1.
Proof.
  intros HI Hc. destruct call as [c|c|name|svc b|svc b|c services]; simpl in *.
  - destruct (decode_fresh w c HI Hc) as (HI1 & Hf1 & _).
    destruct (decode (heap w) c) as [c1 m1]. cbn [fst snd] in *.
    pose proof (AddService_Inv env _ c1 HI1 Hf1) as H.
    by destruct (AddService env _ c1).
  - destruct (decode_fresh w c HI Hc) as (HI1 & Hf1 & _).
    destruct (decode (heap w) c) as [c1 m1]. cbn [fst snd] in *.
    pose proof (UpdateService_Inv env _ c1 HI1 Hf1) as H.
    by destruct (UpdateService env _ c1).
  - pose proof (RemoveService_Inv w name HI) as H. by destruct (RemoveService w name).
  - pose proof (AddBackend_Inv w svc b HI) as H. by destruct (AddBackend w svc b).
  - pose proof (RemoveBackend_Inv w svc b HI) as H. by destruct (RemoveBackend w svc b).
  - destruct (decode_all_fresh services w HI Hc) as (HI1 & Hf1 & Hap & _).
    destruct (decode_all (heap w) services) as [l m]. cbn [fst snd] in *.
    pose proof (UpdateConfig_Inv env (with_heap w m) (with_Services c l) HI1 Hf1 Hap) as H.
    by destruct (UpdateConfig env _ _).
Qed.

Lemma reachable_Inv (w : World) : reachable w → Inv w.
Proof.
  induction 1 as [|env w call _ IH Hc]; [apply Inv_initial|by apply run_Inv].
Qed.



Lemma clean_one (h : string) : blank h = false → clean (Some [h]).
Proof.
  intros Hb. split; simpl.
  - apply NoDup_singleton.
  - by intros ? ->%list_elem_of_singleton.
Qed.


(** * Further properties *)

(** ** filterEmpty *)

Lemma filterEmpty_step_inv (a0 a : list string) (removed i : nat) :
  (i < length a0)%nat → length a = length a0 → (removed ≤ i)%nat →
  take (i - removed) a = named (take i a0) →
  drop i a = drop i a0 →
  let st := filterEmpty_step (a, removed) i in
  length st.1 = length a0 ∧ (st.2 ≤ S i)%nat ∧
  take (S i - st.2) st.1 = named (take (S i) a0) ∧
  drop (S i) st.1 = drop (S i) a0.
Proof.
  intros Hi Hlen Hrem Htake Hdrop.
  destruct (lookup_lt_is_Some_2 a0 i Hi) as [x Hx].
  assert (Hax : a !! i = Some x).
  { rewrite <- (Nat.add_0_r i), <- lookup_drop, Hdrop, lookup_drop, Nat.add_0_r. done. }
  unfold filterEmpty_step. rewrite Hax. simpl.
  set (a' := if decide (0 < removed)%nat then <[(i - removed)%nat := x]> a else a).
  assert (Hlen' : length a' = length a0).
  { unfold a'. case_decide; [by rewrite length_insert|done]. }
  assert (Ha'x : a' !! i = Some x).
  { unfold a'. case_decide; [|done]. rewrite list_lookup_insert_ne by lia. done. }
  assert (Hpre : take (i - removed) a' = take (i - removed) a).
  { unfold a'. case_decide; [|done]. by rewrite take_insert_ge by lia. }
  assert (Hat : a' !! (i - removed)%nat = Some x).
  { unfold a'. case_decide.
    - apply list_lookup_insert_eq. lia.
    - replace (i - removed)%nat with i by lia. done. }
  assert (Hdrop' : drop (S i) a' = drop (S i) a0).
  { assert (Hd : drop (S i) a = drop (S i) a0).
    { replace (S i) with (i + 1)%nat by lia. by rewrite <- !drop_drop, Hdrop. }
    unfold a'. case_decide; [|done]. by rewrite drop_insert_lt by lia. }
  rewrite Ha'x. simpl.
  rewrite (take_S_r a0 i x Hx). unfold named. rewrite filter_app. fold (named (take i a0)).
  destruct (blank x) eqn:Hb; simpl.
  - split; [done|]. split; [lia|]. split; [|done].
    rewrite filter_cons_False by (by rewrite Hb). rewrite filter_nil, app_nil_r.
    replace (i - removed)%nat with (i - removed)%nat by done.
    rewrite <- Htake, <- Hpre. f_equal.
  - split; [done|]. split; [lia|]. split; [|done].
    rewrite filter_cons_True by done. rewrite filter_nil.
    replace (S i - removed)%nat with (S (i - removed)) by lia.
    rewrite (take_S_r a' (i - removed) x Hat). by rewrite Hpre, Htake.
Qed.

Lemma filterEmpty_loop_inv (a0 : list string) (n : nat) :
  (n ≤ length a0)%nat →
  let st := foldl filterEmpty_step (a0, O) (seq 0 n) in
  length st.1 = length a0 ∧ (st.2 ≤ n)%nat ∧
  take (n - st.2) st.1 = named (take n a0) ∧
  drop n st.1 = drop n a0.
Proof.
  induction n as [|n IH]; intros Hn.
  { simpl. by repeat split. }
  rewrite seq_S, foldl_app. simpl.
  destruct IH as (H1 & H2 & H3 & H4); [lia|].
  destruct (foldl filterEmpty_step (a0, O) (seq 0 n)) as [a removed]. simpl in *.
  by apply filterEmpty_step_inv.
Qed.

(** Seen through the slice it returns, [filterEmpty] leaves the names that
    are not blank, in their order. *)
Lemma filterEmpty_elems (m : arrays) (sl : option StrSlice.t) :
  in_array m sl →
  elems (filterEmpty m sl).2 (filterEmpty m sl).1 = named (elems m sl).
Proof.
  intros Hin. destruct sl as [r|]; [|done].
  specialize (Hin r eq_refl). unfold filterEmpty, filterEmpty_loop.
  set (a0 := elems m (Some r)).
  assert (Hlen0 : length a0 = StrSlice.len r).
  { unfold a0, elems. rewrite length_take. lia. }
  pose proof (filterEmpty_loop_inv a0 (length a0) (le_n _)) as (H1 & H2 & H3 & _).
  destruct (foldl filterEmpty_step (a0, O) (seq 0 (length a0))) as [a removed].
  cbn [fst snd] in *. rewrite firstn_all in H3. rewrite Hlen0 in H3.
  rewrite <- H3. unfold elems, store, array_of. cbn [StrSlice.arr StrSlice.len].
  destruct (m !! StrSlice.arr r) as [arr0|] eqn:Ha.
  - rewrite list_lookup_insert_eq by (by eapply lookup_lt_Some). simpl.
    rewrite take_app_le by lia. done.
  - rewrite list_insert_ge by (by apply lookup_ge_None). rewrite Ha. simpl.
    unfold array_of in Hin. rewrite Ha in Hin. simpl in Hin.
    destruct a; [by rewrite !take_nil|simpl in *; lia].
Qed.

(** X1: for a slice that lies within its array, [filterEmpty] returns a
    slice on the same array whose elements are the names of the input that
    are not blank, in their order; the result is nil exactly when the input
    is; no array is added and the other arrays are untouched. *)
Theorem filterEmpty_keeps_named (m : arrays) (sl : option StrSlice.t) :
  in_array m sl →
  let r := filterEmpty m sl in
  elems r.2 r.1 = named (elems m sl) ∧
  length r.2 = length m ∧
  (r.1 = None ↔ sl = None) ∧
  (∀ a, (∀ r0, sl = Some r0 → a ≠ StrSlice.arr r0) → r.2 !! a = m !! a).
Proof.
  intros Hin r. split; [by apply filterEmpty_elems|].
  subst r. destruct sl as [r|]; [|by repeat split].
  unfold filterEmpty. destruct (filterEmpty_loop _) as [a removed]. cbn [fst snd].
  split; [|split].
  - unfold store. by rewrite length_insert.
  - split; done.
  - intros j Hj. unfold store. rewrite list_lookup_insert_ne; [done|].
    intros E. by apply (Hj r).
Qed.

Lemma filterEmpty_keeps_named_witness :
  let m : arrays := [["a.example.com"; " "; "b.example.com"; ""]] in
  let r := filterEmpty m (Some (StrSlice.mk 0 4)) in
  elems r.2 r.1 = ["a.example.com"; "b.example.com"].
Proof.
  intros m r.
  destruct (filterEmpty_keeps_named m (Some (StrSlice.mk 0 4))) as [H _].
  { intros r0 [= <-]. simpl. lia. }
  exact H.
Defined.

(** ** The backends of a service *)

Lemma backend_index_None (name : string) (bs : list Backend.t) :
  backend_index name bs = None ↔ name ∉ Backend.Name <$> bs.
Proof.
  induction bs as [|b bs IH]; simpl.
  { split; [intros _; apply not_elem_of_nil|done]. }
  case_decide as E.
  - split; [done|]. intros H. exfalso. apply H. rewrite E. by left.
  - rewrite fmap_None, IH, not_elem_of_cons. split; [by auto|]. by intros [_ ?].
Qed.

Lemma backend_index_split (name : string) (bs : list Backend.t) (i : nat) :
  backend_index name bs = Some i →
  ∃ l1 x l2, bs = l1 ++ x :: l2 ∧ length l1 = i ∧ Backend.Name x = name ∧
             name ∉ Backend.Name <$> l1.
Proof.
  revert i. induction bs as [|b bs IH]; intros i; simpl; [done|].
  case_decide as E.
  - intros [= <-]. exists [], b, bs. repeat split; [done|apply not_elem_of_nil].
  - destruct (backend_index name bs) as [j|] eqn:Hj; simpl; [|done].
    intros [= <-]. destruct (IH j eq_refl) as (l1 & x & l2 & -> & Hl & Hx & Hn).
    exists (b :: l1), x, l2. simpl. repeat split; [by rewrite Hl|done|].
    rewrite not_elem_of_cons. by split.
Qed.

Lemma backend_index_at (name : string) (l1 l2 : list Backend.t) (x : Backend.t) :
  Backend.Name x = name → name ∉ Backend.Name <$> l1 →
  backend_index name (l1 ++ x :: l2) = Some (length l1).
Proof.
  intros Hx. induction l1 as [|b l1 IH]; simpl.
  - intros _. by rewrite decide_True.
  - rewrite not_elem_of_cons. intros [Hb Hl]. rewrite decide_False by done.
    by rewrite IH.
Qed.

Lemma Service_get_None (s : Service.t) (name : string) :
  Service_get s name = None ↔ name ∉ backend_names s.
Proof.
  unfold Service_get, backend_names. rewrite <- backend_index_None.
  destruct (backend_index name (Service.Backends s)) as [i|] eqn:Hi; simpl; [|done].
  apply backend_index_split in Hi as (l1 & x & l2 & -> & <- & _).
  rewrite lookup_app_r, Nat.sub_diag by done. done.
Qed.

Lemma Service_get_Some (s : Service.t) (name : string) (b : Backend.t) :
  NoDup (backend_names s) →
  Service_get s name = Some b ↔ b ∈ Service.Backends s ∧ Backend.Name b = name.
Proof.
  unfold Service_get, backend_names. intros Hnd. split.
  - destruct (backend_index name (Service.Backends s)) as [i|] eqn:Hi; simpl; [|done].
    apply backend_index_split in Hi as (l1 & x & l2 & E & <- & Hx & _).
    rewrite E, lookup_app_r, Nat.sub_diag by done. intros [= <-]. split; [|done].
    apply elem_of_app. right. by left.
  - intros [Hin Hb].
    apply list_elem_of_split in Hin as (l1 & l2 & E). rewrite E in Hnd |- *.
    rewrite fmap_app, fmap_cons in Hnd. apply NoDup_app in Hnd as (_ & Hdis & _).
    rewrite backend_index_at; [|done|].
    + simpl. by rewrite lookup_app_r, Nat.sub_diag.
    + intros Hin. apply (Hdis name Hin). rewrite <- Hb. by left.
Qed.

Lemma filter_name_fresh (name : string) (l : list Backend.t) :
  name ∉ Backend.Name <$> l → filter (λ b, Backend.Name b ≠ name) l = l.
Proof.
  induction l as [|b l IH]; simpl; [done|]. rewrite not_elem_of_cons. intros [Hb Hl].
  rewrite filter_cons_True by done. by rewrite IH.
Qed.

Lemma filter_name_split (name : string) (l1 l2 : list Backend.t) (x : Backend.t) :
  Backend.Name x = name → NoDup (Backend.Name <$> l1 ++ x :: l2) →
  filter (λ b, Backend.Name b ≠ name) (l1 ++ x :: l2) = l1 ++ l2.
Proof.
  intros Hx Hnd. rewrite fmap_app, fmap_cons in Hnd.
  apply NoDup_app in Hnd as (_ & Hdis & Hnd2). apply NoDup_cons in Hnd2 as [Hx2 _].
  rewrite filter_app, filter_cons_False by (intros H; by apply H).
  rewrite !filter_name_fresh; [done|by rewrite <- Hx|].
  intros Hin. apply (Hdis name Hin). rewrite <- Hx. by left.
Qed.

Lemma names_filter (name : string) (l : list Backend.t) :
  Backend.Name <$> filter (λ c, Backend.Name c ≠ name) l
  = filter (λ n, n ≠ name) (Backend.Name <$> l).
Proof.
  induction l as [|b bs IH]; [done|].
  rewrite fmap_cons. destruct (decide (Backend.Name b ≠ name)).
  - rewrite !filter_cons_True by done. by rewrite fmap_cons, IH.
  - by rewrite !filter_cons_False by done.
Qed.

(** [add] leaves the new backend and the backends of the other names. *)
Lemma Service_add_perm (s s' : Service.t) (b : Backend.t) :
  Service_add s b = Some s' →
  NoDup (backend_names s) →
  Service.Backends s' ≡ₚ
    adopted s b :: filter (λ c, Backend.Name c ≠ Backend.Name b) (Service.Backends s).
Proof.
  unfold Service_add. fold (adopted s b).
  destruct (network_mismatch s (adopted s b)); [|done]. cbn [Backend.Name adopted].
  intros Hadd Hnd. unfold backend_names in *.
  destruct (backend_index (Backend.Name b) (Service.Backends s)) as [i|] eqn:Hi.
  - injection Hadd as <-. cbn [Service.Backends Service.set_Backends].
    apply backend_index_split in Hi as (l1 & x & l2 & E & <- & Hx & Hn).
    rewrite E in Hnd |- *. rewrite filter_name_split by done.
    rewrite insert_app_r_alt, Nat.sub_diag by done. simpl.
    by rewrite Permutation_middle.
  - injection Hadd as <-. cbn [Service.Backends Service.set_Backends].
    apply backend_index_None in Hi.
    rewrite filter_name_fresh by done. by rewrite Permutation_app_comm.
Qed.

Lemma Service_add_NoDup (s s' : Service.t) (b : Backend.t) :
  Service_add s b = Some s' → NoDup (backend_names s) → NoDup (backend_names s').
Proof.
  intros Hadd Hnd. unfold backend_names.
  rewrite (Service_add_perm s s' b Hadd Hnd). rewrite fmap_cons, names_filter.
  apply NoDup_cons. split; [|by apply NoDup_filter].
  rewrite list_elem_of_filter. by intros [? _].
Qed.

(** [remove] leaves the backends of the other names. *)
Lemma Service_remove_perm (s : Service.t) (name : string) :
  NoDup (backend_names s) →
  Service.Backends (Service_remove s name).1
  ≡ₚ filter (λ c, Backend.Name c ≠ name) (Service.Backends s).
Proof.
  unfold Service_remove, backend_names. intros Hnd.
  destruct (backend_index name (Service.Backends s)) as [i|] eqn:Hi; cbn [fst snd].
  - apply backend_index_split in Hi as (l1 & x & l2 & E & <- & Hx & Hn).
    cbn [Service.Backends Service.set_Backends]. rewrite E in Hnd |- *.
    rewrite filter_name_split by done.
    destruct l2 as [|y l2 _] using rev_ind.
    + rewrite length_app. simpl. replace (length l1 + 1 - 1)%nat with (length l1) by lia.
      rewrite lookup_app_r, Nat.sub_diag by done. simpl.
      rewrite insert_app_r_alt, Nat.sub_diag by done. simpl.
      rewrite take_app_length. by rewrite app_nil_r.
    + replace (l1 ++ x :: l2 ++ [y]) with ((l1 ++ x :: l2) ++ [y])
        by (by rewrite <- app_assoc).
      set (front := l1 ++ x :: l2).
      assert (Hlen : (length (front ++ [y]) - 1)%nat = length front).
      { rewrite length_app. simpl. lia. }
      rewrite Hlen. rewrite lookup_app_r, Nat.sub_diag by done. simpl.
      assert (Hi : (length l1 < length front)%nat).
      { unfold front. rewrite length_app. simpl. lia. }
      rewrite insert_app_l by done. rewrite take_app_length'
        by (by rewrite length_insert).
      unfold front. rewrite insert_app_r_alt, Nat.sub_diag by done. simpl.
      rewrite <- Permutation_middle. rewrite (Permutation_app_comm l2 [y]). simpl.
      by rewrite <- Permutation_middle.
  - apply backend_index_None in Hi. by rewrite filter_name_fresh.
Qed.

Lemma Service_remove_NoDup (s : Service.t) (name : string) :
  NoDup (backend_names s) → NoDup (backend_names (Service_remove s name).1).
Proof.
  intros Hnd. unfold backend_names.
  rewrite (Service_remove_perm s name Hnd), names_filter. by apply NoDup_filter.
Qed.

Lemma Service_remove_ok (s : Service.t) (name : string) :
  (Service_remove s name).2 = true ↔ name ∈ backend_names s.
Proof.
  unfold Service_remove, backend_names.
  destruct (backend_index name (Service.Backends s)) as [i|] eqn:Hi; cbn [fst snd].
  - apply backend_index_split in Hi as (l1 & x & l2 & E & <- & Hx & Hn).
    split; [intros _|done]. rewrite E, fmap_app, fmap_cons, Hx.
    apply elem_of_app. right. by left.
  - by apply backend_index_None in Hi.
Qed.

(** What [get] finds after a change that kept the backends of the names
    other than [name]. *)
Lemma Service_get_filtered (s s' : Service.t) (name other : string) (front : list Backend.t) :
  NoDup (backend_names s) → NoDup (backend_names s') →
  Service.Backends s' ≡ₚ front ++ filter (λ c, Backend.Name c ≠ name) (Service.Backends s) →
  (∀ c, c ∈ front → Backend.Name c = name) →
  other ≠ name → Service_get s' other = Service_get s other.
Proof.
  intros Hnd Hnd' Hp Hfront Hne. destruct (Service_get s other) as [c|] eqn:Hc.
  - apply Service_get_Some in Hc as [Hin Hn]; [|done].
    apply Service_get_Some; [done|]. split; [|done]. rewrite Hp.
    apply elem_of_app. right. apply list_elem_of_filter. split; [congruence|done].
  - apply Service_get_None in Hc. apply Service_get_None.
    unfold backend_names in *. rewrite Hp. rewrite fmap_app, names_filter.
    rewrite elem_of_app, list_elem_of_filter. intros [Hin|[_ Hin]]; [|done].
    apply list_elem_of_fmap in Hin as (c & -> & Hin). by apply Hne, Hfront.
Qed.

(** ** Service.add *)

(** X2: on a service whose backends have distinct names, [add] leaves
    distinct names; the backends are then the new one, marked up and with the
    timeouts and the check interval of the service, and the former backends
    of the other names; [get] finds the new backend under its name and
    finds under any other name what it found before. *)
Theorem Service_add_installs (s s' : Service.t) (b : Backend.t) :
  Service_add s b = Some s' →
  NoDup (backend_names s) →
  NoDup (backend_names s') ∧
  Service.Backends s' ≡ₚ
    adopted s b :: filter (λ c, Backend.Name c ≠ Backend.Name b) (Service.Backends s) ∧
  Service_get s' (Backend.Name b) = Some (adopted s b) ∧
  (∀ name, name ≠ Backend.Name b → Service_get s' name = Service_get s name).
Proof.
  intros Hadd Hnd.
  pose proof (Service_add_perm s s' b Hadd Hnd) as Hp.
  pose proof (Service_add_NoDup s s' b Hadd Hnd) as Hnd'.
  split; [done|]. split; [done|]. split.
  - apply Service_get_Some; [done|]. split; [|done]. rewrite Hp. by left.
  - intros name Hne.
    apply (Service_get_filtered s s' (Backend.Name b) name [adopted s b]); try done.
    by intros c ->%list_elem_of_singleton.
Qed.

Lemma Service_add_installs_witness :
  let b := Backend.mk "b1" "10.0.0.9:80" "tcp" "" 5 0 false 0 0 0 in
  ∃ s', Service_add weighted_service b = Some s' ∧
        backend_names s' = ["b0"; "b1"; "b2"] ∧
        (Backend.Addr <$> Service_get s' "b1") = Some "10.0.0.9:80".
Proof.
  intros b.
  destruct (Service_add weighted_service b) as [s'|] eqn:Hadd; [|by vm_compute in Hadd].
  exists s'. split; [done|].
  destruct (Service_add_installs _ _ _ Hadd) as (_ & _ & Hget & _).
  { apply (bool_decide_unpack _). by vm_compute. }
  split.
  - vm_compute in Hadd. injection Hadd as <-. by vm_compute.
  - simpl in Hget. by rewrite Hget.
Defined.

(** ** Service.remove *)

(** X3: [remove] returns true exactly when a backend of the name is there.
    On a service whose backends have distinct names it leaves the backends of
    the other names, still distinct; [get] then finds nothing under the name
    and finds under any other name what it found before. *)
Theorem Service_remove_removes (s : Service.t) (name : string) :
  let r := Service_remove s name in
  (r.2 = true ↔ name ∈ backend_names s) ∧
  (NoDup (backend_names s) →
   Service.Backends r.1 ≡ₚ filter (λ c, Backend.Name c ≠ name) (Service.Backends s) ∧
   NoDup (backend_names r.1) ∧
   Service_get r.1 name = None ∧
   (∀ other, other ≠ name → Service_get r.1 other = Service_get s other)).
Proof.
  intros r. split; [apply Service_remove_ok|]. intros Hnd.
  pose proof (Service_remove_perm s name Hnd) as Hp.
  pose proof (Service_remove_NoDup s name Hnd) as Hnd'. fold r in Hp, Hnd'.
  split; [done|]. split; [done|]. split.
  - apply Service_get_None. unfold backend_names. rewrite Hp, names_filter.
    rewrite list_elem_of_filter. by intros [? _].
  - intros other Hne.
    apply (Service_get_filtered s r.1 name other []); try done.
    by intros c ?%not_elem_of_nil.
Qed.

Lemma Service_remove_removes_witness :
  backend_names (Service_remove weighted_service "b0").1 = ["b2"; "b1"] ∧
  Service_get (Service_remove weighted_service "b0").1 "b0" = None.
Proof.
  split; [by vm_compute|].
  destruct (Service_remove_removes weighted_service "b0") as [_ H].
  destruct H as (_ & _ & Hget & _); [|exact Hget].
  apply (bool_decide_unpack _). by vm_compute.
Defined.

(** ** add and remove, one after the other *)

(** X4: [add] of a backend whose name is new puts it at the end of the
    list, and [remove] of that name gives back the service as it was. *)
Theorem Service_add_then_remove (s s' : Service.t) (b : Backend.t) :
  Service_add s b = Some s' →
  Backend.Name b ∉ backend_names s →
  Service.Backends s' = Service.Backends s ++ [adopted s b] ∧
  Service_remove s' (Backend.Name b) = (s, true).
Proof.
  unfold Service_add. fold (adopted s b).
  destruct (network_mismatch s (adopted s b)); [|done]. cbn [Backend.Name adopted].
  intros Hadd Hfresh. apply backend_index_None in Hfresh. rewrite Hfresh in Hadd.
  injection Hadd as <-. split; [done|].
  unfold Service_remove. cbn [Service.Backends Service.set_Backends].
  rewrite (backend_index_at (Backend.Name b) (Service.Backends s) [] (adopted s b))
    by (done || by apply backend_index_None).
  assert (Hlen : (length (Service.Backends s ++ [adopted s b]) - 1)%nat
                 = length (Service.Backends s)).
  { rewrite length_app. simpl. lia. }
  rewrite Hlen, lookup_app_r, Nat.sub_diag by done. simpl.
  rewrite insert_app_r_alt, Nat.sub_diag by done. simpl.
  rewrite take_app_length. by destruct s.
Qed.

Lemma Service_add_then_remove_witness :
  let b := Backend.mk "b3" "10.0.0.4:80" "tcp" "" 1 0 false 0 0 0 in
  ∃ s', Service_add weighted_service b = Some s' ∧
        Service_remove s' "b3" = (weighted_service, true).
Proof.
  intros b.
  destruct (Service_add weighted_service b) as [s'|] eqn:Hadd; [|by vm_compute in Hadd].
  exists s'. split; [done|].
  apply (Service_add_then_remove weighted_service s' b Hadd).
  apply (bool_decide_unpack _). by vm_compute.
Defined.

(** ** The counters of ServeHTTP *)


Lemma wrap64_up_down (z : Z) : in_int64 z → wrap64 (wrap64 (z + 1) - 1) = z.
Proof.
  intros H. unfold wrap64.
  replace ((z + 1 + 2 ^ 63) mod 2 ^ 64 - 2 ^ 63 - 1 + 2 ^ 63)
    with ((z + 1 + 2 ^ 63) mod 2 ^ 64 - 1) by lia.
  rewrite Zminus_mod_idemp_l.
  replace (z + 1 + 2 ^ 63 - 1) with (z + 2 ^ 63) by lia.
  unfold in_int64 in H. rewrite Z.mod_small; lia.
Qed.

Lemma Service_next_counters (s : Service.t) :
  Service.HTTPConns (Service_next s).1 = Service.HTTPConns s ∧
  Service.HTTPActive (Service_next s).1 = Service.HTTPActive s.
Proof.
  unfold Service_next, roundRobin, leastConn.
  destruct (Service.next s); [|done].
  destruct (live s); [done|]. by case_match.
Qed.

Lemma ServeHTTP_counters (errPage : option ErrorPage) (s : Service.t) (r : Request.t) :
  in_int64 (Service.HTTPActive s) →
  Service.HTTPActive (Service_ServeHTTP errPage s r).1 = Service.HTTPActive s ∧
  Service.HTTPConns (Service_ServeHTTP errPage s r).1 = wrap64 (Service.HTTPConns s + 1).
Proof.
  intros Hin. unfold Service_ServeHTTP.
  set (s1 := Service.set_HTTP s _ _).
  assert (H1 : Service.HTTPActive s1 = wrap64 (Service.HTTPActive s + 1)) by done.
  assert (H2 : Service.HTTPConns s1 = wrap64 (Service.HTTPConns s + 1)) by done.
  assert (Hleave : ∀ t, Service.HTTPActive t = Service.HTTPActive s1 →
                        Service.HTTPConns t = Service.HTTPConns s1 →
            Service.HTTPActive (Service.set_HTTP t (Service.HTTPConns t)
                                  (wrap64 (Service.HTTPActive t - 1)))
            = Service.HTTPActive s ∧
            Service.HTTPConns (Service.set_HTTP t (Service.HTTPConns t)
                                  (wrap64 (Service.HTTPActive t - 1)))
            = wrap64 (Service.HTTPConns s + 1)).
  { intros t Ha Hc. simpl. rewrite Ha, Hc, H1, H2. split; [|done].
    by apply wrap64_up_down. }
  destruct (_ && _); [by apply Hleave|].
  destruct (Service.MaintenanceMode s1); [by apply Hleave|].
  unfold Service_NextAddrs.
  pose proof (Service_next_counters s1) as [Hc Ha].
  destruct (Service_next s1) as [s2 backends]. simpl in Hc, Ha.
  by apply Hleave.
Qed.

(** X5: after [ServeHTTP] the count of active HTTP connections is what it
    was and the count of HTTP connections is one more, whatever the branch
    taken.  In maintenance without the redirect the answer is the 503 with
    the error page, and the position of the round robin has not moved. *)
Theorem ServeHTTP_accounting (errPage : option ErrorPage) (s : Service.t) (r : Request.t) :
  in_int64 (Service.HTTPActive s) →
  let res := Service_ServeHTTP errPage s r in
  Service.HTTPActive res.1 = Service.HTTPActive s ∧
  Service.HTTPConns res.1 = wrap64 (Service.HTTPConns s + 1) ∧
  (Service.MaintenanceMode s = true → Service.HTTPSRedirect s = false →
   res.2 = Unavailable 503 errPage ∧
   Service.lastBackend res.1 = Service.lastBackend s ∧
   Service.lastCount res.1 = Service.lastCount s).
Proof.
  intros Hin res. destruct (ServeHTTP_counters errPage s r Hin) as [Ha Hc].
  split; [done|]. split; [done|].
  intros Hm Hr. unfold res, Service_ServeHTTP. simpl. by rewrite Hr, Hm.
Qed.

Lemma ServeHTTP_accounting_witness :
  let r := Request.mk None ∅ "example.com" "/" in
  Service.HTTPActive (Service_ServeHTTP None redirecting r).1 = 0 ∧
  Service.HTTPConns (Service_ServeHTTP None redirecting r).1 = 1.
Proof.
  intros r.
  destruct (ServeHTTP_accounting None redirecting r) as (Ha & Hc & _); [by vm_compute|].
  split; [exact Ha|exact Hc].
Defined.

(** ** VirtualHost.Service in its order *)

Lemma Service_scan_spec (deref : string → option Service.t) (v : VirtualHost.t)
    (fuel i : nat) :
  length (VirtualHost.services v) ≠ O →
  (∀ name, name ∈ VirtualHost.services v → is_Some (deref name)) →
  match Service_scan deref v fuel i with
  | Some r =>
      ∃ j name s, (i ≤ j < i + fuel)%nat ∧
        VirtualHost.services v
          !! ((VirtualHost.last v + j) mod length (VirtualHost.services v))%nat = Some name ∧
        deref name = Some s ∧ 0 < Service_Available s ∧
        r = (VirtualHost.mk (VirtualHost.Name v) (VirtualHost.services v)
               ((VirtualHost.last v + j) mod length (VirtualHost.services v))%nat,
             Returned (Some name)) ∧
        ∀ j', (i ≤ j' < j)%nat → down_at deref v j'
  | None => ∀ j, (i ≤ j < i + fuel)%nat → down_at deref v j
  end.
Proof.
  intros Hn Hall. revert i. induction fuel as [|fuel IH]; intros i; simpl.
  { intros j Hj. lia. }
  set (n := length (VirtualHost.services v)) in *.
  set (idx := ((VirtualHost.last v + i) mod n)%nat).
  assert (Hidx : (idx < n)%nat) by (apply Nat.mod_upper_bound; done).
  destruct (lookup_lt_is_Some_2 (VirtualHost.services v) idx Hidx) as [name Hname].
  rewrite Hname.
  destruct (Hall name) as [s Hs]; [by eapply list_elem_of_lookup_2|].
  rewrite Hs.
  destruct (decide (0 < Service_Available s)) as [Hup|Hdown].
  - exists i, name, s. repeat split; try done; try lia.
  - assert (Hi : down_at deref v i).
    { intros name' s' Hname' Hs'. fold n idx in Hname'.
      rewrite Hname in Hname'. simplify_eq. lia. }
    specialize (IH (S i)). destruct (Service_scan deref v fuel (S i)) as [r|].
    + destruct IH as (j & name' & s' & Hj & H1 & H2 & H3 & H4 & H5).
      exists j, name', s'. repeat split; try done; try lia.
      intros j' Hj'. destruct (decide (j' = i)) as [->|]; [done|].
      apply H5. lia.
    + intros j Hj. destruct (decide (j = i)) as [->|]; [done|].
      apply IH. lia.
Qed.

(** Every position of the list is met by the loop. *)
Lemma scan_reaches (last n k : nat) :
  (k < n)%nat → ∃ j, (1 ≤ j ≤ n)%nat ∧ ((last + j) mod n)%nat = k.
Proof.
  intros Hk.
  pose proof (Nat.div_mod_eq (last + 1) n) as Hdiv.
  pose proof (Nat.mod_upper_bound (last + 1) n ltac:(lia)) as Hlt.
  set (a := ((last + 1) mod n)%nat) in *. set (q := ((last + 1) / n)%nat) in *.
  destruct (decide (a ≤ k)%nat).
  - exists (1 + (k - a))%nat. split; [lia|].
    replace (last + (1 + (k - a)))%nat with (k + q * n)%nat by lia.
    rewrite Nat.Div0.mod_add. by apply Nat.mod_small.
  - exists (1 + (k + n - a))%nat. split; [lia|].
    replace (last + (1 + (k + n - a)))%nat with (k + (q + 1) * n)%nat by lia.
    rewrite Nat.Div0.mod_add. by apply Nat.mod_small.
Qed.

(** X6: when every service of a virtual host can be read and one of them
    has a backend available, [Service] returns the first available service
    in the order that starts after [last] and wraps around, and sets [last]
    to its position; this holds whatever [last] was. *)
Theorem VirtualHost_Service_next_available
    (deref : string → option Service.t) (v : VirtualHost.t) :
  (∀ name, name ∈ VirtualHost.services v → is_Some (deref name)) →
  (∃ name s, name ∈ VirtualHost.services v ∧ deref name = Some s ∧
             0 < Service_Available s) →
  let n := length (VirtualHost.services v) in
  ∃ j name s, (1 ≤ j ≤ n)%nat ∧
    VirtualHost.services v !! ((VirtualHost.last v + j) mod n)%nat = Some name ∧
    deref name = Some s ∧ 0 < Service_Available s ∧
    VirtualHost_Service deref v =
      (VirtualHost.mk (VirtualHost.Name v) (VirtualHost.services v)
         ((VirtualHost.last v + j) mod n)%nat,
       Returned (Some name)) ∧
    ∀ j', (1 ≤ j' < j)%nat → down_at deref v j'.
Proof.
  intros Hall (name & s & Hin & Hs & Hup) n.
  assert (Hn : n ≠ O).
  { unfold n. destruct (VirtualHost.services v); [by apply not_elem_of_nil in Hin|done]. }
  unfold VirtualHost_Service. fold n. rewrite decide_False by done.
  pose proof (Service_scan_spec deref v n 1 Hn Hall) as Hscan.
  destruct (Service_scan deref v n 1) as [r|].
  - destruct Hscan as (j & name' & s' & Hj & H1 & H2 & H3 & H4 & H5).
    exists j, name', s'. repeat split; try done; lia.
  - exfalso. apply list_elem_of_lookup in Hin as [k Hk].
    destruct (scan_reaches (VirtualHost.last v) n k) as (j & Hj & Hjk).
    { by eapply lookup_lt_Some. }
    specialize (Hscan j ltac:(lia) name s). fold n in Hscan. rewrite Hjk in Hscan.
    specialize (Hscan Hk Hs). lia.
Qed.

Lemma VirtualHost_Service_next_available_witness :
  let deref name :=
    if decide (name = "b") then Some weighted_service
    else Some (Service.set_Backends weighted_service []) in
  VirtualHost_Service deref (VirtualHost.mk "example.com" ["a"; "b"; "c"] 2)
  = (VirtualHost.mk "example.com" ["a"; "b"; "c"] 1, Returned (Some "b")).
Proof.
  intros deref.
  destruct (VirtualHost_Service_next_available deref
              (VirtualHost.mk "example.com" ["a"; "b"; "c"] 2))
    as (j & name & s & Hj & Hname & Hs & Hup & Heq & Hdown).
  - intros name _. unfold deref. case_decide; eauto.
  - exists "b", weighted_service. split; [set_solver|]. split; [done|]. by vm_compute.
  - rewrite Heq. simpl in Hj, Hname, Hdown |- *.
    assert ((j = 1 ∨ j = 2 ∨ j = 3)%nat) as [-> | [-> | ->]] by lia.
    + exfalso. injection Hname as <-. injection Hs as <-. by vm_compute in Hup.
    + by injection Hname as <-.
    + exfalso. by pose proof (Hdown 2%nat ltac:(lia) "b" weighted_service eq_refl eq_refl).
Defined.

(** X7: when no service of a virtual host has a backend available and
    [last] is a position of the list, [Service] returns the service at
    [last] and leaves the virtual host as it was. *)
Theorem VirtualHost_Service_all_down
    (deref : string → option Service.t) (v : VirtualHost.t) :
  (∀ name, name ∈ VirtualHost.services v → is_Some (deref name)) →
  (∀ name s, name ∈ VirtualHost.services v → deref name = Some s →
             Service_Available s ≤ 0) →
  (VirtualHost.last v < length (VirtualHost.services v))%nat →
  ∃ name, VirtualHost.services v !! VirtualHost.last v = Some name ∧
          VirtualHost_Service deref v = (v, Returned (Some name)).
Proof.
  intros Hall Hdown Hlast.
  destruct (lookup_lt_is_Some_2 _ _ Hlast) as [name Hname]. exists name.
  split; [done|]. unfold VirtualHost_Service.
  rewrite decide_False by lia.
  pose proof (Service_scan_spec deref v (length (VirtualHost.services v)) 1
                ltac:(lia) Hall) as Hscan.
  destruct (Service_scan deref v _ 1) as [r|].
  - destruct Hscan as (j & name' & s' & _ & H1 & H2 & H3 & _).
    apply list_elem_of_lookup_2 in H1. specialize (Hdown _ _ H1 H2). lia.
  - by rewrite Hname.
Qed.

Lemma VirtualHost_Service_all_down_witness :
  let deref (name : string) := Some (Service.set_Backends weighted_service []) in
  ∃ name, VirtualHost_Service deref (VirtualHost.mk "example.com" ["a"; "b"] 1)
          = (VirtualHost.mk "example.com" ["a"; "b"] 1, Returned (Some name)).
Proof.
  intros deref.
  destruct (VirtualHost_Service_all_down deref (VirtualHost.mk "example.com" ["a"; "b"] 1))
    as (name & _ & Heq).
  - intros name _. by eexists.
  - intros name s _ [= <-]. by vm_compute.
  - simpl. lia.
  - by exists name.
Defined.

(** ** Add and Remove on a virtual host *)

Lemma remove_first_app_fresh (svc : string) (l : list string) :
  svc ∉ l → remove_first svc (l ++ [svc]) = l.
Proof.
  induction l as [|x l IH]; simpl; intros Hin.
  - by rewrite decide_True.
  - rewrite decide_False by set_solver. f_equal. apply IH. set_solver.
Qed.

Lemma remove_first_fresh (svc : string) (l : list string) :
  svc ∉ l → remove_first svc l = l.
Proof.
  induction l as [|x l IH]; simpl; intros Hin; [done|].
  rewrite decide_False by set_solver. f_equal. apply IH. set_solver.
Qed.

(** X8: on a virtual host that lists no service twice, [Add] keeps the
    list free of repetitions and adds exactly the service; a second [Add]
    changes nothing; [Remove] after [Add] leaves a list without the service,
    and gives back the virtual host itself when the service was new. *)
Theorem VirtualHost_Add_Remove (v : VirtualHost.t) (svc : string) :
  NoDup (VirtualHost.services v) →
  let added := VirtualHost_Add v svc in
  NoDup (VirtualHost.services added) ∧
  (∀ name, name ∈ VirtualHost.services added ↔
           (name = svc ∨ name ∈ VirtualHost.services v)) ∧
  VirtualHost_Add added svc = added ∧
  (svc ∉ VirtualHost.services (VirtualHost_Remove added svc)) ∧
  (svc ∉ VirtualHost.services v → VirtualHost_Remove added svc = v).
Proof.
  intros Hnd added.
  split; [by apply NoDup_Add|].
  split; [intros name; unfold added; rewrite elem_of_Add; tauto|].
  split.
  { unfold VirtualHost_Add at 1. rewrite bool_decide_eq_true_2; [done|].
    apply elem_of_Add. by right. }
  split.
  { unfold VirtualHost_Remove. simpl. intros Hin.
    apply elem_of_remove_first in Hin; [tauto|]. by apply NoDup_Add. }
  intros Hfresh. unfold added, VirtualHost_Add.
  rewrite bool_decide_eq_false_2 by done.
  unfold VirtualHost_Remove. simpl. rewrite remove_first_app_fresh by done.
  by destruct v.
Qed.

Lemma VirtualHost_Add_Remove_witness :
  let v := VirtualHost.mk "example.com" ["a"; "b"] 1 in
  VirtualHost_Remove (VirtualHost_Add v "c") "c" = v.
Proof.
  intros v. apply (VirtualHost_Add_Remove v "c"); apply (bool_decide_unpack _); by vm_compute.
Defined.

(** ** ServiceConfig.Equal sorts one side *)

Lemma sort_strings_fixed (l : list string) :
  StronglySorted String.le l → sort_strings l = l.
Proof.
  intros H. apply (StronglySorted_unique String.le); [apply sort_strings_sorted|done|].
  apply sort_strings_perm.
Qed.

Lemma sort_strings_twice (l : list string) :
  sort_strings (sort_strings l) = sort_strings l.
Proof. apply sort_strings_fixed, sort_strings_sorted. Qed.

(** X9: when the [VirtualHosts] of the two values lie on different arrays,
    [s.Equal(other)] is true exactly when the settings and the error pages
    agree and the hosts of [other], as they stand, are the hosts of [s] in
    sorted order (or both slices are nil).  The call leaves the array of [s]
    sorted and the array of [other] as it was. *)
Theorem Equal_sorts_receiver (m : arrays) (s other : ServiceConfig.t) :
  apart (ServiceConfig.VirtualHosts s) (ServiceConfig.VirtualHosts other) →
  let r := ServiceConfig.Equal m s other in
  (r.1 = true ↔
     ServiceConfig.SetDefaults (ServiceConfig.settings s)
     = ServiceConfig.SetDefaults (ServiceConfig.settings other) ∧
     ServiceConfig.ErrorPages s = ServiceConfig.ErrorPages other ∧
     match ServiceConfig.VirtualHosts s, ServiceConfig.VirtualHosts other with
     | None, None => True
     | Some _, Some _ =>
         elems m (ServiceConfig.VirtualHosts other)
         = sort_strings (elems m (ServiceConfig.VirtualHosts s))
     | _, _ => False
     end) ∧
  elems r.2 (ServiceConfig.VirtualHosts s)
  = sort_strings (elems m (ServiceConfig.VirtualHosts s)) ∧
  elems r.2 (ServiceConfig.VirtualHosts other) = elems m (ServiceConfig.VirtualHosts other).
Proof.
  intros Hap r.
  assert (Hs : elems r.2 (ServiceConfig.VirtualHosts s)
               = sort_strings (elems m (ServiceConfig.VirtualHosts s))).
  { unfold r. rewrite Equal_heap.
    destruct (ServiceConfig.VirtualHosts s) as [a|]; [|done].
    by rewrite !elems_sort_eq, sort_strings_twice. }
  assert (Ho : elems r.2 (ServiceConfig.VirtualHosts other)
               = elems m (ServiceConfig.VirtualHosts other)).
  { unfold r. rewrite Equal_heap.
    destruct (ServiceConfig.VirtualHosts other) as [b|] eqn:Eb; [|done].
    rewrite !elems_sort_ne; [done| |]; intros a Ha E; by apply (Hap a b). }
  split; [|done].
  assert (Hiff : r.1 = true ↔
     ServiceConfig.SetDefaults (ServiceConfig.settings s)
     = ServiceConfig.SetDefaults (ServiceConfig.settings other) ∧
     ServiceConfig.ErrorPages s = ServiceConfig.ErrorPages other ∧
     ServiceConfig.DeepEqual_strings r.2
       (ServiceConfig.VirtualHosts s) (ServiceConfig.VirtualHosts other) = true).
  { rewrite settings_eq. unfold r, ServiceConfig.Equal, ServiceConfig.DeepEqual; simpl.
    rewrite !andb_true_iff, !bool_decide_eq_true. tauto. }
  rewrite Hiff. unfold ServiceConfig.DeepEqual_strings.
  destruct (ServiceConfig.VirtualHosts s) as [a|] eqn:Ea,
           (ServiceConfig.VirtualHosts other) as [b|] eqn:Eb.
  - rewrite bool_decide_eq_true, Hs, Ho.
    split; intros (? & ? & ?); by repeat split.
  - split; intros (? & ? & ?); done.
  - split; intros (? & ? & ?); done.
  - split; intros (? & ? & ?); done.
Qed.

(** The same two lists, in the two orders of the call. *)
Lemma Equal_sorts_receiver_witness :
  let m := [["b.example.com"; "a.example.com"]; ["a.example.com"; "b.example.com"]] in
  let s := ServiceConfig.with_VirtualHosts (plain "web" ":80") (Some (StrSlice.mk 0 2)) in
  let other := ServiceConfig.with_VirtualHosts (plain "web" ":80") (Some (StrSlice.mk 1 2)) in
  (ServiceConfig.Equal m s other).1 = true ∧ (ServiceConfig.Equal m other s).1 = false.
Proof.
  intros m s other. split.
  - apply (Equal_sorts_receiver m s other); [by intros ? ? [= <-] [= <-]|].
    by repeat split.
  - destruct (ServiceConfig.Equal m other s).1 eqn:E; [|done].
    apply (Equal_sorts_receiver m other s) in E; [|by intros ? ? [= <-] [= <-]].
    destruct E as (_ & _ & E). by vm_compute in E.
Defined.

(** ** The key of a UDP flow *)

Lemma BigEndian_from_inj (l1 l2 : list Z) (a1 a2 : Z) :
  length l1 = length l2 → octets l1 → octets l2 →
  foldl (λ acc b, acc * 256 + b) a1 l1 = foldl (λ acc b, acc * 256 + b) a2 l2 →
  a1 = a2 ∧ l1 = l2.
Proof.
  revert l2 a1 a2. induction l1 as [|b1 l1 IH]; intros [|b2 l2] a1 a2 Hlen H1 H2 Heq;
    simplify_eq/=; [done|].
  apply Forall_cons in H1 as [Hb1 H1]. apply Forall_cons in H2 as [Hb2 H2].
  destruct (IH l2 _ _ Hlen H1 H2 Heq) as [Ha ->].
  assert (a1 = a2 ∧ b1 = b2) as [-> ->] by lia. done.
Qed.

Lemma BigEndian_inj (l1 l2 : list Z) :
  length l1 = length l2 → octets l1 → octets l2 →
  BigEndian l1 = BigEndian l2 → l1 = l2.
Proof. intros Hlen H1 H2 Heq. by destruct (BigEndian_from_inj l1 l2 0 0 Hlen H1 H2 Heq). Qed.

(** X10: on addresses of four bytes, or of sixteen bytes, [newConnTrackKey]
    does not panic, and two addresses of the same length with the same key
    have the same bytes and the same port. *)
Theorem newConnTrackKey_injective (a b : UDPAddr.t) :
  octets (UDPAddr.IP a) → octets (UDPAddr.IP b) →
  length (UDPAddr.IP a) = length (UDPAddr.IP b) →
  (length (UDPAddr.IP a) = 4 ∨ length (UDPAddr.IP a) = 16)%nat →
  is_Some (newConnTrackKey a) ∧
  (newConnTrackKey a = newConnTrackKey b → a = b).
Proof.
  intros Ha Hb Hlen Hfam. unfold newConnTrackKey. rewrite <- Hlen.
  destruct a as [ipa pa], b as [ipb pb]; simpl in *.
  destruct Hfam as [H4|H16].
  - destruct (decide (length ipa = 4%nat)); [|done]. split; [by eexists|].
    intros [= Hip ->]. f_equal. by apply BigEndian_inj.
  - destruct (decide (length ipa = 4%nat)); [lia|].
    destruct (decide (16 ≤ length ipa)%nat); [|lia]. split; [by eexists|].
    intros [= Hhigh Hlow ->]. f_equal.
    rewrite <- (take_drop 8 ipa), <- (take_drop 8 ipb).
    apply BigEndian_inj in Hhigh;
      [|rewrite !length_take; lia|by apply Forall_take|by apply Forall_take].
    rewrite Hhigh. f_equal.
    assert (E : ∀ ip : list Z, length ip = 16%nat → take 8 (drop 8 ip) = drop 8 ip).
    { intros ip Hl. apply take_ge. rewrite length_drop. lia. }
    rewrite !E in Hlow by lia.
    apply BigEndian_inj in Hlow;
      [done|rewrite !length_drop; lia|by apply Forall_drop|by apply Forall_drop].
Qed.

Lemma newConnTrackKey_injective_witness :
  newConnTrackKey (UDPAddr.mk [10; 0; 0; 1] 53) ≠ newConnTrackKey (UDPAddr.mk [10; 0; 0; 2] 53).
Proof.
  intros E.
  apply (newConnTrackKey_injective (UDPAddr.mk [10; 0; 0; 1] 53) (UDPAddr.mk [10; 0; 0; 2] 53))
    in E.
  - discriminate E.
  - repeat constructor; lia.
  - repeat constructor; lia.
  - reflexivity.
  - left. reflexivity.
Defined.

(** ** What a change of a service keeps *)

Section related.
Variable R : Service.t → Service.t → Prop.
Hypothesis R_refl : ∀ s, R s s.
Hypothesis R_trans : ∀ s1 s2 s3, R s1 s2 → R s2 s3 → R s1 s3.
Hypothesis R_add : ∀ s s' b, Service_add s b = Some s' → R s s'.
Hypothesis R_remove : ∀ s name, R s (Service_remove s name).1.
Hypothesis R_config : ∀ s c, R s (Service_UpdateConfig s c).1.
Hypothesis R_pages : ∀ s e, R s (Service.set_errPagesCfg s e).

Lemma update_backend_related (st : Service.t * list BackendConfig.t * bool)
    (b : BackendConfig.t) :
  R st.1.1 (update_backend st b).1.1.
Proof.
  destruct st as [[s cur] p]. unfold update_backend. simpl.
  destruct p; [apply R_refl|].
  assert (Hrep : ∀ rest,
    R s (let '(service, _) := Service_remove s (BackendConfig.Name b) in
         match Service_add service (NewBackend b) with
         | Some service => (service, rest, false)
         | None => (service, cur, true)
         end).1.1).
  { intros rest. pose proof (R_remove s (BackendConfig.Name b)) as Hr.
    destruct (Service_remove s _) as [s1 ok]. simpl in Hr.
    destruct (Service_add s1 _) as [s2|] eqn:Ha; simpl; [|done].
    eapply R_trans; [done|]. by eapply R_add. }
  destruct (list_find _ cur) as [[i c]|]; [|apply Hrep].
  destruct (BackendConfig_Equal c b); [apply R_refl|apply Hrep].
Qed.

Lemma foldl_update_backend_related (l : list BackendConfig.t)
    (st : Service.t * list BackendConfig.t * bool) :
  R st.1.1 (foldl update_backend st l).1.1.
Proof.
  revert st. induction l as [|b l IH]; intros st; simpl; [apply R_refl|].
  eapply R_trans; [apply update_backend_related | apply IH].
Qed.

Lemma foldl_remove_related (names : list string) (s : Service.t) :
  R s (foldl (λ s name, (Service_remove s name).1) s names).
Proof.
  revert s. induction names as [|n names IH]; intros s; simpl; [apply R_refl|].
  eapply R_trans; [apply R_remove | apply IH].
Qed.

Lemma foldl_add_related (bs : list BackendConfig.t) (s s' : Service.t) :
  foldl (λ acc b, acc ≫= λ s, Service_add s (NewBackend b)) (Some s) bs = Some s' →
  R s s'.
Proof.
  revert s. induction bs as [|b bs IH]; intros s; simpl.
  { intros [= <-]. apply R_refl. }
  destruct (Service_add s (NewBackend b)) as [s1|] eqn:Ha; simpl.
  - intros H. eapply R_trans; [by eapply R_add | by apply IH].
  - intros H. exfalso. clear -H. induction bs as [|b' bs IHb]; simpl in H; [done|auto].
Qed.

(** The three ways [UpdateService] ends on a registered service: nothing
    is written; the service is written back; or the service is written back
    and [updateVHosts] is called on it. *)
Lemma UpdateService_shape (env : Env) (w : World) (c : ServiceConfig.t)
    (service : Service.t) :
  svcs w !! ServiceConfig.Name c = Some service →
  let r := UpdateService env w c in
  r.1 = w ∨
  (∃ s' m, R service s' ∧
     r.1 = mkWorld (<[ServiceConfig.Name c := s']> (svcs w)) (vhosts w) (cfg w) m) ∨
  (∃ s' m hosts, R service s' ∧
     r = updateVHosts
           (mkWorld (<[ServiceConfig.Name c := s']> (svcs w)) (vhosts w) (cfg w) m)
           s' hosts).
Proof.
  intros Hk r. subst r. unfold UpdateService. rewrite Hk.
  change (ServiceConfig.Name (ServiceConfig.Merge (Service_config service) c))
    with (ServiceConfig.Name c).
  set (merged := ServiceConfig.Merge (Service_config service) c). clearbody merged.
  pose proof (R_config service merged) as H1.
  destruct (Service_UpdateConfig service merged) as [s1 [e|]]; [by left|].
  cbn [fst snd] in H1 |- *.
  pose proof (foldl_update_backend_related
                (default [] (ServiceConfig.Backends merged))
                (s1, backend_map (default [] (ServiceConfig.Backends (Service_config service))),
                 false)) as Hb.
  destruct (foldl update_backend _ _) as [[s2 cur] p]. cbn [fst snd] in Hb |- *.
  assert (H2 : R service s2) by (by eapply R_trans).
  destruct p; cbn [fst snd].
  { right. left. by exists s2, (heap w). }
  pose proof (foldl_remove_related
                (range_order env (BackendConfig.Name <$> cur)) s2) as Hr.
  set (s3 := foldl _ s2 _) in *.
  assert (H3 : R service s3) by (by eapply R_trans).
  destruct (ServiceConfig.Equal (heap w) (Service_config service) merged) as [same m].
  destruct same; cbn [fst snd].
  { right. left. by exists s3, m. }
  destruct (filterEmpty m (ServiceConfig.VirtualHosts merged)) as [hosts m'].
  right. right.
  destruct (decide (Service.errPagesCfg s3 ≠ ServiceConfig.ErrorPages merged)).
  - exists (Service.set_errPagesCfg s3 (ServiceConfig.ErrorPages merged)), m', hosts.
    split; [|done]. eapply R_trans; [done|apply R_pages].
  - by exists s3, m', hosts.
Qed.
End related.

(** ** The two relations *)

Lemma kept_refl (s : Service.t) : kept s s.
Proof. by repeat split. Qed.

Lemma kept_trans (s1 s2 s3 : Service.t) : kept s1 s2 → kept s2 s3 → kept s1 s3.
Proof.
  unfold kept. intros (?&?&?&?&?&?&?&?&?&?) (?&?&?&?&?&?&?&?&?&?).
  repeat split; congruence.
Qed.

Lemma kept_add (s s' : Service.t) (b : Backend.t) : Service_add s b = Some s' → kept s s'.
Proof.
  unfold Service_add. destruct (network_mismatch s _); [|done].
  destruct (backend_index _ _); intros [= <-]; by repeat split.
Qed.

Lemma kept_remove (s : Service.t) (name : string) : kept s (Service_remove s name).1.
Proof. unfold Service_remove. destruct (backend_index _ _); by repeat split. Qed.

Lemma kept_config (s : Service.t) (c : ServiceConfig.t) : kept s (Service_UpdateConfig s c).1.
Proof. unfold Service_UpdateConfig. repeat case_decide; by repeat split. Qed.

Lemma kept_pages (s : Service.t) (e : ErrorPagesMap) : kept s (Service.set_errPagesCfg s e).
Proof. by repeat split. Qed.

Lemma steady_refl (s : Service.t) : steady s s.
Proof. by repeat split. Qed.

Lemma steady_trans (s1 s2 s3 : Service.t) : steady s1 s2 → steady s2 s3 → steady s1 s3.
Proof. intros (? & ? & ?) (? & ? & ?). split; [congruence|]. split; auto. Qed.

Lemma steady_add (s s' : Service.t) (b : Backend.t) : Service_add s b = Some s' → steady s s'.
Proof.
  intros Hadd. split; [by destruct (kept_add s s' b Hadd)|].
  split; [by apply (Service_add_NoDup s s' b)|].
  revert Hadd. unfold Service_add. destruct (network_mismatch s _); [|done].
  destruct (backend_index _ _); by intros [= <-].
Qed.

Lemma steady_remove (s : Service.t) (name : string) : steady s (Service_remove s name).1.
Proof.
  split; [by destruct (kept_remove s name)|]. split; [apply Service_remove_NoDup|].
  unfold Service_remove. by destruct (backend_index _ _).
Qed.

Lemma steady_config (s : Service.t) (c : ServiceConfig.t) :
  steady s (Service_UpdateConfig s c).1.
Proof.
  unfold Service_UpdateConfig. repeat case_decide; try by repeat split.
Qed.

Lemma steady_pages (s : Service.t) (e : ErrorPagesMap) :
  steady s (Service.set_errPagesCfg s e).
Proof. by repeat split. Qed.

(** ** The table of virtual hosts under any calls *)

Lemma vhosts_ok_mono (ok ok' : string → Prop) (vh : gmap string VirtualHost.t) :
  (∀ n, ok n → ok' n) → vhosts_ok ok vh → vhosts_ok ok' vh.
Proof.
  intros Himp H h v Hv. destruct (H h v Hv) as (? & ? & ?). repeat split; auto.
Qed.

Lemma vhosts_ok_attach (ok : string → Prop) (svc : string) (l : list string)
    (vh : gmap string VirtualHost.t) :
  ok svc → vhosts_ok ok vh → vhosts_ok ok (foldl (vhost_attach svc) vh l).
Proof.
  intros Hsvc. revert vh. induction l as [|a l IH]; intros vh H; simpl; [done|].
  apply IH. intros h v. unfold vhost_attach.
  destruct (decide (h = a)) as [->|Hne].
  - rewrite lookup_insert_eq. intros [= <-].
    assert (Hd : VirtualHost.Name (default (VirtualHost.mk a [] O) (vh !! a)) = a ∧
                 NoDup (VirtualHost.services (default (VirtualHost.mk a [] O) (vh !! a))) ∧
                 ∀ n, n ∈ VirtualHost.services (default (VirtualHost.mk a [] O) (vh !! a)) →
                      ok n).
    { destruct (vh !! a) as [v|] eqn:Hv; simpl; [by apply H|].
      split; [done|]. split; [apply NoDup_nil_2|]. by intros n ?%not_elem_of_nil. }
    destruct Hd as (Hn & Hnd & Hok). split; [|split].
    + unfold VirtualHost_Add. by case_bool_decide.
    + by apply NoDup_Add.
    + intros n [Hin| ->]%elem_of_Add; auto.
  - rewrite lookup_insert_ne by done. apply H.
Qed.

Lemma vhosts_ok_Remove (ok : string → Prop) (v : VirtualHost.t) (svc h : string) :
  VirtualHost.Name v = h ∧ NoDup (VirtualHost.services v) ∧
    (∀ n, n ∈ VirtualHost.services v → ok n) →
  VirtualHost.Name (VirtualHost_Remove v svc) = h ∧
  NoDup (VirtualHost.services (VirtualHost_Remove v svc)) ∧
  (∀ n, n ∈ VirtualHost.services (VirtualHost_Remove v svc) → ok n ∧ n ≠ svc).
Proof.
  intros (Hn & Hnd & Hok). split; [done|]. split; [by apply NoDup_remove_first|].
  intros n. simpl. rewrite elem_of_remove_first by done. intros [? ?]. auto.
Qed.

Lemma vhosts_ok_detach (ok : string → Prop) (svc : string) (l : list string)
    (st : gmap string VirtualHost.t * bool) :
  vhosts_ok ok st.1 → vhosts_ok ok (foldl (vhost_detach svc) st l).1.
Proof.
  revert st. induction l as [|a l IH]; intros [vh p] H; simpl; [done|].
  apply IH. destruct p; [done|]. simpl in H.
  destruct (vh !! a) as [v|] eqn:Hv; [|done].
  pose proof (vhosts_ok_Remove ok v svc a (H a v Hv)) as (Hn & Hnd & Hok).
  case_decide; simpl.
  - intros h v' [Hne Hv']%lookup_delete_Some. by apply H.
  - intros h v'. destruct (decide (h = a)) as [->|Hne].
    + rewrite lookup_insert_eq. intros [= <-]. repeat split; [done|done|].
      intros n Hin. by apply Hok.
    + rewrite lookup_insert_ne by done. apply H.
Qed.

(** [updateVHosts] on a service registered under its name. *)
Lemma updateVHosts_well_formed (w : World) (service : Service.t)
    (hosts : option StrSlice.t) :
  well_formed w → svcs w !! Service.Name service = Some service →
  well_formed (updateVHosts w service hosts).1.
Proof.
  intros [Hname Hback Hbal Hvh] Hk. unfold updateVHosts.
  destruct (diff_hosts _ _) as [remove add].
  pose proof (vhosts_ok_detach _ (Service.Name service) remove (vhosts w, false) Hvh) as Hd.
  destruct (foldl _ _ remove) as [vh p]. simpl in Hd.
  destruct p; cbn [fst]; [by split|].
  split; cbn [svcs vhosts].
  - intros k s. destruct (decide (k = Service.Name service)) as [->|Hne].
    + rewrite lookup_insert_eq. by intros [= <-].
    + rewrite lookup_insert_ne by done. apply Hname.
  - intros k s. destruct (decide (k = Service.Name service)) as [->|Hne].
    + rewrite lookup_insert_eq. intros [= <-]. by apply (Hback _ _ Hk).
    + rewrite lookup_insert_ne by done. apply Hback.
  - intros k s. destruct (decide (k = Service.Name service)) as [->|Hne].
    + rewrite lookup_insert_eq. intros [= <-]. by apply (Hbal _ _ Hk).
    + rewrite lookup_insert_ne by done. apply Hbal.
  - apply vhosts_ok_attach.
    + rewrite lookup_insert_eq. by eexists.
    + eapply vhosts_ok_mono; [|done]. intros n [s Hs]. simpl.
      destruct (decide (n = Service.Name service)) as [->|Hne].
      * rewrite lookup_insert_eq. by eexists.
      * rewrite lookup_insert_ne by done. by eexists.
Qed.

Lemma well_formed_put (w : World) (k : string) (s s' : Service.t) (m : arrays) :
  well_formed w → svcs w !! k = Some s → steady s s' →
  well_formed (mkWorld (<[k := s']> (svcs w)) (vhosts w) (cfg w) m).
Proof.
  intros [Hname Hback Hbal Hvh] Hk (Hn & Hnd & Hb). split; cbn [svcs vhosts].
  - intros k' s0. destruct (decide (k' = k)) as [->|Hne].
    + rewrite lookup_insert_eq. intros [= <-]. rewrite Hn. by apply Hname.
    + rewrite lookup_insert_ne by done. apply Hname.
  - intros k' s0. destruct (decide (k' = k)) as [->|Hne].
    + rewrite lookup_insert_eq. intros [= <-]. apply Hnd. by apply (Hback _ _ Hk).
    + rewrite lookup_insert_ne by done. apply Hback.
  - intros k' s0. destruct (decide (k' = k)) as [->|Hne].
    + rewrite lookup_insert_eq. intros [= <-]. apply Hb. by apply (Hbal _ _ Hk).
    + rewrite lookup_insert_ne by done. apply Hbal.
  - eapply vhosts_ok_mono; [|done]. intros n [s0 Hs0]. simpl.
    destruct (decide (n = k)) as [->|Hne].
    + rewrite lookup_insert_eq. by eexists.
    + rewrite lookup_insert_ne by done. by eexists.
Qed.

Lemma well_formed_heap (w : World) (m : arrays) : well_formed w → well_formed (with_heap w m).
Proof. intros [? ? ? ?]. by split. Qed.

Lemma well_formed_cfg (w : World) (c : Config.t) :
  well_formed w → well_formed (mkWorld (svcs w) (vhosts w) c (heap w)).
Proof. intros [? ? ? ?]. by split. Qed.

Lemma UpdateService_well_formed (env : Env) (w : World) (c : ServiceConfig.t) :
  well_formed w → well_formed (UpdateService env w c).1.
Proof.
  intros Hw. destruct (svcs w !! ServiceConfig.Name c) as [service|] eqn:Hk.
  - destruct (UpdateService_shape steady steady_refl steady_trans steady_add steady_remove
                steady_config steady_pages env w c service Hk)
      as [->|[(s' & m & Hs & ->)|(s' & m & hosts & Hs & ->)]]; [done| |].
    + by apply (well_formed_put w _ service).
    + apply updateVHosts_well_formed; [by apply (well_formed_put w _ service)|].
      cbn [svcs]. destruct Hs as [-> _]. rewrite (wf_name w Hw _ _ Hk).
      by rewrite lookup_insert_eq.
  - unfold UpdateService. by rewrite Hk.
Qed.

Lemma NewService_steady (c : ServiceConfig.t) (s : Service.t) :
  NewService c = Some s →
  Service.Name s = ServiceConfig.Name c ∧ NoDup (backend_names s) ∧
  Service.next s = balancer_of (Service.Balance s).
Proof.
  unfold NewService. intros H.
  apply (foldl_add_related steady steady_refl steady_trans steady_add) in H
    as (Hn & Hnd & Hb).
  split; [done|]. split; [apply Hnd, NoDup_nil_2|by apply Hb].
Qed.

Lemma AddService_well_formed (env : Env) (w : World) (c : ServiceConfig.t) :
  well_formed w → well_formed (AddService env w c).1.
Proof.
  intros Hw. unfold AddService.
  destruct (svcs w !! ServiceConfig.Name c) eqn:Hk; [done|].
  set (c' := ServiceConfig.SetDefaults (setServiceDefaults (cfg w) c)).
  destruct (NewService c') as [s1|] eqn:Hnew; [|done].
  apply NewService_steady in Hnew as (Hn1 & Hnd1 & Hb1).
  unfold Service_start. case_bool_decide; [|done].
  destruct (listen env _ _); [done|].
  destruct (filterEmpty (heap w) (ServiceConfig.VirtualHosts c')) as [hosts m].
  cbn [fst Service.Name Service.set_listening].
  destruct Hw as [Hname Hback Hbal Hvh]. split; cbn [svcs vhosts].
  - intros k s. destruct (decide (k = Service.Name s1)) as [->|Hne].
    + rewrite lookup_insert_eq. by intros [= <-].
    + rewrite lookup_insert_ne by done. apply Hname.
  - intros k s. destruct (decide (k = Service.Name s1)) as [->|Hne].
    + rewrite lookup_insert_eq. by intros [= <-].
    + rewrite lookup_insert_ne by done. apply Hback.
  - intros k s. destruct (decide (k = Service.Name s1)) as [->|Hne].
    + rewrite lookup_insert_eq. by intros [= <-].
    + rewrite lookup_insert_ne by done. apply Hbal.
  - apply vhosts_ok_attach.
    + rewrite lookup_insert_eq. by eexists.
    + eapply vhosts_ok_mono; [|done]. intros n [s Hs]. simpl.
      destruct (decide (n = Service.Name s1)) as [->|Hne].
      * rewrite lookup_insert_eq. by eexists.
      * rewrite lookup_insert_ne by done. by eexists.
Qed.

Lemma RemoveService_well_formed (w : World) (name : string) :
  well_formed w → well_formed (RemoveService w name).1.
Proof.
  intros Hw. unfold RemoveService.
  destruct (svcs w !! name) as [svc|] eqn:Hk; [|done]. cbn [fst].
  rewrite (wf_name w Hw _ _ Hk). destruct Hw as [Hname Hback Hbal Hvh].
  split; cbn [svcs vhosts].
  - intros k s [_ Hs]%lookup_delete_Some. by apply Hname.
  - intros k s [_ Hs]%lookup_delete_Some. by eapply Hback.
  - intros k s [_ Hs]%lookup_delete_Some. by eapply Hbal.
  - intros h v'. rewrite map_lookup_imap.
    destruct (vhosts w !! h) as [v|] eqn:Hv; simpl; [|done].
    destruct (listed _ _ h); [|done]. intros [= <-].
    pose proof (vhosts_ok_Remove _ v name h (Hvh h v Hv)) as (Hn & Hnd & Hok).
    split; [done|]. split; [done|]. intros n Hin.
    destruct (Hok n Hin) as [[s Hs] Hne]. exists s.
    by rewrite lookup_delete_ne.
Qed.

Lemma AddBackend_well_formed (w : World) (svcName : string) (b : BackendConfig.t) :
  well_formed w → well_formed (AddBackend w svcName b).1.
Proof.
  intros Hw. unfold AddBackend.
  destruct (svcs w !! svcName) as [s|] eqn:Hk; [|done].
  destruct (Service_add s (NewBackend b)) as [s'|] eqn:Ha; [|done].
  apply (well_formed_put w svcName s s' (heap w) Hw Hk). by eapply steady_add.
Qed.

Lemma RemoveBackend_well_formed (w : World) (svcName backendName : string) :
  well_formed w → well_formed (RemoveBackend w svcName backendName).1.
Proof.
  intros Hw. unfold RemoveBackend.
  destruct (svcs w !! svcName) as [s|] eqn:Hk; [|done].
  pose proof (steady_remove s backendName) as Hs.
  destruct (Service_remove s backendName) as [s' ok].
  by apply (well_formed_put w svcName s s' (heap w) Hw Hk).
Qed.

Lemma update_service_well_formed (env : Env) (st : World * list error * bool)
    (svc : ServiceConfig.t) :
  well_formed st.1.1 → well_formed (update_service env st svc).1.1.
Proof.
  destruct st as [[w errs] p]. unfold update_service. cbn [fst]. intros Hw.
  destruct p; [done|]. unfold GetService.
  destruct (svcs w !! ServiceConfig.Name svc) eqn:Hk.
  - pose proof (UpdateService_well_formed env w svc Hw) as H.
    destruct (UpdateService env w svc) as [w' []]; done.
  - pose proof (AddService_well_formed env w svc Hw) as H.
    destruct (AddService env w svc) as [w' []]; done.
Qed.

Lemma UpdateConfig_well_formed (env : Env) (w : World) (c : Config.t) :
  well_formed w → well_formed (UpdateConfig env w c).1.
Proof.
  intros Hw. unfold UpdateConfig.
  set (w0 := mkWorld _ _ _ _).
  assert (H0 : well_formed w0) by (by apply well_formed_cfg).
  assert (H : ∀ l st, well_formed st.1.1 →
                      well_formed (foldl (update_service env) st l).1.1).
  { induction l as [|x l IH]; intros st Hst; simpl; [done|].
    apply IH. by apply update_service_well_formed. }
  specialize (H (Config.Services c) (w0, [], false) H0).
  destruct (foldl _ _ _) as [[w' errs] p]. cbn [fst] in H.
  destruct p; [done|]. by case_decide.
Qed.

Lemma run_well_formed (env : Env) (w : World) (call : Call) :
  well_formed w → well_formed (run env w call).1.
Proof.
  intros Hw. destruct call as [c|c|name|svc b|svc b|c services]; simpl.
  - destruct (decode (heap w) c) as [c1 m1].
    pose proof (AddService_well_formed env _ c1 (well_formed_heap w m1 Hw)) as H.
    by destruct (AddService env _ c1).
  - destruct (decode (heap w) c) as [c1 m1].
    pose proof (UpdateService_well_formed env _ c1 (well_formed_heap w m1 Hw)) as H.
    by destruct (UpdateService env _ c1).
  - pose proof (RemoveService_well_formed w name Hw) as H. by destruct (RemoveService w name).
  - pose proof (AddBackend_well_formed w svc b Hw) as H. by destruct (AddBackend w svc b).
  - pose proof (RemoveBackend_well_formed w svc b Hw) as H.
    by destruct (RemoveBackend w svc b).
  - destruct (decode_all (heap w) services) as [l m].
    pose proof (UpdateConfig_well_formed env _ (with_Services c l)
                  (well_formed_heap w m Hw)) as H.
    by destruct (UpdateConfig env _ _).
Qed.

Lemma reachable_any_well_formed (w : World) : reachable_any w → well_formed w.
Proof.
  induction 1 as [|env w call _ IH]; [|by apply run_well_formed].
  split; simpl; try (intros; simplify_map_eq; done).
Qed.

(** X11: in every registry reached from the empty one by any calls of
    AddService, UpdateService, RemoveService, AddBackend, RemoveBackend and
    UpdateConfig, a service is registered under its own name, its backends
    have distinct names and the balancing method it uses is the one its
    [Balance] names; a virtual host is registered under its own name, lists
    no service twice, and lists registered services only. *)
Theorem registry_well_formed (w : World) :
  reachable_any w →
  (∀ k s, svcs w !! k = Some s →
     Service.Name s = k ∧ NoDup (backend_names s) ∧
     Service.next s = balancer_of (Service.Balance s)) ∧
  (∀ h v, vhosts w !! h = Some v →
     VirtualHost.Name v = h ∧ NoDup (VirtualHost.services v) ∧
     ∀ n, n ∈ VirtualHost.services v → is_Some (svcs w !! n)).
Proof.
  intros [Hname Hback Hbal Hvh]%reachable_any_well_formed. split.
  - intros k s Hk. split; [by apply Hname|]. split; [by eapply Hback|by eapply Hbal].
  - apply Hvh.
Qed.

(** A registry reached with a host name given twice and a blank one. *)
Lemma registry_well_formed_witness :
  let hosts := Some ["a.example.com"; "a.example.com"; ""] in
  let w := (run (quiet ":9000") initial (Call_AddService (plain "web" ":80", hosts))).1 in
  ∃ v, vhosts w !! "a.example.com" = Some v ∧ NoDup (VirtualHost.services v).
Proof.
  intros hosts w.
  destruct (vhosts w !! "a.example.com") as [v|] eqn:Hv; [|by vm_compute in Hv].
  exists v. split; [done|]. destruct (registry_well_formed w) as [_ H].
  { apply reachable_any_run, reachable_any_initial. }
  by destruct (H _ v Hv) as (_ & ? & _).
Defined.

(** ** RemoveService and the table of virtual hosts *)

(** X12: in a registry reached by any calls, after [RemoveService(name)] no
    service is registered under [name] and no virtual host lists it. *)
Theorem RemoveService_detaches (w : World) (name : string) :
  reachable_any w →
  let w' := (RemoveService w name).1 in
  svcs w' !! name = None ∧
  ∀ h v, vhosts w' !! h = Some v → name ∉ VirtualHost.services v.
Proof.
  intros Hw%reachable_any_well_formed w'. subst w'. unfold RemoveService.
  destruct (svcs w !! name) as [svc|] eqn:Hk; cbn [fst svcs vhosts].
  - split; [apply lookup_delete_eq|].
    rewrite (wf_name w Hw _ _ Hk). intros h v'. rewrite map_lookup_imap.
    destruct (vhosts w !! h) as [v|] eqn:Hv; simpl; [|done].
    destruct (listed _ _ h); [|done]. intros [= <-].
    pose proof (vhosts_ok_Remove _ v name h (wf_vhosts w Hw h v Hv)) as (_ & _ & Hok).
    intros Hin. by destruct (Hok name Hin).
  - split; [done|]. intros h v Hv Hin.
    destruct (wf_vhosts w Hw h v Hv) as (_ & _ & Hok).
    destruct (Hok name Hin) as [s Hs]. by rewrite Hk in Hs.
Qed.

Lemma RemoveService_detaches_witness :
  let env := quiet ":9000" in
  let hosts := Some ["a.example.com"; "a.example.com"; ""] in
  let w := (run env initial (Call_AddService (plain "web" ":80", hosts))).1 in
  VirtualHost.services <$> vhosts w !! "a.example.com" = Some ["web"] ∧
  svcs (RemoveService w "web").1 !! "web" = None.
Proof.
  intros env hosts w. split; [by vm_compute|].
  apply (RemoveService_detaches w "web").
  apply reachable_any_run, reachable_any_initial.
Defined.

(** ** GetVHostService on any registry *)



(** ** What UpdateService leaves alone *)

(** X14: whatever [UpdateService] returns for a registered service, the
    service is registered afterwards with the same name, network and state
    of the listener, the same traffic and HTTP counters and the same position
    of the round robin. *)
Theorem UpdateService_keeps_runtime (env : Env) (w : World) (c : ServiceConfig.t)
    (service : Service.t) :
  svcs w !! ServiceConfig.Name c = Some service →
  ∃ service',
    svcs (UpdateService env w c).1 !! ServiceConfig.Name c = Some service' ∧
    kept service service'.
Proof.
  intros Hk.
  destruct (UpdateService_shape kept kept_refl kept_trans kept_add kept_remove
              kept_config kept_pages env w c service Hk)
    as [->|[(s' & m & Hs & ->)|(s' & m & hosts & Hs & ->)]].
  - exists service. split; [done|apply kept_refl].
  - exists s'. cbn [svcs]. by rewrite lookup_insert_eq.
  - unfold updateVHosts. destruct (diff_hosts _ _) as [remove add].
    destruct (foldl _ _ remove) as [vh []]; cbn [fst svcs].
    + exists s'. by rewrite lookup_insert_eq.
    + destruct (decide (Service.Name s' = ServiceConfig.Name c)) as [E|Hne].
      * simpl. rewrite E, lookup_insert_eq. eexists. split; [done|].
        eapply kept_trans; [done|]. by repeat split.
      * simpl. rewrite lookup_insert_ne by done. rewrite lookup_insert_eq. eauto.
Qed.

Lemma UpdateService_keeps_runtime_witness :
  let env := quiet ":9000" in
  let w := mkWorld {[ "web" := Service.set_traffic weighted_service 10 20 1 ]} ∅
                   (Config.mk "" 0 0 0 0 0 0 false []) [] in
  ∃ service', svcs (UpdateService env w (hosted "web" "" None (Some []) true)).1 !! "web"
              = Some service' ∧
              Service.Sent service' = 10 ∧ Service.Backends service' = [].
Proof.
  intros env w.
  destruct (UpdateService_keeps_runtime env w (hosted "web" "" None (Some []) true)
              (Service.set_traffic weighted_service 10 20 1) eq_refl)
    as (s' & Hs' & Hkept).
  exists s'. split; [done|]. split; [apply Hkept|].
  vm_compute in Hs'. by injection Hs' as <-.
Defined.

(** ** Only RemoveService unregisters a service *)

Lemma grows_refl (w : World) : grows w w.
Proof. by intros k. Qed.

Lemma grows_trans (w1 w2 w3 : World) : grows w1 w2 → grows w2 w3 → grows w1 w3.
Proof. intros H1 H2 k Hk. by apply H2, H1. Qed.

Lemma grows_insert (w : World) (k : string) (s : Service.t)
    (vh : gmap string VirtualHost.t) (c : Config.t) (m : arrays) :
  grows w (mkWorld (<[k := s]> (svcs w)) vh c m).
Proof.
  intros k' Hk'. cbn [svcs]. destruct (decide (k' = k)) as [->|Hne].
  - rewrite lookup_insert_eq. by eexists.
  - by rewrite lookup_insert_ne.
Qed.

Lemma updateVHosts_grows (w : World) (service : Service.t) (hosts : option StrSlice.t) :
  grows w (updateVHosts w service hosts).1.
Proof.
  unfold updateVHosts. destruct (diff_hosts _ _) as [remove add].
  destruct (foldl _ _ remove) as [vh []]; cbn [fst]; [by intros k|apply grows_insert].
Qed.

Lemma AddService_grows (env : Env) (w : World) (c : ServiceConfig.t) :
  grows w (AddService env w c).1.
Proof.
  unfold AddService. destruct (svcs w !! ServiceConfig.Name c); [apply grows_refl|].
  destruct (NewService _) as [s1|]; [|apply grows_refl].
  destruct (Service_start env s1) as [s2|]; [|apply grows_refl].
  destruct (filterEmpty _ _) as [hosts m]. apply grows_insert.
Qed.

Lemma UpdateService_grows (env : Env) (w : World) (c : ServiceConfig.t) :
  grows w (UpdateService env w c).1.
Proof.
  destruct (svcs w !! ServiceConfig.Name c) as [service|] eqn:Hk.
  - destruct (UpdateService_shape (λ _ _, True) ltac:(done) ltac:(done) ltac:(done)
                ltac:(done) ltac:(done) ltac:(done) env w c service Hk)
      as [->|[(s' & m & _ & ->)|(s' & m & hosts & _ & ->)]].
    + apply grows_refl.
    + apply grows_insert.
    + eapply grows_trans; [|apply updateVHosts_grows]. apply grows_insert.
  - unfold UpdateService. rewrite Hk. apply grows_refl.
Qed.

Lemma update_service_grows (env : Env) (st : World * list error * bool)
    (svc : ServiceConfig.t) :
  grows st.1.1 (update_service env st svc).1.1.
Proof.
  destruct st as [[w errs] p]. unfold update_service. cbn [fst].
  destruct p; [apply grows_refl|]. unfold GetService.
  destruct (svcs w !! ServiceConfig.Name svc) eqn:Hk.
  - pose proof (UpdateService_grows env w svc) as H.
    destruct (UpdateService env w svc) as [w' []]; done.
  - pose proof (AddService_grows env w svc) as H.
    destruct (AddService env w svc) as [w' []]; done.
Qed.

Lemma foldl_update_service_grows (env : Env) (l : list ServiceConfig.t)
    (st : World * list error * bool) :
  grows st.1.1 (foldl (update_service env) st l).1.1.
Proof.
  revert st. induction l as [|x l IH]; intros st; simpl; [apply grows_refl|].
  eapply grows_trans; [apply update_service_grows|apply IH].
Qed.

Lemma UpdateConfig_grows (env : Env) (w : World) (c : Config.t) :
  grows w (UpdateConfig env w c).1.
Proof.
  unfold UpdateConfig.
  pose proof (foldl_update_service_grows env (Config.Services c)
                (mkWorld (svcs w) (vhosts w) (update_globals env (cfg w) c) (heap w),
                 [], false)) as H.
  destruct (foldl _ _ _) as [[w' errs] p]. cbn [fst] in H.
  destruct p; [done|]. by case_decide.
Qed.

(** X15: a call other than RemoveService leaves every registered service
    registered, whatever it returns. *)
Theorem run_keeps_services (env : Env) (w : World) (call : Call) (k : string) :
  (∀ name, call ≠ Call_RemoveService name) →
  is_Some (svcs w !! k) → is_Some (svcs (run env w call).1 !! k).
Proof.
  intros Hcall. revert k. change (grows w (run env w call).1).
  destruct call as [c|c|name|svc b|svc b|c services]; simpl.
  - destruct (decode (heap w) c) as [c1 m1].
    pose proof (AddService_grows env (with_heap w m1) c1) as H.
    by destruct (AddService env _ c1).
  - destruct (decode (heap w) c) as [c1 m1].
    pose proof (UpdateService_grows env (with_heap w m1) c1) as H.
    by destruct (UpdateService env _ c1).
  - by destruct (Hcall name).
  - unfold AddBackend. destruct (svcs w !! svc) as [s|]; [|apply grows_refl].
    destruct (Service_add s (NewBackend b)); [apply grows_insert|apply grows_refl].
  - unfold RemoveBackend. destruct (svcs w !! svc) as [s|]; [|apply grows_refl].
    destruct (Service_remove s b). apply grows_insert.
  - destruct (decode_all (heap w) services) as [l m].
    pose proof (UpdateConfig_grows env (with_heap w m) (with_Services c l)) as H.
    by destruct (UpdateConfig env _ _).
Qed.

(** A configuration that does not name the registered service leaves it
    registered. *)
Lemma run_keeps_services_witness :
  let env := quiet ":9000" in
  let w := (run env initial (Call_AddService (plain "web" ":80", None))).1 in
  let c := Config.mk "" 0 0 0 0 0 0 false [] in
  is_Some (svcs (run env w (Call_UpdateConfig c [(plain "api" ":81", None)])).1 !! "web").
Proof.
  intros env w c. apply run_keeps_services; [done|]. eexists. by vm_compute.
Defined.

(** ** Port conflicts in UpdateConfig *)

Lemma port_conflicts_grows (env : Env) (svc : ServiceConfig.t) (errors : list error)
    (e : error) :
  e ∈ errors → e ∈ port_conflicts env svc errors.
Proof.
  unfold port_conflicts. generalize (invalidPorts env). intros ports.
  revert errors. induction ports as [|p ports IH]; intros errors He; simpl; [done|].
  apply IH. destruct (HasSuffix _ p); [|done]. apply elem_of_app. by left.
Qed.

Lemma port_conflicts_found (env : Env) (svc : ServiceConfig.t) (errors : list error)
    (port : string) :
  port ∈ invalidPorts env → HasSuffix (ServiceConfig.Addr svc) port = true →
  ErrPortConflict (ServiceConfig.Name svc) port ∈ port_conflicts env svc errors.
Proof.
  unfold port_conflicts. generalize (invalidPorts env). intros ports.
  revert errors. induction ports as [|p ports IH]; intros errors Hin Hs; simpl.
  { by apply not_elem_of_nil in Hin. }
  apply elem_of_cons in Hin as [<-|Hin].
  - rewrite Hs.
    assert (He : ErrPortConflict (ServiceConfig.Name svc) port
                 ∈ errors ++ [ErrPortConflict (ServiceConfig.Name svc) port]).
    { apply elem_of_app. right. by left. }
    revert He. generalize (errors ++ [ErrPortConflict (ServiceConfig.Name svc) port]).
    clear. induction ports as [|p ports IH]; intros errs He; simpl; [done|].
    apply IH. destruct (HasSuffix _ p); [|done]. apply elem_of_app. by left.
  - by apply IH.
Qed.

Lemma update_service_errors (env : Env) (st : World * list error * bool)
    (svc : ServiceConfig.t) (e : error) :
  (st.2 = true → (update_service env st svc).2 = true) ∧
  (e ∈ st.1.2 → e ∈ (update_service env st svc).1.2) ∧
  (st.2 = false → ∀ port,
     port ∈ invalidPorts env → HasSuffix (ServiceConfig.Addr svc) port = true →
     ErrPortConflict (ServiceConfig.Name svc) port ∈ (update_service env st svc).1.2).
Proof.
  destruct st as [[w errs] p]. unfold update_service. cbn [fst snd].
  destruct p; [by repeat split|].
  split; [done|].
  destruct (match GetService w (ServiceConfig.Name svc) with
            | Some _ => UpdateService env w svc
            | None => AddService env w svc
            end) as [w' r].
  split.
  - intros He. apply (port_conflicts_grows env svc) in He.
    destruct r; cbn [fst snd]; [done| |done]. apply elem_of_app. by left.
  - intros _ port Hin Hs. pose proof (port_conflicts_found env svc errs port Hin Hs) as He.
    destruct r; cbn [fst snd]; [done| |done]. apply elem_of_app. by left.
Qed.

Lemma foldl_update_service_errors (env : Env) (l : list ServiceConfig.t)
    (st : World * list error * bool) (e : error) :
  (st.2 = true → (foldl (update_service env) st l).2 = true) ∧
  (e ∈ st.1.2 → (foldl (update_service env) st l).2 = false →
   e ∈ (foldl (update_service env) st l).1.2).
Proof.
  revert st. induction l as [|x l IH]; intros st; simpl; [by split|].
  destruct (IH (update_service env st x)) as [IH1 IH2].
  destruct (update_service_errors env st x e) as (H1 & H2 & _).
  split; [auto|]. intros He Hp. apply IH2; auto.
Qed.

(** X16: when the address of a service of the submitted configuration ends
    with the port of the admin listener, [UpdateConfig] that does not panic
    returns errors, among them the port conflict of that service. *)
Theorem UpdateConfig_reports_port_conflict (env : Env) (w : World) (c : Config.t)
    (svc : ServiceConfig.t) (port : string) :
  svc ∈ Config.Services c →
  port ∈ invalidPorts env →
  HasSuffix (ServiceConfig.Addr svc) port = true →
  match (UpdateConfig env w c).2 with
  | Returned_nil => False
  | Returned_errors errors => ErrPortConflict (ServiceConfig.Name svc) port ∈ errors
  | Config_panicked => True
  end.
Proof.
  intros Hsvc Hport Hs. unfold UpdateConfig.
  set (w0 := mkWorld _ _ _ _).
  set (e := ErrPortConflict (ServiceConfig.Name svc) port).
  assert (H : ∀ l st, svc ∈ l → st.2 = false →
                      (foldl (update_service env) st l).2 = false →
                      e ∈ (foldl (update_service env) st l).1.2).
  { induction l as [|x l IH]; intros st Hin Hp Hend; simpl in *.
    { by apply not_elem_of_nil in Hin. }
    apply elem_of_cons in Hin as [<-|Hin].
    - destruct (update_service_errors env st svc e) as (_ & _ & H3).
      apply (foldl_update_service_errors env l _ e); [|done]. by apply H3.
    - destruct ((update_service env st x).2) eqn:Hp'.
      + destruct (foldl_update_service_errors env l (update_service env st x) e) as [H1 _].
        rewrite H1 in Hend; done.
      + by apply IH. }
  specialize (H (Config.Services c) (w0, [], false) Hsvc eq_refl).
  destruct (foldl _ _ _) as [[w' errs] p]. cbn [fst snd] in H.
  destruct p; [done|]. specialize (H eq_refl). cbn [snd].
  case_decide as E; cbn [snd]; [|done].
  destruct errs; [by apply not_elem_of_nil in H|done].
Qed.

Lemma UpdateConfig_reports_port_conflict_witness :
  let env := quiet "127.0.0.1:9000" in
  let c := Config.mk "" 0 0 0 0 0 0 false [plain "api" ":81"; plain "web" "0.0.0.0:9000"] in
  match (UpdateConfig env initial c).2 with
  | Returned_nil => False
  | Returned_errors errors => ErrPortConflict "web" "9000" ∈ errors
  | Config_panicked => True
  end.
Proof.
  intros env c.
  apply (UpdateConfig_reports_port_conflict env initial c (plain "web" "0.0.0.0:9000") "9000").
  - simpl. right. by left.
  - by left.
  - by vm_compute.
Defined.

(** ** AddService *)



(** ** Adding a service and removing it again *)

Lemma Remove_Add_fresh (v : VirtualHost.t) (svc : string) :
  svc ∉ VirtualHost.services v → VirtualHost_Remove (VirtualHost_Add v svc) svc = v.
Proof.
  intros Hfresh. unfold VirtualHost_Add. rewrite bool_decide_eq_false_2 by done.
  unfold VirtualHost_Remove. simpl. rewrite remove_first_app_fresh by done.
  by destruct v.
Qed.

Lemma Remove_fresh (v : VirtualHost.t) (svc : string) :
  svc ∉ VirtualHost.services v → VirtualHost_Remove v svc = v.
Proof.
  intros Hfresh. unfold VirtualHost_Remove. rewrite remove_first_fresh by done.
  by destruct v.
Qed.

Lemma AddService_RemoveService_Inv (env : Env) (w : World) (c : ServiceConfig.t) :
  Inv w → fresh w (ServiceConfig.VirtualHosts c) →
  svcs w !! ServiceConfig.Name c = None →
  let w1 := (AddService env w c).1 in
  let w2 := (RemoveService w1 (ServiceConfig.Name c)).1 in
  svcs w2 = svcs w ∧ vhosts w2 = vhosts w.
Proof.
  intros HI Hf Hk w1 w2. subst w2 w1. unfold AddService. rewrite Hk.
  set (name := ServiceConfig.Name c) in *.
  assert (Hsame : svcs (RemoveService w name).1 = svcs w ∧
                  vhosts (RemoveService w name).1 = vhosts w).
  { unfold RemoveService. by rewrite Hk. }
  set (c' := ServiceConfig.SetDefaults (setServiceDefaults (cfg w) c)).
  destruct (NewService c') as [s1|] eqn:Hnew; [|done].
  apply NewService_steady in Hnew as [Hn1 _].
  change (ServiceConfig.Name c') with name in Hn1.
  unfold Service_start. case_bool_decide; [|done].
  destruct (listen env _ _); [done|].
  change (ServiceConfig.VirtualHosts c') with (ServiceConfig.VirtualHosts c).
  assert (Hub : unblank (elems (heap w) (ServiceConfig.VirtualHosts c))).
  { destruct (ServiceConfig.VirtualHosts c); simpl in *; [tauto|].
    by intros h ?%not_elem_of_nil. }
  rewrite filterEmpty_unblank by done.
  cbn [fst Service.Name Service.set_listening]. rewrite Hn1.
  unfold RemoveService. cbn [svcs]. rewrite lookup_insert_eq.
  cbn [fst svcs vhosts heap Service.Name]. rewrite ?Hn1.
  rewrite delete_insert_id by done. split; [done|].
  apply map_eq. intros h. rewrite map_lookup_imap, foldl_attach_lookup.
  set (hosts := elems (heap w) (ServiceConfig.VirtualHosts c)).
  destruct (vhosts w !! h) as [v|] eqn:Hv.
  - assert (Hfresh : name ∉ VirtualHost.services v).
    { intros Hin. apply (inv_members w HI h v name Hv) in Hin as (s & Hs & _).
      by rewrite Hk in Hs. }
    assert (Hl : listed (heap w) (svcs w) h = true).
    { apply listed_true. pose proof (inv_nonempty w HI h v Hv) as Hne.
      destruct (VirtualHost.services v) as [|n ns] eqn:E; [done|].
      assert (Hn : n ∈ VirtualHost.services v) by (rewrite E; by left).
      apply (inv_members w HI h v n Hv) in Hn as (s & Hs & Hin). by exists n, s. }
    destruct (decide (h ∈ hosts));
      cbn [mbind option_bind from_option id Service.Name Service.set_listening];
      rewrite Hl, ?Hn1.
    + by rewrite Remove_Add_fresh.
    + by rewrite Remove_fresh.
  - assert (Hl : listed (heap w) (svcs w) h = false).
    { destruct (listed (heap w) (svcs w) h) eqn:E; [|done].
      apply listed_true in E as (n & s & Hs & Hin).
      destruct (inv_listed w HI n s h Hs Hin) as [v Hv']. by rewrite Hv in Hv'. }
    destruct (decide (h ∈ hosts)); cbn [mbind option_bind from_option id]; [|done].
    by rewrite Hl.
Qed.

(** X18: in a registry reached by calls with clean host lists, adding a
    service under a new name with a clean host list and removing it again
    gives back the services and the table of virtual hosts. *)
Theorem AddService_then_RemoveService (env env' : Env) (w : World)
    (c : ServiceConfig.t * option (list string)) :
  reachable w → clean c.2 →
  svcs w !! ServiceConfig.Name c.1 = None →
  let w1 := (run env w (Call_AddService c)).1 in
  let w2 := (run env' w1 (Call_RemoveService (ServiceConfig.Name c.1))).1 in
  svcs w2 = svcs w ∧ vhosts w2 = vhosts w.
Proof.
  intros HI%reachable_Inv Hc Hk w1 w2. subst w2 w1. simpl.
  destruct (decode_fresh w c HI Hc) as (HI1 & Hf1 & _).
  assert (Hname : ServiceConfig.Name (decode (heap w) c).1 = ServiceConfig.Name c.1).
  { unfold decode. by destruct (alloc (heap w) c.2). }
  destruct (decode (heap w) c) as [c1 m1]. cbn [fst snd] in *.
  pose proof (AddService_RemoveService_Inv env (with_heap w m1) c1 HI1 Hf1) as H.
  rewrite Hname in H. specialize (H Hk). cbn [with_heap svcs vhosts] in H.
  destruct (AddService env (with_heap w m1) c1) as [w1 r1]. cbn [fst] in *.
  by destruct (RemoveService w1 (ServiceConfig.Name c.1)) as [w2 r2].
Qed.

Lemma AddService_then_RemoveService_witness :
  let env := quiet ":9000" in
  let w := (run env initial (Call_AddService (plain "web" ":80", Some ["a.example.com"]))).1 in
  let c := (plain "api" ":81", Some ["a.example.com"; "b.example.com"]) in
  let w1 := (run env w (Call_AddService c)).1 in
  let w2 := (run env w1 (Call_RemoveService "api")).1 in
  VirtualHost.services <$> vhosts w1 !! "a.example.com" = Some ["web"; "api"] ∧
  vhosts w2 = vhosts w.
Proof.
  intros env w c w1 w2. split; [by vm_compute|].
  apply (AddService_then_RemoveService env env w c).
  - apply reachable_run; [apply reachable_initial|].
    by apply clean_one.
  - split; simpl.
    + apply (bool_decide_unpack _). by vm_compute.
    + intros h Hh. apply elem_of_cons in Hh as [->|Hh]; [done|].
      by apply list_elem_of_singleton in Hh as ->.
  - by vm_compute.
Defined.

(** ** The configuration of a new service *)






(** ** The merge of updateVHosts *)

(** X20: on two sorted lists of host names without repetitions, the merge
    of [updateVHosts] computes the names only in the old list, to remove, and
    the names only in the new list, to add, each without repetitions. *)
Theorem diff_hosts_complements (oldHosts newHosts : list string) :
  StronglySorted String.le oldHosts → NoDup oldHosts →
  StronglySorted String.le newHosts → NoDup newHosts →
  let r := diff_hosts oldHosts newHosts in
  (∀ h, h ∈ r.1 ↔ h ∈ oldHosts ∧ h ∉ newHosts) ∧
  (∀ h, h ∈ r.2 ↔ h ∈ newHosts ∧ h ∉ oldHosts) ∧
  NoDup r.1 ∧ NoDup r.2.
Proof.
  intros Hso Hdo Hsn Hdn r. subst r. rewrite diff_hosts_spec by done. cbn [fst snd].
  split; [|split; [|split]].
  - intros h. by rewrite list_elem_of_filter, (comm and).
  - intros h. by rewrite list_elem_of_filter, (comm and).
  - by apply NoDup_filter.
  - by apply NoDup_filter.
Qed.

Lemma diff_hosts_complements_witness :
  "a.example.com"
  ∈ (diff_hosts ["a.example.com"; "b.example.com"] ["b.example.com"; "c.example.com"]).1.
Proof.
  apply (diff_hosts_complements ["a.example.com"; "b.example.com"]
           ["b.example.com"; "c.example.com"]).
  - apply (sort_strings_sorted ["a.example.com"; "b.example.com"]).
  - apply (bool_decide_unpack _). by vm_compute.
  - apply (sort_strings_sorted ["b.example.com"; "c.example.com"]).
  - apply (bool_decide_unpack _). by vm_compute.
  - split; apply (bool_decide_unpack _); by vm_compute.
Defined.

(** ** The backends after UpdateService *)

Lemma backend_map_NoDup (l : list BackendConfig.t) :
  NoDup (BackendConfig.Name <$> l) → backend_map l = l.
Proof.
  induction l as [|c l IH]; simpl; [done|]. intros [Hc Hl]%NoDup_cons.
  rewrite bool_decide_eq_false_2 by done. by rewrite IH.
Qed.

Lemma Config_names (bs : list Backend.t) :
  BackendConfig.Name <$> (Backend.Config <$> bs) = Backend.Name <$> bs.
Proof. rewrite <- list_fmap_compose. by apply list_fmap_ext. Qed.

Lemma NoDup_fmap_eq {A B : Type} (f : A → B) (l : list A) (a b : A) :
  NoDup (f <$> l) → a ∈ l → b ∈ l → f a = f b → a = b.
Proof.
  induction l as [|x l IH]; simpl; [by intros _ ?%not_elem_of_nil|].
  intros [Hx Hl]%NoDup_cons [->|Ha]%elem_of_cons [->|Hb]%elem_of_cons E; auto.
  - exfalso. apply Hx. rewrite E. by apply list_elem_of_fmap_2.
  - exfalso. apply Hx. rewrite <- E. by apply list_elem_of_fmap_2.
Qed.

Lemma elem_of_remove (s : Service.t) (name : string) (b : Backend.t) :
  NoDup (backend_names s) →
  b ∈ Service.Backends (Service_remove s name).1 ↔
  b ∈ Service.Backends s ∧ Backend.Name b ≠ name.
Proof.
  intros Hnd. rewrite (Service_remove_perm s name Hnd), list_elem_of_filter. tauto.
Qed.

Lemma elem_of_add (s s' : Service.t) (new b : Backend.t) :
  Service_add s new = Some s' → NoDup (backend_names s) →
  b ∈ Service.Backends s' ↔
  b = adopted s new ∨ (b ∈ Service.Backends s ∧ Backend.Name b ≠ Backend.Name new).
Proof.
  intros Hadd Hnd. rewrite (Service_add_perm s s' new Hadd Hnd).
  rewrite elem_of_cons, list_elem_of_filter. tauto.
Qed.

Lemma elem_of_names (s : Service.t) (n : string) :
  n ∈ backend_names s ↔ ∃ b, b ∈ Service.Backends s ∧ Backend.Name b = n.
Proof.
  unfold backend_names. rewrite list_elem_of_fmap. split; intros (b & ? & ?); eauto.
Qed.

Lemma update_backend_panicked (st : Service.t * list BackendConfig.t * bool)
    (l : list BackendConfig.t) :
  st.2 = true → (foldl update_backend st l).2 = true.
Proof.
  revert st. induction l as [|b l IH]; intros [[s cur] p]; simpl; [done|].
  intros ->. by apply IH.
Qed.

Lemma update_backend_updating (B0 : list Backend.t) (seen : list BackendConfig.t)
    (s : Service.t) (cur : list BackendConfig.t) (b : BackendConfig.t) :
  NoDup (Backend.Name <$> B0) →
  updating B0 seen s cur →
  BackendConfig.Name b ∉ BackendConfig.Name <$> seen →
  let st := update_backend (s, cur, false) b in
  st.2 = false → updating B0 (seen ++ [b]) st.1.1 st.1.2.
Proof.
  intros HB0 [Hnd Hcur Hnames Hrest Hkept] Hfresh. set (x := BackendConfig.Name b) in *.
  assert (Hseen : ∀ n, n ∈ BackendConfig.Name <$> seen ++ [b] ↔
                       n ∈ BackendConfig.Name <$> seen ∨ n = x).
  { intros n. rewrite fmap_app, elem_of_app. simpl. by rewrite list_elem_of_singleton. }
  assert (Hcur' : ∀ c, c ∈ filter (λ c, BackendConfig.Name c ≠ x) cur ↔
                       c ∈ Backend.Config <$> B0 ∧
                       BackendConfig.Name c ∉ BackendConfig.Name <$> seen ++ [b]).
  { intros c. rewrite list_elem_of_filter, Hcur, Hseen. tauto. }
  assert (Hreplace :
    (∀ b', b' ∈ B0 → Backend.Name b' = x →
           BackendConfig_Equal (Backend.Config b') b = true → False) →
    let st := (let '(service, _) := Service_remove s x in
               match Service_add service (NewBackend b) with
               | Some service =>
                   (service, filter (λ c, BackendConfig.Name c ≠ x) cur, false)
               | None => (service, cur, true)
               end) in
    st.2 = false → updating B0 (seen ++ [b]) st.1.1 st.1.2).
  { intros Hno.
    pose proof (Service_remove_NoDup s x Hnd) as Hnd1.
    pose proof (elem_of_remove s x) as Hin1.
    destruct (Service_remove s x) as [s1 ok]. cbn [fst] in Hnd1, Hin1.
    destruct (Service_add s1 (NewBackend b)) as [s2|] eqn:Hadd; [|done].
    cbn zeta. cbn [fst snd]. intros _.
    pose proof (Service_add_NoDup s1 s2 _ Hadd Hnd1) as Hnd2.
    assert (Hin2 : ∀ b', b' ∈ Service.Backends s2 ↔
                         b' = adopted s1 (NewBackend b) ∨
                         (b' ∈ Service.Backends s ∧ Backend.Name b' ≠ x)).
    { intros b'. rewrite (elem_of_add s1 s2 _ b' Hadd Hnd1), Hin1 by done.
      change (Backend.Name (NewBackend b)) with x. tauto. }
    split; [done|done| | |].
    - intros n. split.
      + intros (b' & Hb' & <-)%elem_of_names.
        apply Hin2 in Hb' as [->|[Hb' Hne]]; [right; apply Hseen; by right|].
        assert (Hs : Backend.Name b' ∈ backend_names s) by (apply elem_of_names; eauto).
        apply Hnames in Hs as [?|?]; [by left|]. right. apply Hseen. by left.
      + intros Hn. apply elem_of_names. destruct (decide (n = x)) as [->|Hne].
        * exists (adopted s1 (NewBackend b)). split; [|done]. apply Hin2. by left.
        * assert (Hs : n ∈ backend_names s).
          { apply Hnames. destruct Hn as [?|Hn]; [by left|].
            apply Hseen in Hn as [?|?]; [by right|done]. }
          apply elem_of_names in Hs as (b' & Hb' & <-). exists b'. split; [|done].
          apply Hin2. by right.
    - intros b' Hb' Hn. apply Hin2. right. rewrite Hseen in Hn.
      split; [apply Hrest; tauto|tauto].
    - intros b' b0 Hb' [Hb0| ->%list_elem_of_singleton]%elem_of_app Hn He.
      + apply Hin2. right. split; [by eapply Hkept|].
        rewrite <- Hn. intros E. apply Hfresh. rewrite <- E.
        by apply list_elem_of_fmap_2.
      + exfalso. by eapply Hno. }
  unfold update_backend. fold x.
  destruct (list_find (λ c, BackendConfig.Name c = x) cur) as [[i current]|] eqn:Hfind.
  - apply list_find_Some in Hfind as (Hi & Hx & _).
    apply list_elem_of_lookup_2 in Hi.
    pose proof Hi as [Hc0 _]%Hcur.
    destruct (BackendConfig_Equal current b) eqn:He.
    + cbn zeta. cbn [fst snd]. intros _. split; [done|done| | |].
      * intros n. rewrite Hseen, Hnames. split; [tauto|].
        intros [?|[?| ->]]; auto. left. rewrite <- Hx, <- Config_names.
        by apply list_elem_of_fmap_2.
      * intros b' Hb' Hn. apply Hrest; [done|]. rewrite Hseen in Hn. tauto.
      * intros b' b0 Hb' [Hb0| ->%list_elem_of_singleton]%elem_of_app Hn He'.
        -- by eapply Hkept.
        -- apply Hrest; [done|]. by rewrite <- Hn.
    + apply Hreplace. intros b' Hb' Hn He'.
      assert (E : Backend.Config b' = current).
      { apply (NoDup_fmap_eq BackendConfig.Name (Backend.Config <$> B0)).
        - by rewrite Config_names.
        - by apply list_elem_of_fmap_2.
        - done.
        - by rewrite Hx. }
      rewrite E, He in He'. done.
  - apply Hreplace. intros b' Hb' Hn _.
    apply list_find_None in Hfind. rewrite Forall_forall in Hfind.
    apply (Hfind (Backend.Config b')); [|done].
    apply Hcur. split; [by apply list_elem_of_fmap_2|]. simpl. by rewrite Hn.
Qed.

Lemma foldl_update_backend_updating (B0 : list Backend.t) (bs seen : list BackendConfig.t)
    (s : Service.t) (cur : list BackendConfig.t) :
  NoDup (Backend.Name <$> B0) →
  NoDup (BackendConfig.Name <$> seen ++ bs) →
  updating B0 seen s cur →
  let st := foldl update_backend (s, cur, false) bs in
  st.2 = false → updating B0 (seen ++ bs) st.1.1 st.1.2.
Proof.
  intros HB0. revert seen s cur. induction bs as [|b bs IH]; intros seen s cur Hnd Hup.
  { simpl. intros _. by rewrite app_nil_r. }
  change (foldl update_backend (s, cur, false) (b :: bs))
    with (foldl update_backend (update_backend (s, cur, false) b) bs).
  cbn zeta. intros Hend.
  assert (Hfresh : BackendConfig.Name b ∉ BackendConfig.Name <$> seen).
  { rewrite fmap_app, fmap_cons in Hnd. apply NoDup_app in Hnd as (_ & Hdis & _).
    intros Hin. apply (Hdis _ Hin). by left. }
  pose proof (update_backend_updating B0 seen s cur b HB0 Hup Hfresh) as Hstep.
  destruct (update_backend (s, cur, false) b) as [[s' cur'] p'] eqn:E.
  destruct p'.
  { by rewrite (update_backend_panicked (s', cur', true) bs eq_refl) in Hend. }
  cbn [fst snd] in Hstep. specialize (Hstep eq_refl).
  replace (seen ++ b :: bs) with ((seen ++ [b]) ++ bs) in * by (by rewrite <- app_assoc).
  by apply IH.
Qed.

Lemma foldl_remove_spec (names : list string) (s : Service.t) :
  NoDup (backend_names s) →
  let s' := foldl (λ s name, (Service_remove s name).1) s names in
  NoDup (backend_names s') ∧
  ∀ b, b ∈ Service.Backends s' ↔ b ∈ Service.Backends s ∧ Backend.Name b ∉ names.
Proof.
  revert s. induction names as [|n names IH]; intros s Hnd; simpl.
  { split; [done|]. intros b. split; [|tauto]. intros ?. split; [done|apply not_elem_of_nil]. }
  destruct (IH (Service_remove s n).1 (Service_remove_NoDup s n Hnd)) as [Hnd' Hin].
  split; [done|]. intros b. rewrite Hin, elem_of_remove by done.
  rewrite not_elem_of_cons. tauto.
Qed.

(** X21: for a service whose backends have distinct names and an update
    that names its backends, with distinct names, an [UpdateService] that
    returns nil leaves the service with backends of exactly the submitted
    names; a backend whose configuration equals the submitted one of its
    name is kept as it is.  The walk over the map [currentBackends] is taken
    to visit every key once. *)
Theorem UpdateService_backends (env : Env) (w : World) (c : ServiceConfig.t)
    (service : Service.t) (bs : list BackendConfig.t) :
  svcs w !! ServiceConfig.Name c = Some service →
  NoDup (backend_names service) →
  ServiceConfig.Backends c = Some bs →
  NoDup (BackendConfig.Name <$> bs) →
  (∀ l, range_order env l ≡ₚ l) →
  (UpdateService env w c).2 = Done →
  ∃ service',
    svcs (UpdateService env w c).1 !! ServiceConfig.Name c = Some service' ∧
    backend_names service' ≡ₚ BackendConfig.Name <$> bs ∧
    ∀ b' b, b' ∈ Service.Backends service → b ∈ bs →
            BackendConfig.Name b = Backend.Name b' →
            BackendConfig_Equal (Backend.Config b') b = true →
            b' ∈ Service.Backends service'.
Proof.
  intros Hk Hnd Hbs Hndbs Horder. unfold UpdateService. rewrite Hk.
  change (ServiceConfig.Name (ServiceConfig.Merge (Service_config service) c))
    with (ServiceConfig.Name c).
  assert (Hmb : default [] (ServiceConfig.Backends
                              (ServiceConfig.Merge (Service_config service) c)) = bs).
  { unfold ServiceConfig.Merge. simpl. rewrite Hbs. by rewrite decide_True. }
  rewrite Hmb.
  set (merged := ServiceConfig.Merge (Service_config service) c). clearbody merged.
  assert (Hcur0 : backend_map (default [] (ServiceConfig.Backends (Service_config service)))
                  = Backend.Config <$> Service.Backends service).
  { assert (E : default [] (ServiceConfig.Backends (Service_config service))
                = Backend.Config <$> Service.Backends service).
    { unfold Service_config. simpl. by destruct (Service.Backends service). }
    rewrite E. apply backend_map_NoDup. by rewrite Config_names. }
  rewrite Hcur0.
  assert (H1 : (Service_UpdateConfig service merged).2 = None →
               Service.Backends (Service_UpdateConfig service merged).1
               = Service.Backends service).
  { unfold Service_UpdateConfig. by repeat case_decide. }
  destruct (Service_UpdateConfig service merged) as [s1 [e|]]; [done|].
  specialize (H1 eq_refl). cbn [fst] in H1.
  assert (Hup0 : updating (Service.Backends service) [] s1
                          (Backend.Config <$> Service.Backends service)).
  { split.
    - unfold backend_names. by rewrite H1.
    - intros c0. split; [|tauto]. intros ?. split; [done|apply not_elem_of_nil].
    - intros n. unfold backend_names. rewrite H1. split; [tauto|].
      intros [?|?%not_elem_of_nil]; done.
    - intros b' Hb' _. by rewrite H1.
    - by intros b' b _ ?%not_elem_of_nil. }
  pose proof (foldl_update_backend_updating (Service.Backends service) bs [] s1 _
                Hnd Hndbs Hup0) as Hloop.
  destruct (foldl update_backend _ bs) as [[s2 cur2] p]. cbn [fst snd] in Hloop.
  destruct p; [done|]. specialize (Hloop eq_refl). rewrite app_nil_l in Hloop.
  destruct Hloop as [Hnd2 Hcur2 Hnames2 _ Hkept2].
  destruct (foldl_remove_spec (range_order env (BackendConfig.Name <$> cur2)) s2 Hnd2)
    as [Hnd3 Hin3].
  set (s3 := foldl _ s2 _) in *.
  assert (Hgone : ∀ n, n ∈ range_order env (BackendConfig.Name <$> cur2) ↔
                       n ∈ backend_names service ∧ n ∉ BackendConfig.Name <$> bs).
  { intros n. rewrite Horder, list_elem_of_fmap. split.
    - intros (c0 & -> & [Hc0 Hn]%Hcur2). split; [|done].
      unfold backend_names. rewrite <- Config_names. by apply list_elem_of_fmap_2.
    - intros [Hn Hnot]. unfold backend_names in Hn. rewrite <- Config_names in Hn.
      apply list_elem_of_fmap in Hn as (c0 & -> & Hc0). exists c0. split; [done|].
      by apply Hcur2. }
  assert (Hfinal : backend_names s3 ≡ₚ BackendConfig.Name <$> bs ∧
                   ∀ b' b, b' ∈ Service.Backends service → b ∈ bs →
                           BackendConfig.Name b = Backend.Name b' →
                           BackendConfig_Equal (Backend.Config b') b = true →
                           b' ∈ Service.Backends s3).
  { split.
    - apply NoDup_Permutation; [done|done|]. intros n. rewrite elem_of_names. split.
      + intros (b' & [Hb' Hn]%Hin3 & <-). rewrite Hgone in Hn.
        assert (Hs2 : Backend.Name b' ∈ backend_names s2)
          by (apply elem_of_names; eauto).
        apply Hnames2 in Hs2 as [Hs|Hs]; [|done].
        destruct (decide (Backend.Name b' ∈ BackendConfig.Name <$> bs)); [done|].
        exfalso. apply Hn. by split.
      + intros Hn. assert (Hs2 : n ∈ backend_names s2) by (apply Hnames2; by right).
        apply elem_of_names in Hs2 as (b' & Hb' & <-). exists b'. split; [|done].
        apply Hin3. split; [done|]. rewrite Hgone. tauto.
    - intros b' b Hb' Hb Hn He. apply Hin3. split; [by eapply Hkept2|].
      rewrite Hgone. intros [_ Hnot]. apply Hnot. rewrite <- Hn.
      by apply list_elem_of_fmap_2. }
  clearbody s3.
  destruct (ServiceConfig.Equal (heap w) (Service_config service) merged) as [same m].
  destruct same; cbn [fst snd svcs].
  { intros _. rewrite lookup_insert_eq. by exists s3. }
  destruct (filterEmpty m (ServiceConfig.VirtualHosts merged)) as [hosts m'].
  set (s4 := if decide (Service.errPagesCfg s3 ≠ ServiceConfig.ErrorPages merged)
             then Service.set_errPagesCfg s3 (ServiceConfig.ErrorPages merged) else s3).
  assert (H4 : Service.Backends s4 = Service.Backends s3).
  { unfold s4. by case_decide. }
  clearbody s4. unfold updateVHosts.
  destruct (diff_hosts _ _) as [remove add].
  destruct (foldl _ _ remove) as [vh []]; cbn [fst snd svcs]; [done|].
  intros _. unfold backend_names in *.
  destruct (decide (Service.Name s4 = ServiceConfig.Name c)) as [E|Hne].
  - simpl. rewrite E, lookup_insert_eq. eexists. split; [done|]. simpl.
    by rewrite H4.
  - simpl. rewrite lookup_insert_ne by done. rewrite lookup_insert_eq.
    eexists. split; [done|]. by rewrite H4.
Qed.

Lemma UpdateService_backends_witness :
  let env := quiet ":9000" in
  let w := mkWorld {[ "web" := weighted_service ]} ∅
                   (Config.mk "" 0 0 0 0 0 0 false []) [] in
  let bs := [backend_cfg "b1" "10.0.0.9:80" "" 1; backend_cfg "b3" "10.0.0.3:80" "" 1] in
  let c := hosted "web" "" None (Some bs) false in
  ∃ service', svcs (UpdateService env w c).1 !! "web" = Some service' ∧
              backend_names service' ≡ₚ ["b1"; "b3"].
Proof.
  intros env w bs c.
  destruct (UpdateService_backends env w c weighted_service bs) as (s' & Hs' & Hn & _).
  - reflexivity.
  - apply (bool_decide_unpack _). by vm_compute.
  - reflexivity.
  - apply (bool_decide_unpack _). by vm_compute.
  - by intros l.
  - by vm_compute.
  - by exists s'.
Defined.

(** ** Writing back the configuration of a service *)








(** ** runUDP and a closed listener *)

(** X23: as long as [ReadFromUDP] reports the error of a closed
    connection, with no byte read, [runUDP] stays in its loop: it changes
    nothing and does not return. *)
Theorem runUDP_goes_on_when_closed (s : Service.t) (ds : list Datagram) :
  Forall (λ d, read_err d = Some true ∧ read d = 0) ds →
  runUDP s ds = (s, [], Continue).
Proof.
  induction 1 as [|d ds [He Hr] _ IH]; [done|]. simpl.
  unfold runUDP_turn. rewrite He, Hr. simpl. by rewrite IH.
Qed.

Lemma runUDP_goes_on_when_closed_witness :
  let closed := {| read := 0; from := UDPAddr.mk [10; 0; 0; 1] 53; read_err := Some true;
                   backend := None; dial := None; write := None |} in
  runUDP forwarding [closed; closed; closed] = (forwarding, [], Continue).
Proof.
  intros closed. apply runUDP_goes_on_when_closed. by repeat constructor.
Defined.

(** ** The panic of add *)

Lemma Service_add_None (s : Service.t) (b : Backend.t) :
  Service_add s b = None ↔ short (Service.Network s) ∨ short (Backend.Network b).
Proof.
  unfold Service_add, network_mismatch, str_prefix, short. cbn [Backend.Network].
  destruct (decide (3 ≤ String.length (Service.Network s))%nat),
           (decide (3 ≤ String.length (Backend.Network b))%nat);
    try (split; [done|lia]); try (split; [intros _; lia|done]).
  destruct (backend_index _ _); split; (done || lia).
Qed.

Lemma foldl_add_None (bs : list BackendConfig.t) (s : Service.t) :
  foldl (λ acc b, acc ≫= λ s, Service_add s (NewBackend b)) (Some s) bs = None ↔
  ∃ b, b ∈ bs ∧ (short (Service.Network s) ∨ short (Backend.Network (NewBackend b))).
Proof.
  revert s. induction bs as [|b bs IH]; intros s.
  { simpl. split; [done|]. by intros (b & ?%not_elem_of_nil & _). }
  cbn [foldl mbind option_bind].
  destruct (Service_add s (NewBackend b)) as [s1|] eqn:Hadd.
  - assert (Hnet : Service.Network s1 = Service.Network s)
      by (by destruct (kept_add s s1 _ Hadd) as (_ & ? & _)).
    assert (Hok : ¬ (short (Service.Network s) ∨ short (Backend.Network (NewBackend b)))).
    { intros H. apply Service_add_None in H. by rewrite Hadd in H. }
    rewrite IH, Hnet. split.
    + intros (b' & Hin & H). exists b'. split; [by right|done].
    + intros (b' & [->|Hin]%elem_of_cons & H); [done|]. by exists b'.
  - split.
    + intros _. exists b. split; [by left|]. by apply Service_add_None.
    + intros _. clear. induction bs as [|b' bs IHb]; [done|].
      cbn [foldl mbind option_bind]. apply IHb.
Qed.

(** X24: with [NewBackend] returning normally, [AddService] panics exactly
    when the name is new, the configuration has a backend, and the network of
    the service, after the defaults, or the network of one of the new
    backends is shorter than the three bytes that [add] slices off. *)
Theorem AddService_panics (env : Env) (w : World) (c : ServiceConfig.t) :
  let c' := ServiceConfig.SetDefaults (setServiceDefaults (cfg w) c) in
  (AddService env w c).2 = Panicked ↔
  svcs w !! ServiceConfig.Name c = None ∧
  ∃ b, b ∈ default [] (ServiceConfig.Backends c) ∧
       (short (ServiceConfig.Network c') ∨ short (Backend.Network (NewBackend b))).
Proof.
  intros c'. unfold AddService. fold c'.
  destruct (svcs w !! ServiceConfig.Name c) eqn:Hk.
  { split; [done|]. by intros [? _]. }
  assert (Hnew : NewService c' = None ↔
    ∃ b, b ∈ default [] (ServiceConfig.Backends c) ∧
         (short (ServiceConfig.Network c') ∨ short (Backend.Network (NewBackend b)))).
  { unfold NewService. rewrite foldl_add_None. cbn [Service.Network].
    assert (Hn : ServiceConfig.Network c' ≠ "").
    { unfold c', ServiceConfig.SetDefaults. simpl. by case_decide. }
    by rewrite decide_False by done. }
  destruct (NewService c') as [s1|].
  - assert (Hno : ¬ ∃ b, b ∈ default [] (ServiceConfig.Backends c) ∧
             (short (ServiceConfig.Network c') ∨ short (Backend.Network (NewBackend b)))).
    { intros H. by apply Hnew in H. }
    destruct (Service_start env s1) as [s2|err].
    + destruct (filterEmpty _ _). split; [done|]. by intros [_ ?].
    + split; [done|]. by intros [_ ?].
  - split; [|done]. intros _. split; [done|]. by apply Hnew.
Qed.

Lemma AddService_panics_witness :
  let c := hosted "web" ":80" None (Some [backend_cfg "b0" "10.0.0.1:80" "ip" 0]) false in
  (AddService (quiet ":9000") initial c).2 = Panicked.
Proof.
  intros c. apply (AddService_panics (quiet ":9000") initial c). split; [done|].
  exists (backend_cfg "b0" "10.0.0.1:80" "ip" 0). split; [by left|].
  right. unfold short. simpl. lia.
Defined.

(** ** The panics of UpdateService on clean input *)

Lemma update_backend_panics (s : Service.t) (cur : list BackendConfig.t)
    (b : BackendConfig.t) :
  (update_backend (s, cur, false) b).2 = true →
  short (Service.Network s) ∨ short (Backend.Network (NewBackend b)).
Proof.
  unfold update_backend.
  assert (Hrep : ∀ rest,
    (let '(service, _) := Service_remove s (BackendConfig.Name b) in
     match Service_add service (NewBackend b) with
     | Some service => (service, rest, false)
     | None => (service, cur, true)
     end).2 = true →
    short (Service.Network s) ∨ short (Backend.Network (NewBackend b))).
  { intros rest. pose proof (kept_remove s (BackendConfig.Name b)) as (_ & Hnet & _).
    destruct (Service_remove s _) as [s1 ok]. cbn [fst] in Hnet.
    destruct (Service_add s1 (NewBackend b)) eqn:Hadd; [done|]. intros _.
    apply Service_add_None in Hadd. by rewrite Hnet in Hadd. }
  destruct (list_find _ cur) as [[i c]|]; [|apply Hrep].
  destruct (BackendConfig_Equal c b); [done|apply Hrep].
Qed.

Lemma foldl_update_backend_panics (bs : list BackendConfig.t) (s : Service.t)
    (cur : list BackendConfig.t) :
  (foldl update_backend (s, cur, false) bs).2 = true →
  ∃ b, b ∈ bs ∧ (short (Service.Network s) ∨ short (Backend.Network (NewBackend b))).
Proof.
  revert s cur. induction bs as [|b bs IH]; intros s cur; [done|].
  change (foldl update_backend (s, cur, false) (b :: bs))
    with (foldl update_backend (update_backend (s, cur, false) b) bs).
  pose proof (update_backend_panics s cur b) as Hstep.
  pose proof (update_backend_related kept kept_refl kept_trans kept_add kept_remove
                (s, cur, false) b) as (_ & Hnet & _).
  destruct (update_backend (s, cur, false) b) as [[s' cur'] p']. cbn [fst snd] in *.
  destruct p'.
  - intros _. exists b. split; [by left|by apply Hstep].
  - intros (b' & Hin & H)%IH. exists b'. split; [by right|]. by rewrite <- Hnet.
Qed.

Lemma UpdateService_panics_Inv (env : Env) (w : World) (c : ServiceConfig.t) :
  Inv w → fresh w (ServiceConfig.VirtualHosts c) →
  (UpdateService env w c).2 = Panicked →
  ∃ service b,
    svcs w !! ServiceConfig.Name c = Some service ∧
    b ∈ default [] (ServiceConfig.Backends (ServiceConfig.Merge (Service_config service) c)) ∧
    (short (Service.Network service) ∨ short (Backend.Network (NewBackend b))).
Proof.
  intros HI Hf. unfold UpdateService.
  destruct (svcs w !! ServiceConfig.Name c) as [service|] eqn:Hk; [|done].
  intros Hp. exists service.
  cut (∃ b, b ∈ default [] (ServiceConfig.Backends
                              (ServiceConfig.Merge (Service_config service) c)) ∧
            (short (Service.Network service) ∨ short (Backend.Network (NewBackend b)))).
  { intros (b & ? & ?). by exists b. }
  revert Hp.
  change (ServiceConfig.Name (ServiceConfig.Merge (Service_config service) c))
    with (ServiceConfig.Name c).
  pose proof (Merge_hosts (Service_config service) c) as Hmv.
  change (ServiceConfig.VirtualHosts (Service_config service))
    with (Service.VirtualHosts service) in Hmv.
  set (merged := ServiceConfig.Merge (Service_config service) c) in *. clearbody merged.
  set (k := ServiceConfig.Name c) in *.
  pose proof (inv_name w HI k service Hk) as Hname.
  pose proof (kept_config service merged) as (_ & Hnet1 & _).
  destruct (Service_UpdateConfig_spec service merged)
    as [[_ Hr]|(_ & Hnone & _ & Hn1 & Hv1)].
  { by rewrite Hr. }
  destruct (Service_UpdateConfig service merged) as [s1 [e|]]; [done|].
  cbn [fst snd] in Hn1, Hv1, Hnet1 |- *.
  assert (H1 : same_hosts service s1) by done.
  pose proof (foldl_update_backend_hosts
                (default [] (ServiceConfig.Backends merged))
                (s1, backend_map (default [] (ServiceConfig.Backends (Service_config service))),
                 false)) as Hb.
  pose proof (foldl_update_backend_panics
                (default [] (ServiceConfig.Backends merged)) s1
                (backend_map (default [] (ServiceConfig.Backends (Service_config service)))))
    as Hpanic.
  destruct (foldl update_backend _ _) as [[s2 cur] p]. cbn [fst snd] in Hb, Hpanic |- *.
  assert (H2 : same_hosts service s2).
  { destruct H1 as [? ?], Hb as [? ?]. split; congruence. }
  destruct p; cbn [fst snd].
  { intros _. rewrite <- Hnet1. by apply Hpanic. }
  pose proof (foldl_remove_hosts (range_order env (BackendConfig.Name <$> cur)) s2) as Hrm.
  set (s3 := foldl _ s2 _) in *.
  assert (H3 : same_hosts service s3).
  { destruct H2 as [? ?], Hrm as [? ?]. split; congruence. }
  pose proof (Equal_heap (heap w) (Service_config service) merged) as Hm.
  change (ServiceConfig.VirtualHosts (Service_config service))
    with (Service.VirtualHosts service) in Hm.
  destruct (ServiceConfig.Equal (heap w) (Service_config service) merged) as [same m].
  cbn [snd] in Hm.
  assert (Hex : exclusive w (Service.VirtualHosts service)) by (by eapply own_exclusive).
  assert (HIa : Inv (with_heap w (sort_Strings (heap w) (Service.VirtualHosts service)))).
  { by apply Inv_sort. }
  assert (HIm : Inv (with_heap w m)).
  { rewrite Hm. by apply (Inv_sort _ _ HIa). }
  destruct same; cbn [fst snd]; [done|].
  set (s4 := if decide (Service.errPagesCfg s3 ≠ ServiceConfig.ErrorPages merged)
             then Service.set_errPagesCfg s3 (ServiceConfig.ErrorPages merged) else s3).
  assert (H4 : same_hosts service s4).
  { unfold s4. by destruct (decide _). }
  assert (HI4 : Inv (mkWorld (<[k := s4]> (svcs w)) (vhosts w) (cfg w) m)).
  { by apply (Inv_put (with_heap w m) k service). }
  assert (Hlen : length m = length (heap w)).
  { rewrite Hm. by rewrite !length_sort_Strings. }
  assert (Hcase : (ServiceConfig.VirtualHosts merged = Service.VirtualHosts s4) ∨
                  fresh (mkWorld (<[k := s4]> (svcs w)) (vhosts w) (cfg w) m)
                        (ServiceConfig.VirtualHosts merged)).
  { rewrite Hmv. destruct (ServiceConfig.VirtualHosts c) as [r|] eqn:Hc.
    - right. destruct Hf as (Hbd & Hfar & Hnd & Hub). unfold fresh. cbn [heap svcs].
      assert (Hel : elems m (Some r) = elems (heap w) (Some r)).
      { rewrite Hm. rewrite !elems_sort_ne; [done|..];
          intros r' Hr'; symmetry; by eapply (Hfar k service). }
      split; [lia|]. split; [|by rewrite Hel].
      intros j t r' Hj Hr'. destruct (decide (k = j)) as [<-|Hne].
      + rewrite lookup_insert_eq in Hj. injection Hj as <-.
        rewrite (proj2 H4) in Hr'. by eapply (Hfar k service).
      + rewrite lookup_insert_ne in Hj by done. by eapply Hfar.
    - left. by rewrite (proj2 H4). }
  assert (Hub : unblank (elems m (ServiceConfig.VirtualHosts merged))).
  { destruct Hcase as [E|Hfr].
    - rewrite E. apply (inv_clean _ HI4 k s4). simpl. by rewrite lookup_insert_eq.
    - destruct (ServiceConfig.VirtualHosts merged); simpl in *; [tauto|].
      by intros h ?%not_elem_of_nil. }
  rewrite filterEmpty_unblank by done. cbn [fst snd].
  destruct (updateVHosts_Inv (mkWorld (<[k := s4]> (svcs w)) (vhosts w) (cfg w) m) s4
              (ServiceConfig.VirtualHosts merged) HI4) as [_ Hdone].
  - simpl. rewrite (proj1 H4), Hname. by rewrite lookup_insert_eq.
  - done.
  - fold s4. by rewrite Hdone.
Qed.

(** X25: in a registry reached by calls with clean host lists, an
    [UpdateService] with a clean host list panics only in [add], on a network
    name shorter than three bytes ([NewBackend] returning normally);
    [updateVHosts] never meets a missing virtual host there. *)
Theorem UpdateService_panics_only_in_add (env : Env) (w : World)
    (c : ServiceConfig.t * option (list string)) :
  reachable w → clean c.2 →
  (run env w (Call_UpdateService c)).2 = true →
  ∃ service b,
    svcs w !! ServiceConfig.Name c.1 = Some service ∧
    b ∈ default [] (ServiceConfig.Backends
                      (ServiceConfig.Merge (Service_config service) c.1)) ∧
    (short (Service.Network service) ∨ short (Backend.Network (NewBackend b))).
Proof.
  intros HI%reachable_Inv Hc. unfold run.
  destruct (decode_fresh w c HI Hc) as (HI1 & Hf1 & _).
  assert (Hsame : ServiceConfig.Name (decode (heap w) c).1 = ServiceConfig.Name c.1 ∧
                  ∀ s, ServiceConfig.Backends (ServiceConfig.Merge s (decode (heap w) c).1)
                       = ServiceConfig.Backends (ServiceConfig.Merge s c.1)).
  { unfold decode. by destruct (alloc (heap w) c.2). }
  destruct Hsame as [Hname Hback].
  destruct (decode (heap w) c) as [c1 m1]. cbn [fst snd] in *.
  pose proof (UpdateService_panics_Inv env (with_heap w m1) c1 HI1 Hf1) as H.
  destruct (UpdateService env (with_heap w m1) c1) as [w' r]. cbn [fst snd] in *.
  destruct r; try done. intros _.
  destruct (H eq_refl) as (service & b & Hs & Hb & Hshort).
  exists service, b. rewrite <- Hname, <- Hback. by repeat split.
Qed.

Lemma UpdateService_panics_only_in_add_witness :
  let env := quiet ":9000" in
  let w := (run env initial (Call_AddService (plain "web" ":80", None))).1 in
  let c := hosted "web" "" None (Some [backend_cfg "b0" "10.0.0.1:80" "ip" 0]) false in
  ∃ b, b ∈ [backend_cfg "b0" "10.0.0.1:80" "ip" 0] ∧ short (Backend.Network (NewBackend b)).
Proof.
  intros env w c.
  destruct (UpdateService_panics_only_in_add env w (c, None))
    as (service & b & Hs & Hb & Hshort).
  - apply reachable_run; [apply reachable_initial|]. split; [constructor|].
    by intros h ?%not_elem_of_nil.
  - split; [constructor|]. by intros h ?%not_elem_of_nil.
  - by vm_compute.
  - exists b. split; [exact Hb|].
    destruct Hshort as [Hshort|Hshort]; [|done].
    vm_compute in Hs. injection Hs as <-. unfold short in Hshort. simpl in Hshort. lia.
Defined.

(** ** Writing back the configuration of the registry *)





